(** * GIF caption creator: the page script, the export worker and the LZW law

    A shallow embedding of [index.html] (the module script of the page) and
    [worker.js] (the export worker), over an abstract interface of the wasm
    engine they both import from [./pkg/gif_caption_wasm.js].

    JavaScript is embedded as state passing with exceptions: a handler is a
    function from the variables it closes over to a completion (a normal value
    or a thrown one) and the updated variables.  An [await] is a suspension
    point: the handler is split there, and its continuation is a task that the
    event loop runs in a later step. *)

From Stdlib Require Import ZArith QArith String List Lia Bool.
From Stdlib Require Import Strings.Byte.
From stdpp Require Import base option list.

Close Scope Q_scope.
Open Scope string_scope.
Open Scope list_scope.

(** ** Plain data *)

(** A [Uint8Array]. *)
Definition bytes : Type := list byte.

(** A reference to a wasm object, within one realm's heap. *)
Definition loc : Type := nat.

(** [{ width, height }] as [get_dimensions()] returns it. *)
Record Dimensions : Type := { width : Z; height : Z }.

(** A [File] of the page: an immutable blob with a name. *)
Record File : Type := { file_name : string; file_type : string; file_data : bytes }.

(** ** The engine, as wasm-bindgen exposes it

    [./pkg/gif_caption_wasm.js] is a build product of the Rust crate.  The two
    scripts use the class [GifProcessor] through nine methods.  A method that
    takes data or a drawing surface may throw; a getter reads the object
    without changing it; every other method threads the object's state.  The
    surface a method draws on is not part of the model.  JavaScript numbers
    that only travel from the controls of the page to the engine are kept
    abstract, with the operations the page applies to them. *)
Class Engine : Type := {
  (** the state of one [GifProcessor] object *)
  Proc : Type;
  (** what [prepare_text_overlay] returns and
      [process_all_frames_with_text_data] accepts: plain data *)
  TextData : Type;
  (** a JavaScript number *)
  Num : Type;
  parseInt : string -> Num;
  parseFloat : string -> Num;
  num_of_Z : Z -> Num;
  num_div : Num -> Num -> Num;
  num_mul : Num -> Num -> Num;
  (** a value thrown by the engine *)
  Error : Type;
  toString : Error -> string;
  (** [new GifProcessor()] *)
  new_GifProcessor : Proc;
  process_gif : Proc -> bytes -> Proc * (Error + unit);
  process_all_frames_with_text_data : Proc -> TextData -> Proc * (Error + bytes);
  prepare_text_overlay :
    Proc -> string -> Num -> Num -> Num -> string -> Proc * (Error + TextData);
  get_dimensions : Proc -> Dimensions;
  get_frame_delay : Proc -> Z;
  render_current_frame : Proc -> Proc * (Error + unit);
  next_frame : Proc -> Proc;
  add_caption :
    Proc -> string -> Num -> Num -> Num -> string -> Proc * (Error + unit);
}.

(** ** Completions and the state-and-exception monad *)

Section JavaScript.
Context {E : Engine}.

(** What a JavaScript [throw] carries here. *)
Inductive Exn : Type :=
| EngineError (e : Error)
| TypeError (msg : string)
| Rejected (msg : string).

(** [error.toString()] *)
Definition Exn_toString (x : Exn) : string :=
  match x with
  | EngineError e => toString e
  | TypeError msg => "TypeError: " ++ msg
  | Rejected msg => msg
  end.

Inductive completion (A : Type) : Type :=
| Normal (a : A)
| Throw (x : Exn).
Global Arguments Normal {A} a.
Global Arguments Throw {A} x.

Definition JS (St A : Type) : Type := St -> completion A * St.

Definition ret {St A} (a : A) : JS St A := fun s => (Normal a, s).

Definition bind {St A B} (m : JS St A) (k : A -> JS St B) : JS St B :=
  fun s =>
    match m s with
    | (Normal a, s') => k a s'
    | (Throw x, s') => (Throw x, s')
    end.

Definition throw {St A} (x : Exn) : JS St A := fun s => (Throw x, s).

(** [try { body } catch (error) { handler }]: the state written by the body
    before it threw stays written. *)
Definition try_catch {St A} (body : JS St A) (handler : Exn -> JS St A) : JS St A :=
  fun s =>
    match body s with
    | (Normal a, s') => (Normal a, s')
    | (Throw x, s') => handler x s'
    end.

Definition gets {St A} (f : St -> A) : JS St A := fun s => (Normal (f s), s).

Definition modify {St} (f : St -> St) : JS St unit := fun s => (Normal tt, f s).

(** [if (c) { m }] *)
Definition when {St} (c : bool) (m : JS St unit) : JS St unit :=
  if c then m else ret tt.

(** The state a handler leaves behind, whether it returned or threw. *)
Definition exec {St A} (m : JS St A) (s : St) : St := snd (m s).

(** A property of the state that a computation keeps, whether it returns or
    throws. *)
Definition stable {St A} (Q : St -> Prop) (m : JS St A) : Prop :=
  forall s, Q s -> Q (snd (m s)).

End JavaScript.

Declare Scope js_scope.
Delimit Scope js_scope with js.
Notation "x <- m ;; k" := (bind m (fun x => k))
  (at level 100, m at next level, right associativity) : js_scope.
Notation "m ;;; k" := (bind m (fun _ => k))
  (at level 100, right associativity) : js_scope.
Open Scope js_scope.

(** ** A realm: the wasm objects of one execution context and its call trace *)

Section Realms.
Context {E : Engine}.

(** A call that crosses from a script into the engine, as observed. *)
Inductive Call : Type :=
| CallInit
| CallNew (l : loc)
| CallProcessGif (l : loc) (data : bytes)
| CallProcessAll (l : loc) (textData : TextData)
| CallPrepare (l : loc)
| CallGetDimensions (l : loc)
| CallGetFrameDelay (l : loc)
| CallRender (l : loc)
| CallNextFrame (l : loc)
| CallAddCaption (l : loc)
| CallOnNull (method : string).

Record Realm : Type := {
  heap : list Proc;
  calls : list Call;
}.

Definition empty_realm : Realm := {| heap := []; calls := [] |}.

Definition trace (c : Call) (r : Realm) : Realm :=
  {| heap := heap r; calls := calls r ++ [c] |}.

(** [new GifProcessor()]: a fresh object, distinct from every earlier one. *)
Definition new_object (r : Realm) : loc * Realm :=
  (length (heap r),
   {| heap := heap r ++ [new_GifProcessor];
      calls := calls r ++ [CallNew (length (heap r))] |}).

Definition of_result {A} (res : Error + A) : completion A :=
  match res with
  | inl e => Throw (EngineError e)
  | inr a => Normal a
  end.

(** [ref.method(...)] for a method that changes the object.  A call on [null]
    throws a TypeError, as does a call on a reference that names no object
    (the scripts never free one). *)
Definition invoke {A} (method : string) (c : loc -> Call)
    (f : Proc -> Proc * (Error + A)) (ref : option loc) : JS Realm A :=
  fun r =>
    match ref with
    | None =>
        (Throw (TypeError ("null." ++ method)), trace (CallOnNull method) r)
    | Some l =>
        match heap r !! l with
        | None => (Throw (TypeError ("null." ++ method)), trace (CallOnNull method) r)
        | Some p =>
            let '(p', res) := f p in
            (of_result res,
             {| heap := <[l := p']> (heap r); calls := calls r ++ [c l] |})
        end
    end.

(** [ref.method(...)] for a method that only reads the object. *)
Definition invoke_getter {A} (method : string) (c : loc -> Call)
    (f : Proc -> Error + A) (ref : option loc) : JS Realm A :=
  invoke method c (fun p => (p, f p)) ref.

End Realms.

(** ** worker.js *)

Section WorkerScript.
Context {E : Engine}.

(** [e.data] of a message the worker receives: [{ type, data: { gifData, textData } }]. *)
Record WorkerRequest : Type := {
  req_type : string;
  req_gifData : bytes;
  req_textData : TextData;
}.

(** What the worker posts: [{ type: 'gif_processed', data }] or
    [{ type: 'error', error }]. *)
Inductive WorkerReply : Type :=
| gif_processed (data : bytes)
| error (error : string).

(** An invocation of [self.onmessage] that is suspended at an [await]. *)
Inductive WorkerTask : Type :=
| AwaitInit (e : WorkerRequest)      (* in [initWasm], at [await init()] *)
| AwaitInitWasm (e : WorkerRequest). (* at [await initWasm()], which has returned *)

Record Worker : Type := {
  w_realm : Realm;
  (** [let gifProcessor = null;] *)
  w_gifProcessor : option loc;
  w_tasks : list WorkerTask;
  (** what [self.postMessage] has queued for the page, oldest first *)
  w_outbox : list WorkerReply;
}.

(** The worker once its module has been evaluated. *)
Definition worker_start : Worker :=
  {| w_realm := empty_realm; w_gifProcessor := None; w_tasks := []; w_outbox := [] |}.

Definition w_in_realm {A} (m : JS Realm A) : JS Worker A :=
  fun w =>
    let '(a, r) := m (w_realm w) in
    (a, {| w_realm := r; w_gifProcessor := w_gifProcessor w;
           w_tasks := w_tasks w; w_outbox := w_outbox w |}).

Definition self_postMessage (m : WorkerReply) : JS Worker unit :=
  modify (fun w =>
    {| w_realm := w_realm w; w_gifProcessor := w_gifProcessor w;
       w_tasks := w_tasks w; w_outbox := w_outbox w ++ [m] |}).

Definition w_set_tasks (ts : list WorkerTask) (w : Worker) : Worker :=
  {| w_realm := w_realm w; w_gifProcessor := w_gifProcessor w;
     w_tasks := ts; w_outbox := w_outbox w |}.

(** The part of [self.onmessage] after [await initWasm()]: lines 18 to 30.
    It runs to its end without suspending. *)
Definition onmessage_body (e : WorkerRequest) : JS Worker unit :=
  if String.eqb (req_type e) "process_gif" then
    try_catch
      (ref <- gets w_gifProcessor ;;
       w_in_realm (invoke "process_gif" (fun l => CallProcessGif l (req_gifData e))
                     (fun p => process_gif p (req_gifData e)) ref) ;;;
       ref <- gets w_gifProcessor ;;
       result <- w_in_realm
                   (invoke "process_all_frames_with_text_data"
                      (fun l => CallProcessAll l (req_textData e))
                      (fun p => process_all_frames_with_text_data p (req_textData e)) ref) ;;
       self_postMessage (gif_processed result))
      (fun err => self_postMessage (error (Exn_toString err)))
  else ret tt.

(** A message event is dispatched: [self.onmessage(e)] runs up to its first
    suspension.  With a processor it runs to its end; without one it calls
    [initWasm()], which calls [init()] and suspends. *)
Definition deliver (e : WorkerRequest) (w : Worker) : Worker :=
  match w_gifProcessor w with
  | Some _ => exec (onmessage_body e) w
  | None =>
      {| w_realm := trace CallInit (w_realm w); w_gifProcessor := None;
         w_tasks := w_tasks w ++ [AwaitInit e]; w_outbox := w_outbox w |}
  end.

(** The promise of [init()] awaited by task [i] settles.  Fulfilled:
    [initWasm] assigns [gifProcessor = new GifProcessor()] and returns, and the
    handler becomes ready to go on.  Rejected: the rejection leaves [initWasm]
    and then [self.onmessage], whose own promise nobody handles; the invocation
    is over. *)
Definition init_settled (i : nat) (fulfilled : bool) (w : Worker) : Worker :=
  match w_tasks w !! i with
  | Some (AwaitInit e) =>
      if fulfilled then
        let '(l, r) := new_object (w_realm w) in
        {| w_realm := r; w_gifProcessor := Some l;
           w_tasks := <[i := AwaitInitWasm e]> (w_tasks w); w_outbox := w_outbox w |}
      else w_set_tasks (delete i (w_tasks w)) w
  | _ => w
  end.

(** Task [i] goes on after [await initWasm()]. *)
Definition resume (i : nat) (w : Worker) : Worker :=
  match w_tasks w !! i with
  | Some (AwaitInitWasm e) =>
      exec (onmessage_body e) (w_set_tasks (delete i (w_tasks w)) w)
  | _ => w
  end.

(** What the event loop of the worker can do next. *)
Inductive WorkerEvent : Type :=
| Deliver (e : WorkerRequest)
| InitSettled (i : nat) (fulfilled : bool)
| Resume (i : nat).

Definition worker_step (ev : WorkerEvent) (w : Worker) : Worker :=
  match ev with
  | Deliver e => deliver e w
  | InitSettled i ok => init_settled i ok w
  | Resume i => resume i w
  end.

Definition worker_run (evs : list WorkerEvent) (w : Worker) : Worker :=
  fold_left (fun w ev => worker_step ev w) evs w.

End WorkerScript.

(** ** index.html: the variables of [main], the document and the window *)

Section PageState.
Context {E : Engine}.

(** The [value] of the five controls. *)
Record Controls : Type := {
  captionText : string;
  fontFamily : string;
  fontSize : string;
  positionX : string;
  positionY : string;
}.

Inductive Control : Type :=
| captionText_control
| fontFamily_control
| fontSize_control
| positionX_control
| positionY_control.

(** A canvas: its size, whether its class list holds ['hidden'], and whether
    its inline style sets [display: none].  The script only ever removes the
    class; it never writes a canvas's [style.display]. *)
Record Canvas : Type := {
  canvas_width : Z;
  canvas_height : Z;
  class_hidden : bool;
  style_display_none : bool;
}.

(** The canvas is displayed: neither the class nor the inline style hides it. *)
Definition displayed (c : Canvas) : bool :=
  negb (class_hidden c) && negb (style_display_none c).

Record Button : Type := { disabled : bool; textContent : string }.

(** What [fileInfo.innerHTML] shows. *)
Inductive FileInfo : Type :=
| NoFileInfo
| SelectedFile (file : File)
| FailedToProcess.

(** The callbacks [startAnimation] hands to [requestAnimationFrame].  Each call
    of [startAnimation] makes new closures, all over the same variables. *)
Inductive FrameCallback : Type :=
| animate_callback
| animateProcessed_callback.

(** An invocation of an async function of the page, suspended at its [await]. *)
Inductive PageTask : Type :=
| HandleFileReading (file : File)
    (* [handleFile], at [await file.arrayBuffer()] *)
| ClickReading (file : File) (textOverlay : TextData).
    (* the click listener, at [await currentFile.arrayBuffer()] *)

(** The [let] variables of [main] that are assigned after their declaration.
    [isProcessed] is declared and never used. *)
Record Vars : Type := {
  currentFile : option File;
  processedGifData : option bytes;
  (** the bytes of the Blob that the object URL names *)
  processedGifUrl : option bytes;
  (** [worker !== null] *)
  worker : bool;
  animationFrameId : option nat;
  processedAnimationFrameId : option nat;
  lastFrameTime : Q;
  lastProcessedFrameTime : Q;
  isProcessing : bool;
}.

(** The elements the script writes.  The inline styles of the download button
    follow its [disabled] flag; the classes of the drop zone are left out. *)
Record Document : Type := {
  controls : Controls;
  preview : Canvas;
  processedPreview : Canvas;
  processButton : Button;
  downloadButton_disabled : bool;
  generatedGif_src : option bytes;
  generatedGif_hidden : bool;
  fileInfo : FileInfo;
  (** [alert(...)] calls, oldest first *)
  alerts : list string;
  (** [console.error(...)] calls, oldest first *)
  console : list string;
}.

Record Main : Type := {
  m_realm : Realm;
  vars : Vars;
  doc : Document;
  (** pending [requestAnimationFrame] requests *)
  requests : list (nat * FrameCallback);
  next_request : nat;
  m_tasks : list PageTask;
  (** what [worker.postMessage] has queued for the worker, oldest first *)
  m_outbox : list WorkerRequest;
}.

Definition set_currentFile (x : option File) (v : Vars) : Vars :=
  {| currentFile := x; processedGifData := processedGifData v;
     processedGifUrl := processedGifUrl v; worker := worker v;
     animationFrameId := animationFrameId v;
     processedAnimationFrameId := processedAnimationFrameId v;
     lastFrameTime := lastFrameTime v;
     lastProcessedFrameTime := lastProcessedFrameTime v;
     isProcessing := isProcessing v |}.

Definition set_processedGifData (x : option bytes) (v : Vars) : Vars :=
  {| currentFile := currentFile v; processedGifData := x;
     processedGifUrl := processedGifUrl v; worker := worker v;
     animationFrameId := animationFrameId v;
     processedAnimationFrameId := processedAnimationFrameId v;
     lastFrameTime := lastFrameTime v;
     lastProcessedFrameTime := lastProcessedFrameTime v;
     isProcessing := isProcessing v |}.

Definition set_processedGifUrl (x : option bytes) (v : Vars) : Vars :=
  {| currentFile := currentFile v; processedGifData := processedGifData v;
     processedGifUrl := x; worker := worker v;
     animationFrameId := animationFrameId v;
     processedAnimationFrameId := processedAnimationFrameId v;
     lastFrameTime := lastFrameTime v;
     lastProcessedFrameTime := lastProcessedFrameTime v;
     isProcessing := isProcessing v |}.

Definition set_worker (x : bool) (v : Vars) : Vars :=
  {| currentFile := currentFile v; processedGifData := processedGifData v;
     processedGifUrl := processedGifUrl v; worker := x;
     animationFrameId := animationFrameId v;
     processedAnimationFrameId := processedAnimationFrameId v;
     lastFrameTime := lastFrameTime v;
     lastProcessedFrameTime := lastProcessedFrameTime v;
     isProcessing := isProcessing v |}.

Definition set_animationFrameId (x : option nat) (v : Vars) : Vars :=
  {| currentFile := currentFile v; processedGifData := processedGifData v;
     processedGifUrl := processedGifUrl v; worker := worker v; animationFrameId := x;
     processedAnimationFrameId := processedAnimationFrameId v;
     lastFrameTime := lastFrameTime v;
     lastProcessedFrameTime := lastProcessedFrameTime v;
     isProcessing := isProcessing v |}.

Definition set_processedAnimationFrameId (x : option nat) (v : Vars) : Vars :=
  {| currentFile := currentFile v; processedGifData := processedGifData v;
     processedGifUrl := processedGifUrl v; worker := worker v;
     animationFrameId := animationFrameId v; processedAnimationFrameId := x;
     lastFrameTime := lastFrameTime v;
     lastProcessedFrameTime := lastProcessedFrameTime v;
     isProcessing := isProcessing v |}.

Definition set_lastFrameTime (x : Q) (v : Vars) : Vars :=
  {| currentFile := currentFile v; processedGifData := processedGifData v;
     processedGifUrl := processedGifUrl v; worker := worker v;
     animationFrameId := animationFrameId v;
     processedAnimationFrameId := processedAnimationFrameId v; lastFrameTime := x;
     lastProcessedFrameTime := lastProcessedFrameTime v;
     isProcessing := isProcessing v |}.

Definition set_lastProcessedFrameTime (x : Q) (v : Vars) : Vars :=
  {| currentFile := currentFile v; processedGifData := processedGifData v;
     processedGifUrl := processedGifUrl v; worker := worker v;
     animationFrameId := animationFrameId v;
     processedAnimationFrameId := processedAnimationFrameId v;
     lastFrameTime := lastFrameTime v; lastProcessedFrameTime := x;
     isProcessing := isProcessing v |}.

Definition set_isProcessing (x : bool) (v : Vars) : Vars :=
  {| currentFile := currentFile v; processedGifData := processedGifData v;
     processedGifUrl := processedGifUrl v; worker := worker v;
     animationFrameId := animationFrameId v;
     processedAnimationFrameId := processedAnimationFrameId v;
     lastFrameTime := lastFrameTime v;
     lastProcessedFrameTime := lastProcessedFrameTime v; isProcessing := x |}.

Definition set_controls (x : Controls) (d : Document) : Document :=
  {| controls := x; preview := preview d; processedPreview := processedPreview d;
     processButton := processButton d;
     downloadButton_disabled := downloadButton_disabled d;
     generatedGif_src := generatedGif_src d;
     generatedGif_hidden := generatedGif_hidden d; fileInfo := fileInfo d;
     alerts := alerts d; console := console d |}.

Definition set_preview (x : Canvas) (d : Document) : Document :=
  {| controls := controls d; preview := x; processedPreview := processedPreview d;
     processButton := processButton d;
     downloadButton_disabled := downloadButton_disabled d;
     generatedGif_src := generatedGif_src d;
     generatedGif_hidden := generatedGif_hidden d; fileInfo := fileInfo d;
     alerts := alerts d; console := console d |}.

Definition set_processedPreview (x : Canvas) (d : Document) : Document :=
  {| controls := controls d; preview := preview d; processedPreview := x;
     processButton := processButton d;
     downloadButton_disabled := downloadButton_disabled d;
     generatedGif_src := generatedGif_src d;
     generatedGif_hidden := generatedGif_hidden d; fileInfo := fileInfo d;
     alerts := alerts d; console := console d |}.

Definition set_processButton (x : Button) (d : Document) : Document :=
  {| controls := controls d; preview := preview d;
     processedPreview := processedPreview d; processButton := x;
     downloadButton_disabled := downloadButton_disabled d;
     generatedGif_src := generatedGif_src d;
     generatedGif_hidden := generatedGif_hidden d; fileInfo := fileInfo d;
     alerts := alerts d; console := console d |}.

Definition set_downloadButton_disabled (x : bool) (d : Document) : Document :=
  {| controls := controls d; preview := preview d;
     processedPreview := processedPreview d; processButton := processButton d;
     downloadButton_disabled := x; generatedGif_src := generatedGif_src d;
     generatedGif_hidden := generatedGif_hidden d; fileInfo := fileInfo d;
     alerts := alerts d; console := console d |}.

Definition set_generatedGif_src (x : option bytes) (d : Document) : Document :=
  {| controls := controls d; preview := preview d;
     processedPreview := processedPreview d; processButton := processButton d;
     downloadButton_disabled := downloadButton_disabled d; generatedGif_src := x;
     generatedGif_hidden := generatedGif_hidden d; fileInfo := fileInfo d;
     alerts := alerts d; console := console d |}.

Definition set_generatedGif_hidden (x : bool) (d : Document) : Document :=
  {| controls := controls d; preview := preview d;
     processedPreview := processedPreview d; processButton := processButton d;
     downloadButton_disabled := downloadButton_disabled d;
     generatedGif_src := generatedGif_src d; generatedGif_hidden := x;
     fileInfo := fileInfo d; alerts := alerts d; console := console d |}.

Definition set_fileInfo (x : FileInfo) (d : Document) : Document :=
  {| controls := controls d; preview := preview d;
     processedPreview := processedPreview d; processButton := processButton d;
     downloadButton_disabled := downloadButton_disabled d;
     generatedGif_src := generatedGif_src d;
     generatedGif_hidden := generatedGif_hidden d; fileInfo := x; alerts := alerts d;
     console := console d |}.

Definition set_alerts (x : list string) (d : Document) : Document :=
  {| controls := controls d; preview := preview d;
     processedPreview := processedPreview d; processButton := processButton d;
     downloadButton_disabled := downloadButton_disabled d;
     generatedGif_src := generatedGif_src d;
     generatedGif_hidden := generatedGif_hidden d; fileInfo := fileInfo d;
     alerts := x; console := console d |}.

Definition set_console (x : list string) (d : Document) : Document :=
  {| controls := controls d; preview := preview d;
     processedPreview := processedPreview d; processButton := processButton d;
     downloadButton_disabled := downloadButton_disabled d;
     generatedGif_src := generatedGif_src d;
     generatedGif_hidden := generatedGif_hidden d; fileInfo := fileInfo d;
     alerts := alerts d; console := x |}.

Definition set_m_realm (x : Realm) (m : Main) : Main :=
  {| m_realm := x; vars := vars m; doc := doc m; requests := requests m;
     next_request := next_request m; m_tasks := m_tasks m; m_outbox := m_outbox m |}.

Definition set_vars (x : Vars) (m : Main) : Main :=
  {| m_realm := m_realm m; vars := x; doc := doc m; requests := requests m;
     next_request := next_request m; m_tasks := m_tasks m; m_outbox := m_outbox m |}.

Definition set_doc (x : Document) (m : Main) : Main :=
  {| m_realm := m_realm m; vars := vars m; doc := x; requests := requests m;
     next_request := next_request m; m_tasks := m_tasks m; m_outbox := m_outbox m |}.

Definition set_requests (x : list (nat * FrameCallback)) (m : Main) : Main :=
  {| m_realm := m_realm m; vars := vars m; doc := doc m; requests := x;
     next_request := next_request m; m_tasks := m_tasks m; m_outbox := m_outbox m |}.

Definition set_next_request (x : nat) (m : Main) : Main :=
  {| m_realm := m_realm m; vars := vars m; doc := doc m; requests := requests m;
     next_request := x; m_tasks := m_tasks m; m_outbox := m_outbox m |}.

Definition set_m_tasks (x : list PageTask) (m : Main) : Main :=
  {| m_realm := m_realm m; vars := vars m; doc := doc m; requests := requests m;
     next_request := next_request m; m_tasks := x; m_outbox := m_outbox m |}.

Definition set_m_outbox (x : list WorkerRequest) (m : Main) : Main :=
  {| m_realm := m_realm m; vars := vars m; doc := doc m; requests := requests m;
     next_request := next_request m; m_tasks := m_tasks m; m_outbox := x |}.

(** [let gifProcessor = new GifProcessor(); let processedGifProcessor = new
    GifProcessor();] after [await init()]. *)
Definition main_objects : loc * loc * Realm :=
  let '(g, r1) := new_object (trace CallInit empty_realm) in
  let '(p, r2) := new_object r1 in
  (g, p, r2).

Definition gifProcessor : loc := fst (fst main_objects).
Definition processedGifProcessor : loc := snd (fst main_objects).

(** The page when [main] has run to its end: listeners registered, nothing
    loaded yet. *)
Definition page_start : Main :=
  {| m_realm := snd main_objects;
     vars := {| currentFile := None; processedGifData := None; processedGifUrl := None;
                worker := false; animationFrameId := None;
                processedAnimationFrameId := None; lastFrameTime := 0%Q;
                lastProcessedFrameTime := 0%Q; isProcessing := false |};
     doc := {| controls := {| captionText := ""; fontFamily := "Arial"; fontSize := "24";
                              positionX := "50"; positionY := "50" |};
               preview := {| canvas_width := 300; canvas_height := 150;
                             class_hidden := true; style_display_none := false |};
               processedPreview := {| canvas_width := 300; canvas_height := 150;
                                      class_hidden := true; style_display_none := true |};
               processButton := {| disabled := false; textContent := "Process GIF" |};
               downloadButton_disabled := true;
               generatedGif_src := None;
               generatedGif_hidden := true;
               fileInfo := NoFileInfo;
               alerts := [];
               console := [] |};
     requests := [];
     next_request := 1;
     m_tasks := [];
     m_outbox := [] |}.

(** *** Lifting to the state of the page *)

Definition in_realm {A} (m : JS Realm A) : JS Main A :=
  fun s => let '(a, r) := m (m_realm s) in (a, set_m_realm r s).

Definition var {A} (f : Vars -> A) : JS Main A := gets (fun s => f (vars s)).

Definition assign (f : Vars -> Vars) : JS Main unit :=
  modify (fun s => set_vars (f (vars s)) s).

Definition element {A} (f : Document -> A) : JS Main A := gets (fun s => f (doc s)).

Definition write (f : Document -> Document) : JS Main unit :=
  modify (fun s => set_doc (f (doc s)) s).

(** A truthy handle: [requestAnimationFrame] returns integers above zero. *)
Definition truthy (id : option nat) : bool :=
  match id with
  | Some (S _) => true
  | _ => false
  end.

Definition requestAnimationFrame (cb : FrameCallback) : JS Main (option nat) :=
  fun s =>
    (Normal (Some (next_request s)),
     set_next_request (S (next_request s))
       (set_requests (requests s ++ [(next_request s, cb)]) s)).

Definition cancel_request (h : nat) (rs : list (nat * FrameCallback)) :
    list (nat * FrameCallback) :=
  List.filter (fun r => negb (Nat.eqb (fst r) h)) rs.

Definition cancelAnimationFrame (id : option nat) : JS Main unit :=
  modify (fun s =>
    match id with
    | Some h => set_requests (cancel_request h (requests s)) s
    | None => s
    end).

Definition alert (msg : string) : JS Main unit :=
  write (fun d => set_alerts (alerts d ++ [msg]) d).

Definition console_error (msg : string) : JS Main unit :=
  write (fun d => set_console (console d ++ [msg]) d).

Definition worker_postMessage (m : WorkerRequest) : JS Main unit :=
  modify (fun s => set_m_outbox (m_outbox s ++ [m]) s).

End PageState.

(** ** index.html: the functions and listeners of [main] *)

Section PageScript.
Context {E : Engine}.

(** [stopAnimation] is declared by the script and called nowhere. *)
Definition stopAnimation : JS Main unit :=
  id <- var animationFrameId ;;
  when (truthy id)
    (cancelAnimationFrame id ;;; assign (set_animationFrameId None)) ;;;
  pid <- var processedAnimationFrameId ;;
  when (truthy pid)
    (cancelAnimationFrame pid ;;; assign (set_processedAnimationFrameId None)) ;;;
  assign (set_lastFrameTime 0%Q) ;;;
  assign (set_lastProcessedFrameTime 0%Q).

Definition startAnimation : JS Main unit :=
  busy <- var isProcessing ;;
  if busy then ret tt
  else
    id <- var animationFrameId ;;
    when (truthy id) (cancelAnimationFrame id) ;;;
    pid <- var processedAnimationFrameId ;;
    when (truthy pid) (cancelAnimationFrame pid) ;;;
    id' <- requestAnimationFrame animate_callback ;;
    assign (set_animationFrameId id') ;;;
    pid' <- requestAnimationFrame animateProcessed_callback ;;
    assign (set_processedAnimationFrameId pid').

Definition updatePreview : JS Main unit :=
  c <- element controls ;;
  let text := captionText c in
  if String.eqb text "" then ret tt
  else
    dimensions <- in_realm (invoke_getter "get_dimensions" CallGetDimensions
                              (fun p => inr (get_dimensions p)) (Some gifProcessor)) ;;
    pv <- element preview ;;
    let scale := num_div (num_of_Z (width dimensions)) (num_of_Z (canvas_width pv)) in
    let previewFontSize := num_div (parseFloat (fontSize c)) scale in
    let x := num_mul (num_div (parseFloat (positionX c)) (num_of_Z 100))
               (num_of_Z (canvas_width pv)) in
    let y := num_mul (num_div (parseFloat (positionY c)) (num_of_Z 100))
               (num_of_Z (canvas_height pv)) in
    try_catch
      (in_realm (invoke "add_caption" CallAddCaption
                   (fun p => add_caption p text x y previewFontSize (fontFamily c))
                   (Some gifProcessor)))
      (fun err => console_error ("Error updating preview: " ++ Exn_toString err)).

(** [elapsed > frameDelay], with [frameDelay] the delay in centiseconds times
    ten.  Timestamps are exact rationals here, and so is their difference,
    which the script rounds to a double: where the exact difference exceeds
    the delay by less than the rounding, the script finds the frame not yet
    due.  What is stated of a tick below holds on either side of the
    comparison, or follows from the calls the tick has made. *)
Definition exceeds (elapsed : Q) (delay : Z) : bool :=
  negb (Qle_bool elapsed (inject_Z delay * 10)%Q).

(** [animate(timestamp)], the callback of the preview. *)
Definition animate (timestamp : Q) : JS Main unit :=
  last <- var lastFrameTime ;;
  when (Qeq_bool last 0) (assign (set_lastFrameTime timestamp)) ;;;
  last <- var lastFrameTime ;;
  let elapsed := (timestamp - last)%Q in
  delay <- in_realm (invoke_getter "get_frame_delay" CallGetFrameDelay
                       (fun p => inr (get_frame_delay p)) (Some gifProcessor)) ;;
  when (exceeds elapsed delay)
    (in_realm (invoke "render_current_frame" CallRender render_current_frame
                 (Some gifProcessor)) ;;;
     updatePreview ;;;
     in_realm (invoke "next_frame" CallNextFrame (fun p => (next_frame p, inr tt))
                 (Some gifProcessor)) ;;;
     assign (set_lastFrameTime timestamp)) ;;;
  id <- requestAnimationFrame animate_callback ;;
  assign (set_animationFrameId id).

(** [animateProcessed(timestamp)], the callback of the processed preview. *)
Definition animateProcessed (timestamp : Q) : JS Main unit :=
  last <- var lastProcessedFrameTime ;;
  when (Qeq_bool last 0) (assign (set_lastProcessedFrameTime timestamp)) ;;;
  last <- var lastProcessedFrameTime ;;
  let elapsed := (timestamp - last)%Q in
  delay <- in_realm (invoke_getter "get_frame_delay" CallGetFrameDelay
                       (fun p => inr (get_frame_delay p)) (Some processedGifProcessor)) ;;
  data <- var processedGifData ;;
  when (exceeds elapsed delay && bool_decide (is_Some data))
    (in_realm (invoke "render_current_frame" CallRender render_current_frame
                 (Some processedGifProcessor)) ;;;
     in_realm (invoke "next_frame" CallNextFrame (fun p => (next_frame p, inr tt))
                 (Some processedGifProcessor)) ;;;
     assign (set_lastProcessedFrameTime timestamp)) ;;;
  id <- requestAnimationFrame animateProcessed_callback ;;
  assign (set_processedAnimationFrameId id).

(** [handleFile(file)] up to [await file.arrayBuffer()]. *)
Definition handleFile (file : File) : JS Main unit :=
  assign (set_currentFile (Some file)) ;;;
  write (set_fileInfo (SelectedFile file)) ;;;
  modify (fun s => set_m_tasks (m_tasks s ++ [HandleFileReading file]) s).

(** [c.width = w; c.height = h; c.classList.remove('hidden')]: the inline
    style of the canvas stays as it is. *)
Definition resized (w h : Z) (c : Canvas) : Canvas :=
  {| canvas_width := w; canvas_height := h; class_hidden := false;
     style_display_none := style_display_none c |}.

(** [handleFile] after its [await], with the bytes read. *)
Definition handleFile_read (uint8Array : bytes) : JS Main unit :=
  try_catch
    (in_realm (invoke "process_gif" (fun l => CallProcessGif l uint8Array)
                 (fun p => process_gif p uint8Array) (Some gifProcessor)) ;;;
     dimensions <- in_realm (invoke_getter "get_dimensions" CallGetDimensions
                               (fun p => inr (get_dimensions p)) (Some gifProcessor)) ;;
     write (fun d => set_preview (resized (width dimensions) (height dimensions) (preview d)) d) ;;;
     write (fun d => set_processedPreview
                       (resized (width dimensions) (height dimensions) (processedPreview d)) d) ;;;
     startAnimation)
    (fun err =>
       console_error ("Error processing GIF: " ++ Exn_toString err) ;;;
       write (set_fileInfo FailedToProcess)).

(** [initWorker()]: the Worker is created on the first call, and its
    [onmessage] is set to [worker_onmessage] below. *)
Definition initWorker : JS Main unit :=
  w <- var worker ;;
  when (negb w) (assign (set_worker true)).

(** [worker.onmessage], the listener [initWorker] installs. *)
Definition worker_onmessage (m : WorkerReply) : JS Main unit :=
  match m with
  | gif_processed data =>
      assign (set_processedGifData (Some data)) ;;;
      in_realm (invoke "process_gif" (fun l => CallProcessGif l data)
                  (fun p => process_gif p data) (Some processedGifProcessor)) ;;;
      assign (set_processedGifUrl (Some data)) ;;;
      write (set_generatedGif_src (Some data)) ;;;
      write (set_generatedGif_hidden false) ;;;
      write (set_downloadButton_disabled false) ;;;
      write (set_processButton {| disabled := false; textContent := "Process GIF" |}) ;;;
      assign (set_isProcessing false) ;;;
      startAnimation
  | error err =>
      console_error ("Worker error: " ++ err) ;;;
      alert "Error processing GIF. Please try again." ;;;
      write (set_processButton {| disabled := false; textContent := "Process GIF" |}) ;;;
      assign (set_isProcessing false) ;;;
      startAnimation
  end.

(** The [catch] block of the click listener. *)
Definition click_catch (err : Exn) : JS Main unit :=
  console_error ("Error processing GIF: " ++ Exn_toString err) ;;;
  alert "Error processing GIF. Please try again." ;;;
  assign (set_isProcessing false) ;;;
  startAnimation.

(** The call [gifProcessor.prepare_text_overlay(text, x, y, fontSize,
    fontFamily)] of the click listener, its arguments read from the controls
    and the preview canvas. *)
Definition prepare_from_controls (d : Document) (p : Proc) : Proc * (Error + TextData) :=
  let c := controls d in
  let pv := preview d in
  let text := captionText c in
  let size := parseInt (fontSize c) in
  let x := num_mul (num_div (parseInt (positionX c)) (num_of_Z 100))
             (num_of_Z (canvas_width pv)) in
  let y := num_mul (num_div (parseInt (positionY c)) (num_of_Z 100))
             (num_of_Z (canvas_height pv)) in
  prepare_text_overlay p text x y size (fontFamily c).

(** The click listener of [processButton], up to
    [await currentFile.arrayBuffer()]. *)
Definition processButton_click : JS Main unit :=
  file <- var currentFile ;;
  busy <- var isProcessing ;;
  match file with
  | None => ret tt
  | Some file =>
      if busy then ret tt
      else
        try_catch
          (assign (set_isProcessing true) ;;;
           write (set_processButton {| disabled := true; textContent := "Processing..." |}) ;;;
           d <- gets doc ;;
           initWorker ;;;
           textOverlay <- in_realm
             (invoke "prepare_text_overlay" CallPrepare
                (prepare_from_controls d) (Some gifProcessor)) ;;
           modify (fun s => set_m_tasks (m_tasks s ++ [ClickReading file textOverlay]) s))
          click_catch
  end.

(** The click listener after its [await]: with the bytes read it posts the
    request; a rejected read lands in the [catch] block. *)
Definition processButton_click_read (read : completion bytes) (textOverlay : TextData) :
    JS Main unit :=
  try_catch
    (match read with
     | Throw x => throw x
     | Normal gifData =>
         w <- var worker ;;
         if w then
           worker_postMessage {| req_type := "process_gif"; req_gifData := gifData;
                                 req_textData := textOverlay |}
         else throw (TypeError "null.postMessage")
     end)
    click_catch.

(** The listener that resets the download button, on [input] of every control. *)
Definition reset_download : JS Main unit :=
  write (set_generatedGif_hidden true) ;;;
  write (set_downloadButton_disabled true) ;;;
  url <- var processedGifUrl ;;
  when (bool_decide (is_Some url)) (assign (set_processedGifUrl None)).

Definition set_control (which : Control) (value : string) (c : Controls) : Controls :=
  match which with
  | captionText_control =>
      {| captionText := value; fontFamily := fontFamily c; fontSize := fontSize c;
         positionX := positionX c; positionY := positionY c |}
  | fontFamily_control =>
      {| captionText := captionText c; fontFamily := value; fontSize := fontSize c;
         positionX := positionX c; positionY := positionY c |}
  | fontSize_control =>
      {| captionText := captionText c; fontFamily := fontFamily c; fontSize := value;
         positionX := positionX c; positionY := positionY c |}
  | positionX_control =>
      {| captionText := captionText c; fontFamily := fontFamily c; fontSize := fontSize c;
         positionX := value; positionY := positionY c |}
  | positionY_control =>
      {| captionText := captionText c; fontFamily := fontFamily c; fontSize := fontSize c;
         positionX := positionX c; positionY := value |}
  end.

(** The user edits a control.  The text, number and range inputs fire [input]:
    [updatePreview], then the reset.  The select fires [input], the reset, and
    then [change], [updatePreview]. *)
Definition control_edited (which : Control) (value : string) : JS Main unit :=
  write (fun d => set_controls (set_control which value (controls d)) d) ;;;
  match which with
  | fontFamily_control => reset_download ;;; updatePreview
  | _ => updatePreview ;;; reset_download
  end.

End PageScript.

(** ** The event loops

    One event is handled to its end, or to its next suspension, before the
    event loop of the same context takes another.  The page and the worker are
    two contexts; what one posts, the other receives later, in order. *)

Section EventLoops.
Context {E : Engine}.

Inductive PageEvent : Type :=
| FileChosen (file : File)               (* [drop] of a GIF, or [change] of the file input *)
| WindowResize
| ReadSettled (i : nat) (fulfilled : bool) (* the [arrayBuffer()] task [i] awaits *)
| AnimationFrame (h : nat) (timestamp : Q)
| ControlEdited (which : Control) (value : string)
| ProcessClick
| DownloadClick.

Definition find_request (h : nat) (rs : list (nat * FrameCallback)) : option FrameCallback :=
  snd <$> List.find (fun r => Nat.eqb (fst r) h) rs.

Definition page_step (ev : PageEvent) (s : Main) : Main :=
  match ev with
  | FileChosen file => exec (handleFile file) s
  | WindowResize =>
      match currentFile (vars s) with
      | Some file => exec (handleFile file) s
      | None => s
      end
  | ReadSettled i fulfilled =>
      match m_tasks s !! i with
      | Some (HandleFileReading file) =>
          let s' := set_m_tasks (delete i (m_tasks s)) s in
          if fulfilled then exec (handleFile_read (file_data file)) s' else s'
      | Some (ClickReading file textOverlay) =>
          let read := if fulfilled then Normal (file_data file)
                      else Throw (Rejected "NotReadableError") in
          exec (processButton_click_read read textOverlay)
            (set_m_tasks (delete i (m_tasks s)) s)
      | None => s
      end
  | AnimationFrame h timestamp =>
      match find_request h (requests s) with
      | Some animate_callback =>
          exec (animate timestamp) (set_requests (cancel_request h (requests s)) s)
      | Some animateProcessed_callback =>
          exec (animateProcessed timestamp) (set_requests (cancel_request h (requests s)) s)
      | None => s
      end
  | ControlEdited which value => exec (control_edited which value) s
  | ProcessClick => exec processButton_click s
  | DownloadClick => s   (* builds a link and clicks it; no variable is written *)
  end.

Record System : Type := {
  page : Main;
  (** the Worker of the page, once [initWorker] has created it *)
  the_worker : option Worker;
}.

Definition system_start : System := {| page := page_start; the_worker := None |}.

Inductive SystemEvent : Type :=
| OnPage (ev : PageEvent)
| ToWorker                                   (* the worker takes the oldest request *)
| InWorker_InitSettled (i : nat) (fulfilled : bool)
| InWorker_Resume (i : nat)
| ToPage.                                    (* the page takes the oldest reply *)

Definition w_set_outbox (ms : list WorkerReply) (w : Worker) : Worker :=
  {| w_realm := w_realm w; w_gifProcessor := w_gifProcessor w;
     w_tasks := w_tasks w; w_outbox := ms |}.

Definition system_step (ev : SystemEvent) (s : System) : System :=
  match ev with
  | OnPage pev =>
      let p := page_step pev (page s) in
      {| page := p;
         the_worker :=
           match the_worker s with
           | Some w => Some w
           | None => if worker (vars p) then Some worker_start else None
           end |}
  | ToWorker =>
      match the_worker s, m_outbox (page s) with
      | Some w, e :: rest =>
          {| page := set_m_outbox rest (page s); the_worker := Some (deliver e w) |}
      | _, _ => s
      end
  | InWorker_InitSettled i fulfilled =>
      {| page := page s; the_worker := init_settled i fulfilled <$> the_worker s |}
  | InWorker_Resume i =>
      {| page := page s; the_worker := resume i <$> the_worker s |}
  | ToPage =>
      match the_worker s with
      | Some w =>
          match w_outbox w with
          | m :: rest =>
              {| page := exec (worker_onmessage m) (page s);
                 the_worker := Some (w_set_outbox rest w) |}
          | [] => s
          end
      | None => s
      end
  end.

Definition system_run (evs : list SystemEvent) (s : System) : System :=
  fold_left (fun s ev => system_step ev s) evs s.

Definition reachable (s : System) : Prop :=
  exists evs, s = system_run evs system_start.

(** Exports under way: requests queued or being handled, replies queued, and
    click listeners that have not posted yet. *)
Definition is_click_task (t : PageTask) : bool :=
  match t with
  | ClickReading _ _ => true
  | HandleFileReading _ => false
  end.

Definition in_flight (s : System) : nat :=
  length (List.filter is_click_task (m_tasks (page s)))
  + length (m_outbox (page s))
  + match the_worker s with
    | Some w => length (w_tasks w) + length (w_outbox w)
    | None => 0
    end.

End EventLoops.

(** ** The engine as the specification describes it

    The Rust crate behind [GifProcessor] is not among the sources.  Where a
    property depends on what the engine does, the engine is the one of the
    specification: a cursor over one decoded document (section 4.7), loaded by
    [load] and exported by the batch pipeline (section 6).  The decoder and
    the pipeline themselves stay parameters. *)

Section SpecEngine.

Variables (Document CaptionSpec ProcessingError Number : Type).
Variable decode : bytes -> ProcessingError + Document.
Variable caption_and_encode : Document -> CaptionSpec -> ProcessingError + bytes.
Variable prepare_caption : string -> Number -> Number -> Number -> string -> CaptionSpec.
Variable dimensions : Document -> Dimensions.
(** the delay of every frame, in centiseconds *)
Variable delays : Document -> list Z.
Variable no_document : ProcessingError.
Variable describe : ProcessingError -> string.
Variables (parse_int parse_float : string -> Number) (number_of_Z : Z -> Number).
Variables (divide multiply : Number -> Number -> Number).

(** Modelled from the spec: the states of the animation cursor, "Idle (no
    document)" and "Ready(index)" over the document that was loaded. *)
Inductive Cursor : Type :=
| Idle
| Ready (d : Document) (index : nat).

(** Modelled from the spec: "a new load call always resets to Ready(0) (or Idle
    on failure), discarding prior cursor state". *)
Definition load (c : Cursor) (data : bytes) : Cursor * (ProcessingError + unit) :=
  match decode data with
  | inr d => (Ready d 0, inr tt)
  | inl e => (Idle, inl e)
  end.

(** Modelled from the spec: "Ready(k) -> next_frame() -> Ready((k+1) mod N)". *)
Definition advance (c : Cursor) : Cursor :=
  match c with
  | Idle => Idle
  | Ready d k => Ready d ((k + 1) mod length (delays d))
  end.

(** Modelled from the spec: the batch pipeline over the loaded document.  The
    document is "immutable thereafter except when producing an edited copy for
    export", so the cursor stays as it is.  What an export without a document
    returns is left open by the specification; it is an error here. *)
Definition export_loaded (c : Cursor) (caption : CaptionSpec) :
    Cursor * (ProcessingError + bytes) :=
  match c with
  | Idle => (Idle, inl no_document)
  | Ready d k => (Ready d k, caption_and_encode d caption)
  end.

(** Modelled from the spec: "export_with_caption(bytes, CaptionSpec) ->
    Result<bytes, ProcessingError>", the data flow "bytes -> Decoder ->
    Document -> ... -> Encoder -> bytes" as one operation. *)
Definition export_with_caption (data : bytes) (caption : CaptionSpec) :
    ProcessingError + bytes :=
  match decode data with
  | inl e => inl e
  | inr d => caption_and_encode d caption
  end.

(** Modelled from the spec: "get_frame_delay() (centiseconds for the current
    frame)".  Without a document the delay is zero. *)
Definition current_delay (c : Cursor) : Z :=
  match c with
  | Idle => 0
  | Ready d k => nth k (delays d) 0%Z
  end.

Definition current_dimensions (c : Cursor) : Dimensions :=
  match c with
  | Idle => {| width := 0; height := 0 |}
  | Ready d _ => dimensions d
  end.

(** Modelled from the spec: the operation surface of section 6 behind the
    method names of [GifProcessor].  Rendering and the preview overlay draw on
    a surface that is not modelled, and are total here. *)
Definition spec_engine : Engine :=
  {| Proc := Cursor;
     TextData := CaptionSpec;
     Num := Number;
     parseInt := parse_int;
     parseFloat := parse_float;
     num_of_Z := number_of_Z;
     num_div := divide;
     num_mul := multiply;
     Error := ProcessingError;
     toString := describe;
     new_GifProcessor := Idle;
     process_gif := load;
     process_all_frames_with_text_data := export_loaded;
     prepare_text_overlay := fun c text x y size font =>
                               (c, inr (prepare_caption text x y size font));
     get_dimensions := current_dimensions;
     get_frame_delay := current_delay;
     render_current_frame := fun c => (c, inr tt);
     next_frame := advance;
     add_caption := fun c _ _ _ _ _ => (c, inr tt) |}.

(** The message that carries a result of the export across the boundary. *)
Definition reply_of (r : ProcessingError + bytes) : @WorkerReply :=
  match r with
  | inr data => gif_processed data
  | inl e => error (describe e)
  end.

End SpecEngine.

(** ** A small engine to run the scripts on

    A document is the list of its frames' delays, one byte each; an empty
    file does not decode; the export appends the caption's length. *)

Definition toy_decode (data : bytes) : string + bytes :=
  match data with
  | [] => inl "MalformedHeader"
  | _ => inr data
  end.

Definition toy_export (d : bytes) (caption : string) : string + bytes :=
  if String.eqb caption "" then inl "empty caption"
  else inr (d ++ [x2a]%byte).

Definition toy_engine : Engine :=
  spec_engine bytes string string Z
    toy_decode toy_export
    (fun text _ _ _ _ => text)
    (fun d => {| width := 4; height := 4 |})
    (fun d => map (fun b => Z.of_N (Byte.to_N b)) d)
    "no document" (fun e => e)
    (fun _ => 0%Z) (fun _ => 0%Z) (fun z => z) Z.div Z.mul.

Definition toy_file : File :=
  {| file_name := "a.gif"; file_type := "image/gif"; file_data := [x05; x0a]%byte |}.

Definition toy_request : @WorkerRequest toy_engine :=
  @Build_WorkerRequest toy_engine "process_gif" [x05; x0a]%byte "HELLO".

(** ** Vocabulary of the properties *)

Section Vocabulary.
Context {E : Engine}.

(** What the two engine calls of the worker make of a processor and a request:
    the processor afterwards, the calls observed and the message to post. *)
Definition export_outcome (l : loc) (p : Proc) (e : WorkerRequest) :
    Proc * list Call * WorkerReply :=
  match process_gif p (req_gifData e) with
  | (p1, inl err) => (p1, [CallProcessGif l (req_gifData e)], error (toString err))
  | (p1, inr _) =>
      match process_all_frames_with_text_data p1 (req_textData e) with
      | (p2, inl err) =>
          (p2, [CallProcessGif l (req_gifData e); CallProcessAll l (req_textData e)],
           error (toString err))
      | (p2, inr result) =>
          (p2, [CallProcessGif l (req_gifData e); CallProcessAll l (req_textData e)],
           gif_processed result)
      end
  end.

(** A call of the export protocol on the object [l]. *)
Definition export_call_on (l : loc) (c : Call) : Prop :=
  match c with
  | CallProcessGif l' _ => l' = l
  | CallProcessAll l' _ => l' = l
  | _ => False
  end.

(** A call on a reference that names an object. *)
Definition on_an_object (c : Call) : Prop :=
  match c with
  | CallOnNull _ => False
  | _ => True
  end.

(** A call that the page makes: anything but the batch pipeline. *)
Definition page_call (c : Call) : Prop :=
  match c with
  | CallProcessAll _ _ => False
  | _ => True
  end.

Definition page_calls_ok (s : Main) : Prop := Forall page_call (calls (m_realm s)).

Definition awaits_init (t : WorkerTask) : bool :=
  match t with
  | AwaitInit _ => true
  | AwaitInitWasm _ => false
  end.

(** The call trace of a worker that has initialised its engine at most once,
    on its first message, and has handled every message on that engine:
    nothing yet; or [init()] alone, pending or failed; or [init()], one [new
    GifProcessor()], and then only calls on that object. *)
Inductive initialised_once (w : Worker) : Prop :=
| no_message_yet :
    calls (w_realm w) = [] -> w_gifProcessor w = None -> initialised_once w
| init_called :
    calls (w_realm w) = [CallInit] -> w_gifProcessor w = None -> initialised_once w
| init_done l rest :
    calls (w_realm w) = CallInit :: CallNew l :: rest ->
    w_gifProcessor w = Some l ->
    Forall (export_call_on l) rest ->
    initialised_once w.

(** [if (id) cancelAnimationFrame(id)] on the pending requests. *)
Definition cancel_truthy (id : option nat) (rs : list (nat * FrameCallback)) :
    list (nat * FrameCallback) :=
  match id with
  | Some (S h) => cancel_request (S h) rs
  | _ => rs
  end.

(** The pending requests once [startAnimation] has run with [isProcessing]
    false: the two it held handles of are cancelled, two new ones follow. *)
Definition restarted (s : Main) : list (nat * FrameCallback) :=
  cancel_truthy (processedAnimationFrameId (vars s))
    (cancel_truthy (animationFrameId (vars s)) (requests s))
  ++ [(next_request s, animate_callback); (S (next_request s), animateProcessed_callback)].

(** The part of the page's state that the export protocol reads and writes. *)
Definition export_vars (s : Main) : bool * list PageTask * list WorkerRequest :=
  (isProcessing (vars s), m_tasks s, m_outbox s).

(** The exports the page itself holds: click listeners that have not posted
    yet, and requests it has posted that the worker has not taken. *)
Definition page_in_flight (s : Main) : nat :=
  length (List.filter is_click_task (m_tasks s)) + length (m_outbox s).

(** The time [animate] measures from: the time of the last advance, or, when
    none is recorded, the time of the tick itself. *)
Definition reference_time (last timestamp : Q) : Q :=
  if Qeq_bool last 0 then timestamp else last.

(** The calls made between two states of one realm. *)
Definition calls_since (before after : Realm) : list Call :=
  drop (length (calls before)) (calls after).

(** An event of the export: the click and what follows from it, on the page
    and in the worker. *)
Definition is_export_event (s : System) (ev : SystemEvent) : bool :=
  match ev with
  | OnPage ProcessClick => true
  | OnPage (ReadSettled i _) =>
      match m_tasks (page s) !! i with
      | Some (ClickReading _ _) => true
      | _ => false
      end
  | OnPage _ => false
  | ToWorker => true
  | InWorker_InitSettled _ _ => true
  | InWorker_Resume _ => true
  | ToPage => true
  end.

Definition is_worker_event (ev : SystemEvent) : bool :=
  match ev with
  | ToWorker => true
  | InWorker_InitSettled _ _ => true
  | InWorker_Resume _ => true
  | _ => false
  end.

End Vocabulary.

(** ** The invariant of the page and its worker *)

Section Invariant.
Context {E : Engine}.

(** Where the worker stands, seen from the page [p]. *)
Inductive worker_phase (p : Main) (w : Worker) : Prop :=
| phase_fresh :
    calls (w_realm w) = [] -> heap (w_realm w) = [] -> w_gifProcessor w = None ->
    w_tasks w = [] -> w_outbox w = [] ->
    worker_phase p w
| phase_initialising e :
    calls (w_realm w) = [CallInit] -> heap (w_realm w) = [] -> w_gifProcessor w = None ->
    w_tasks w = [AwaitInit e] -> w_outbox w = [] ->
    worker_phase p w
| phase_failed :
    calls (w_realm w) = [CallInit] -> heap (w_realm w) = [] -> w_gifProcessor w = None ->
    w_tasks w = [] -> w_outbox w = [] ->
    isProcessing (vars p) = true -> page_in_flight p = 0 ->
    worker_phase p w
| phase_ready l rest :
    calls (w_realm w) = CallInit :: CallNew l :: rest ->
    Forall (export_call_on l) rest ->
    w_gifProcessor w = Some l ->
    is_Some (heap (w_realm w) !! l) ->
    Forall (fun t => awaits_init t = false) (w_tasks w) ->
    worker_phase p w.

Record system_invariant (s : System) : Prop := {
  inv_flight : in_flight s <= 1;
  inv_idle : isProcessing (vars (page s)) = false -> in_flight s = 0;
  inv_phase : forall w, the_worker s = Some w -> worker_phase (page s) w;
  inv_calls : page_calls_ok (page s);
}.

(** How one event of the page moves its share of the exports in flight. *)
Inductive flight_effect (p p' : Main) : Prop :=
| flight_same :
    isProcessing (vars p') = isProcessing (vars p) ->
    page_in_flight p' = page_in_flight p ->
    flight_effect p p'
| flight_started :
    isProcessing (vars p) = false -> isProcessing (vars p') = true ->
    page_in_flight p' = S (page_in_flight p) ->
    flight_effect p p'
| flight_dropped :
    isProcessing (vars p') = false ->
    S (page_in_flight p') = page_in_flight p ->
    flight_effect p p'.

End Invariant.

Section Effects.
Context {E : Engine}.

(** What a click on the process button does, case by case. *)
Inductive click_effect (s s' : Main) : Prop :=
| click_ignored :
    currentFile (vars s) = None \/ isProcessing (vars s) = true ->
    s' = s -> click_effect s s'
| click_suspended file p p' t :
    currentFile (vars s) = Some file ->
    isProcessing (vars s) = false ->
    heap (m_realm s) !! gifProcessor = Some p ->
    prepare_from_controls (doc s) p = (p', inr t) ->
    heap (m_realm s') = <[gifProcessor := p']> (heap (m_realm s)) ->
    isProcessing (vars s') = true ->
    m_tasks s' = m_tasks s ++ [ClickReading file t] ->
    requests s' = requests s ->
    animationFrameId (vars s') = animationFrameId (vars s) ->
    worker (vars s') = true ->
    calls (m_realm s') = calls (m_realm s) ++ [CallPrepare gifProcessor] ->
    click_effect s s'
| click_failed_prepare p p' err :
    isProcessing (vars s) = false ->
    heap (m_realm s) !! gifProcessor = Some p ->
    prepare_from_controls (doc s) p = (p', inl err) ->
    heap (m_realm s') = <[gifProcessor := p']> (heap (m_realm s)) ->
    isProcessing (vars s') = false ->
    m_tasks s' = m_tasks s ->
    calls (m_realm s') = calls (m_realm s) ++ [CallPrepare gifProcessor] ->
    click_effect s s'
| click_failed_null :
    isProcessing (vars s) = false ->
    heap (m_realm s) !! gifProcessor = None ->
    heap (m_realm s') = heap (m_realm s) ->
    isProcessing (vars s') = false ->
    m_tasks s' = m_tasks s ->
    calls (m_realm s') = calls (m_realm s) ++ [CallOnNull "prepare_text_overlay"] ->
    click_effect s s'.

(** What the click listener does once the file is read, case by case. *)
Inductive click_read_effect (t : TextData) (s s' : Main) : Prop :=
| click_posted gifData :
    s' = set_m_outbox (m_outbox s ++ [{| req_type := "process_gif"; req_gifData := gifData;
                                          req_textData := t |}]) s ->
    click_read_effect t s s'
| click_read_failed :
    isProcessing (vars s') = false ->
    m_tasks s' = m_tasks s ->
    m_outbox s' = m_outbox s ->
    m_realm s' = m_realm s ->
    click_read_effect t s s'.

(** What holds of the worker whatever it receives and however its handlers
    interleave. *)
Record worker_sound (w : Worker) : Prop := {
  ws_object : forall l, w_gifProcessor w = Some l -> is_Some (heap (w_realm w) !! l);
  ws_tasks : w_gifProcessor w = None -> Forall (fun t => awaits_init t = true) (w_tasks w);
  ws_calls : Forall on_an_object (calls (w_realm w));
}.

End Effects.

(** ** States of the small engine's page, for the examples *)

Definition toy_loaded : @System toy_engine :=
  system_run
    [OnPage (FileChosen toy_file); OnPage (ReadSettled 0 true);
     OnPage (ControlEdited captionText_control "HELLO")]
    system_start.

(** The export is under way: the request is posted and not yet taken. *)
Definition toy_exporting : @System toy_engine :=
  system_run [OnPage ProcessClick; OnPage (ReadSettled 0 true)] toy_loaded.

(** The worker has initialised its engine and answered. *)
Definition toy_answered : @System toy_engine :=
  system_run [ToWorker; InWorker_InitSettled 0 true; InWorker_Resume 0] toy_exporting.

Definition toy_worker : @Worker toy_engine :=
  @worker_run toy_engine [Deliver toy_request; InitSettled 0 true] worker_start.

Section MoreVocabulary.
Context {E : Engine}.

(** A call that the worker makes: initialisation and the export protocol. *)
Definition worker_call (c : Call) : Prop :=
  match c with
  | CallInit | CallNew _ | CallProcessGif _ _ | CallProcessAll _ _ => True
  | _ => False
  end.


End MoreVocabulary.

(** * The LZW codec of the specification

    The codec lives in the Rust crate, which is not among the sources.  It is
    modelled here from section 4.2 of the specification: indexed pixels are
    natural numbers, the dictionary is the list of its strings in code order,
    codes are packed least-significant-bit-first into bytes, and bytes into
    data sub-blocks of at most 255 bytes closed by an empty one.  So that
    [lzw_decode] needs nothing but the encoder's output, the stream starts
    with one byte that holds the colour depth, as a GIF image does. *)

Module Lzw.

(** Modelled from the spec: "resets the dictionary at 4096 entries". *)
Definition MAX_ENTRIES : nat := 4096.

(** Modelled from the spec: the code width grows "up to 12 bits". *)
Definition MAX_WIDTH : nat := 12.

(** Modelled from the spec: the colour depth of an image over [N] symbols, the
    least number of bits, and at least one, that tells [N] symbols apart. *)
Definition color_depth (N : nat) : nat := Nat.max 1 (Nat.log2_up N).

(** Modelled from the spec: "reserves a Clear code and an End-of-Information
    code", the two codes after the [2^depth] symbols. *)
Definition clear_code (depth : nat) : nat := 2 ^ depth.
Definition eoi_code (depth : nat) : nat := S (2 ^ depth).

(** Modelled from the spec: the dictionary after a reset, one string per
    symbol; the two reserved codes hold the empty string, which no pixel
    sequence matches. *)
Definition initial_dictionary (depth : nat) : list (list nat) :=
  map (fun s => [s]) (seq 0 (2 ^ depth)) ++ [[]; []].

(** Modelled from the spec: the width of a code written when the dictionary
    has [size] entries, "growing code width as the dictionary crosses powers
    of two", "from color-depth+1 bits up to 12 bits". *)
Definition code_width (depth size : nat) : nat :=
  Nat.min MAX_WIDTH (Nat.max (S depth) (Nat.log2_up size)).

(** The code of a string: its first position in the dictionary. *)
Fixpoint index_of (w : list nat) (dict : list (list nat)) : option nat :=
  match dict with
  | [] => None
  | entry :: rest =>
      if decide (entry = w) then Some 0 else S <$> index_of w rest
  end.

(** Modelled from the spec: the encoder "emits the code for the longest known
    prefix match, adds the next symbol as a new dictionary entry, resets the
    dictionary at 4096 entries ... by emitting Clear, and flushes a final code
    plus End-of-Information".  [w] is the prefix matched so far; the result is
    the codes in order, each with the width it is written in.  A pixel that is
    no symbol of the dictionary has no code: [None]. *)
Fixpoint encode_from (depth : nat) (dict : list (list nat)) (w : list nat)
    (pixels : list nat) : option (list (nat * nat)) :=
  match pixels with
  | [] =>
      match w with
      | [] => Some [(code_width depth (length dict), eoi_code depth)]
      | _ =>
          c ← index_of w dict;
          Some [(code_width depth (length dict), c);
                (code_width depth (S (length dict)), eoi_code depth)]
      end
  | x :: rest =>
      match w with
      | [] => encode_from depth dict [x] rest
      | _ =>
          match index_of (w ++ [x]) dict with
          | Some _ => encode_from depth dict (w ++ [x]) rest
          | None =>
              c ← index_of w dict;
              if decide (S (length dict) = MAX_ENTRIES) then
                more ← encode_from depth (initial_dictionary depth) [x] rest;
                Some ((code_width depth (length dict), c)
                      :: (code_width depth MAX_ENTRIES, clear_code depth) :: more)
              else
                more ← encode_from depth (dict ++ [w ++ [x]]) [x] rest;
                Some ((code_width depth (length dict), c) :: more)
          end
      end
  end.

(** Modelled from the spec: the stream of codes for a pixel sequence, opened
    by a Clear code. *)
Definition encode_codes (depth : nat) (pixels : list nat) : option (list (nat * nat)) :=
  more ← encode_from depth (initial_dictionary depth) [] pixels;
  Some ((code_width depth (length (initial_dictionary depth)), clear_code depth) :: more).

(** Modelled from the spec: "packs codes least-significant-bit-first". *)
Fixpoint to_bits (width n : nat) : list bool :=
  match width with
  | 0 => []
  | S width' => Nat.odd n :: to_bits width' (Nat.div2 n)
  end.

Fixpoint of_bits (bits : list bool) : nat :=
  match bits with
  | [] => 0
  | b :: rest => Nat.b2n b + 2 * of_bits rest
  end.

Definition pack (codes : list (nat * nat)) : list bool :=
  flat_map (fun c => to_bits (fst c) (snd c)) codes.

(** Modelled from the spec: "across byte boundaries": eight bits to a byte,
    the first bit the least significant, the last byte filled with zeros. *)
Definition byte_of_bits (bits : list bool) : byte :=
  Byte.of_bits
    (nth 0 bits false, (nth 1 bits false, (nth 2 bits false, (nth 3 bits false,
    (nth 4 bits false, (nth 5 bits false, (nth 6 bits false, nth 7 bits false))))))).

Definition bits_of_byte (b : byte) : list bool :=
  let '(b0, (b1, (b2, (b3, (b4, (b5, (b6, b7))))))) := Byte.to_bits b in
  [b0; b1; b2; b3; b4; b5; b6; b7].

Fixpoint bytes_of_bits_n (n : nat) (bits : list bool) : list byte :=
  match n with
  | 0 => []
  | S n' => byte_of_bits bits :: bytes_of_bits_n n' (drop 8 bits)
  end.

Definition bytes_of_bits (bits : list bool) : list byte :=
  bytes_of_bits_n ((length bits + 7) / 8) bits.

Definition bits_of_bytes (data : list byte) : list bool :=
  flat_map bits_of_byte data.

Definition byte_of_nat (n : nat) : byte := default x00%byte (Byte.of_nat n).

(** Modelled from the spec: "in data sub-blocks of <= 255 bytes": each block
    is its length and its bytes; an empty block ends the data.  [fuel] bounds
    the number of blocks. *)
Fixpoint sub_blocks (fuel : nat) (data : list byte) : list byte :=
  match fuel, data with
  | _, [] => [x00%byte]
  | 0, _ => [x00%byte]
  | S fuel', _ =>
      byte_of_nat (length (take 255 data)) :: take 255 data
        ++ sub_blocks fuel' (drop 255 data)
  end.

(** The bytes of the sub-blocks, [remaining] of them still due in the block
    being read.  Data that ends before the empty block is truncated: [None]. *)
Fixpoint unblock (remaining : nat) (data : list byte) : option (list byte) :=
  match data with
  | [] => None
  | b :: rest =>
      match remaining with
      | 0 =>
          match Byte.to_nat b with
          | 0 => Some []
          | len => unblock len rest
          end
      | S remaining' => (b ::.) <$> unblock remaining' rest
      end
  end.

(** Modelled from the spec: the decoder "rebuilds the dictionary incrementally
    from decoded codes (standard LZW dictionary reconstruction ...)".  [prev]
    is the code read last since the reset.  The result is the string of
    [code] and the dictionary afterwards: the string of [prev] extended by the
    first symbol of this string is the new entry.  A code one past the
    dictionary stands for that very entry; a code beyond is a corrupt stream:
    [None]. *)
Definition decode_code (dict : list (list nat)) (prev : option nat) (code : nat) :
    option (list nat * list (list nat)) :=
  match prev with
  | None =>
      entry ← dict !! code;
      Some (entry, dict)
  | Some p =>
      s ← dict !! p;
      entry ← (if decide (code < length dict) then dict !! code
               else if decide (code = length dict) then Some (s ++ [hd 0 s])
               else None);
      Some (entry,
            if decide (length dict < MAX_ENTRIES) then dict ++ [s ++ [hd 0 entry]]
            else dict)
  end.

(** The number of entries the encoder's dictionary has when the decoder holds
    [dict]: the entry that the encoder added after [prev] lacks its last
    symbol until the next code is read. *)
Definition encoder_size (dict : list (list nat)) (prev : option nat) : nat :=
  length dict + match prev with Some _ => 1 | None => 0 end.

(** Modelled from the spec: the decoder reads codes "growing code width as the
    dictionary crosses powers of two, and resets on an explicit Clear code".
    A stream cut short within a code is corrupt: [None].  [fuel] bounds the
    number of codes. *)
Fixpoint decode_bits (fuel depth : nat) (dict : list (list nat)) (prev : option nat)
    (bits : list bool) : option (list nat) :=
  match fuel with
  | 0 => None
  | S fuel' =>
      let width := code_width depth (encoder_size dict prev) in
      if decide (length bits < width) then None
      else
        let code := of_bits (take width bits) in
        let rest := drop width bits in
        if decide (code = clear_code depth) then
          decode_bits fuel' depth (initial_dictionary depth) None rest
        else if decide (code = eoi_code depth) then Some []
        else
          '(entry, dict') ← decode_code dict prev code;
          out ← decode_bits fuel' depth dict' (Some code) rest;
          Some (entry ++ out)
  end.

(** Modelled from the spec: [lzw_encode(seq, N)], the colour depth, then the
    packed codes in sub-blocks. *)
Definition lzw_encode (pixels : list nat) (N : nat) : option (list byte) :=
  codes ← encode_codes (color_depth N) pixels;
  let data := bytes_of_bits (pack codes) in
  Some (byte_of_nat (color_depth N) :: sub_blocks (S (length data)) data).

(** Modelled from the spec: [lzw_decode].  The first code has to be a Clear
    code ("a missing Clear code where structurally required"). *)
Definition lzw_decode (stream : list byte) : option (list nat) :=
  match stream with
  | [] => None
  | b :: blocks =>
      let depth := Byte.to_nat b in
      if decide (1 <= depth < MAX_WIDTH) then
        data ← unblock 0 blocks;
        let bits := bits_of_bytes data in
        let width := code_width depth (length (initial_dictionary depth)) in
        if decide (of_bits (take width bits) = clear_code depth) then
          decode_bits (length bits) depth (initial_dictionary depth) None bits
        else None
      else None
  end.

(** The decoder, holding [dictD] and [prev], is in step with the encoder, which
    holds [dictE] and has matched [w]: right after a reset they hold the same
    dictionary; later the encoder is one entry ahead, the string of [prev]
    extended by the first symbol of [w]. *)
Record in_sync (depth : nat) (dictE : list (list nat)) (w : list nat)
    (dictD : list (list nat)) (prev : option nat) : Prop := {
  sync_initial : exists more, dictD = initial_dictionary depth ++ more;
  sync_size : length dictE < MAX_ENTRIES;
  sync_matched : w = [] \/ is_Some (index_of w dictE);
  sync_entry :
    match prev with
    | None => dictE = dictD
    | Some p =>
        exists s c, dictD !! p = Some s /\ s <> [] /\
                    dictE = dictD ++ [s ++ [c]] /\ hd_error w = Some c
    end;
}.

End Lzw.

(** * The rest of the page script *)

(** ** JavaScript strings, as far as the download listener uses them

    A character stands for one UTF-16 code unit.  The full stop is a single
    code unit and is no part of any other character's encoding, so cutting a
    name at a full stop is the same on either reading. *)

Module JsString.

(** [s.lastIndexOf(c)] for a one-character [c], scanning [s] from index [i]:
    the index of the last occurrence, or [found] when there is none. *)
Fixpoint lastIndexOf_from (c : Ascii.ascii) (s : string) (i found : Z) : Z :=
  match s with
  | EmptyString => found
  | String a rest =>
      lastIndexOf_from c rest (i + 1) (if Ascii.eqb a c then i else found)
  end.

(** [s.lastIndexOf(c)]: -1 when [c] does not occur. *)
Definition lastIndexOf (c : Ascii.ascii) (s : string) : Z :=
  lastIndexOf_from c s 0 (-1).

(** An index argument, clamped to [0 .. len]. *)
Definition clamp (len : nat) (i : Z) : nat :=
  Z.to_nat (Z.min (Z.max i 0) (Z.of_nat len)).

(** [s.substring(start, end)], and [s.substring(start)] when [end_] is [None]:
    both indices are clamped to the string, and swapped when they come in the
    wrong order. *)
Definition substring (s : string) (start : Z) (end_ : option Z) : string :=
  let len := String.length s in
  let finalStart := clamp len start in
  let finalEnd := match end_ with
                  | Some e => clamp len e
                  | None => len
                  end in
  let from := Nat.min finalStart finalEnd in
  let to := Nat.max finalStart finalEnd in
  String.substring from (to - from) s.

(** The character ['.'], code unit 46. *)
Definition full_stop : Ascii.ascii := Ascii.ascii_of_nat 46.

(** [c] occurs in [s]. *)
Fixpoint occurs (c : Ascii.ascii) (s : string) : bool :=
  match s with
  | EmptyString => false
  | String a rest => Ascii.eqb a c || occurs c rest
  end.

End JsString.

Section DownloadListener.
Context {E : Engine}.

(** The [<a>] element the download listener builds and clicks. *)
Record Link : Type := {
  download : string;
  (** the bytes of the Blob the object URL names *)
  href : bytes;
}.

(** [originalName.substring(0, originalName.lastIndexOf('.'))] *)
Definition baseName (originalName : string) : string :=
  JsString.substring originalName 0 (Some (JsString.lastIndexOf JsString.full_stop originalName)).

(** [originalName.substring(originalName.lastIndexOf('.'))] *)
Definition extension (originalName : string) : string :=
  JsString.substring originalName (JsString.lastIndexOf JsString.full_stop originalName) None.

(** The click listener of [downloadButton].  It returns the link it clicks,
    or nothing when there is no object URL. *)
Definition downloadButton_click : JS Main (option Link) :=
  url <- var processedGifUrl ;;
  match url with
  | None => ret None
  | Some u =>
      file <- var currentFile ;;
      match file with
      | None => throw (TypeError "null.name")
      | Some f =>
          let originalName := file_name f in
          ret (Some {| download := baseName originalName ++ "-captioned"
                                     ++ extension originalName;
                       href := u |})
      end
  end.

End DownloadListener.

(** ** Vocabulary of the properties of the page *)

Section PageVocabulary.
Context {E : Engine}.

(** The variable that holds the handle of a callback's latest request. *)
Definition handle_of (cb : FrameCallback) (v : Vars) : option nat :=
  match cb with
  | animate_callback => animationFrameId v
  | animateProcessed_callback => processedAnimationFrameId v
  end.

Definition same_callback (cb cb' : FrameCallback) : bool :=
  match cb, cb' with
  | animate_callback, animate_callback => true
  | animateProcessed_callback, animateProcessed_callback => true
  | _, _ => false
  end.

(** The pending requests of one callback. *)
Definition pending (cb : FrameCallback) (s : Main) : list (nat * FrameCallback) :=
  List.filter (fun r => same_callback cb (snd r)) (requests s).

(** What the animation code reads and writes of the window and the variables. *)
Definition loop_vars (s : Main) :
    list (nat * FrameCallback) * nat * option nat * option nat :=
  (requests s, next_request s, animationFrameId (vars s),
   processedAnimationFrameId (vars s)).

(** The animation loops are in order: every pending request is the latest one
    of its callback, the one whose handle the variable holds; handles are
    positive and were all handed out already. *)
Record loops_wf (v : list (nat * FrameCallback) * nat * option nat * option nat) :
    Prop := {
  loops_named :
    Forall (fun r => match snd r with
                     | animate_callback => snd (fst v) = Some (fst r)
                     | animateProcessed_callback => snd v = Some (fst r)
                     end) (fst (fst (fst v)));
  loops_nodup : NoDup (map fst (fst (fst (fst v))));
  loops_id : forall h, snd (fst v) = Some h -> 0 < h < snd (fst (fst v));
  loops_pid : forall h, snd v = Some h -> 0 < h < snd (fst (fst v));
  loops_next : 0 < snd (fst (fst v));
}.

Definition loops_ok (s : Main) : Prop := loops_wf (loop_vars s).

(** What the download is made of: the button, the generated image and the
    object URL. *)
Definition download_vars (s : Main) : bool * bool * option bytes * option bytes :=
  (downloadButton_disabled (doc s), generatedGif_hidden (doc s),
   generatedGif_src (doc s), processedGifUrl (vars s)).

(** The download button, the generated image and the object URL agree. *)
Definition download_ok (s : Main) : Prop :=
  match processedGifUrl (vars s) with
  | None =>
      downloadButton_disabled (doc s) = true /\ generatedGif_hidden (doc s) = true
  | Some u =>
      downloadButton_disabled (doc s) = false /\ generatedGif_hidden (doc s) = false /\
      generatedGif_src (doc s) = Some u
  end.

(** While [isProcessing] is set the process button is disabled and says so. *)
Definition busy_ok (s : Main) : Prop :=
  isProcessing (vars s) = true ->
  processButton (doc s) = {| disabled := true; textContent := "Processing..." |}.

(** A Worker was only created, and an object URL only made, with a file
    selected. *)
Definition file_ok (s : Main) : Prop :=
  worker (vars s) = true \/ is_Some (processedGifUrl (vars s)) ->
  is_Some (currentFile (vars s)).

(** The page holds its two processors, and nothing else. *)
Definition heap_ok (s : Main) : Prop := length (heap (m_realm s)) = 2.

Record page_ok (s : Main) : Prop := {
  ok_loops : loops_ok s;
  ok_download : download_ok s;
  ok_busy : busy_ok s;
  ok_file : file_ok s;
  ok_heap : heap_ok s;
}.

End PageVocabulary.

(** ** Vocabulary of the properties of the worker *)

Section WorkerVocabulary.
Context {E : Engine}.

Definition is_process_gif (e : WorkerRequest) : bool :=
  String.eqb (req_type e) "process_gif".

(** The message a suspended invocation of [self.onmessage] was called with. *)
Definition request_of (t : WorkerTask) : WorkerRequest :=
  match t with
  | AwaitInit e => e
  | AwaitInitWasm e => e
  end.

(** The messages an event sequence delivers to the worker, in order. *)
Definition delivered (evs : list WorkerEvent) : list WorkerRequest :=
  flat_map (fun ev => match ev with
                      | Deliver e => [e]
                      | _ => []
                      end) evs.

(** Replies posted so far, and ['process_gif'] requests whose handler is
    still suspended. *)
Definition answered_or_pending (w : Worker) : nat :=
  length (w_outbox w)
  + length (List.filter (fun t => is_process_gif (request_of t)) (w_tasks w)).

End WorkerVocabulary.

(** ** A second small engine, whose methods fail without a document

    Nothing decodes from an empty file; drawing, captioning and exporting
    need a document; a caption cannot be prepared from an empty text. *)

Definition strict_engine : Engine :=
  {| Proc := option bytes;
     TextData := string;
     Num := Z;
     parseInt := fun _ => 0%Z;
     parseFloat := fun _ => 0%Z;
     num_of_Z := fun z => z;
     num_div := Z.div;
     num_mul := Z.mul;
     Error := string;
     toString := fun e => e;
     new_GifProcessor := None;
     process_gif := fun _ data =>
       match data with
       | [] => (None, inl "MalformedHeader")
       | _ => (Some data, inr tt)
       end;
     process_all_frames_with_text_data := fun p _ =>
       match p with
       | None => (p, inl "no document")
       | Some d => (p, inr (d ++ [x2a]%byte))
       end;
     prepare_text_overlay := fun p text _ _ _ _ =>
       if String.eqb text "" then (p, inl "empty caption") else (p, inr text);
     get_dimensions := fun _ => {| width := 4; height := 4 |};
     get_frame_delay := fun _ => 5%Z;
     render_current_frame := fun p =>
       match p with
       | None => (p, inl "no document")
       | Some _ => (p, inr tt)
       end;
     next_frame := fun p => p;
     add_caption := fun p _ _ _ _ _ =>
       match p with
       | None => (p, inl "no document")
       | Some _ => (p, inr tt)
       end |}.

(** A message of a type the worker does not know. *)
Definition toy_ping : @WorkerRequest toy_engine :=
  @Build_WorkerRequest toy_engine "ping" [] "".

Section SystemVocabulary.
Context {E : Engine}.

(** The page is in order, and its Worker exists only once [initWorker] has
    set the variable. *)
Definition system_ok (s : System) : Prop :=
  page_ok (page s) /\ (is_Some (the_worker s) -> worker (vars (page s)) = true).

End SystemVocabulary.

(** ** More states of the small engines' pages, for the examples *)

(** The reply has reached the page: the export is shown and can be
    downloaded. *)
Definition toy_done : @System toy_engine := system_run [ToPage] toy_answered.

(** The worker's [init()] was rejected while the export was under way. *)
Definition toy_init_failed : @System toy_engine :=
  system_run [ToWorker; InWorker_InitSettled 0 false] toy_exporting.

Definition empty_file : File :=
  {| file_name := "empty.gif"; file_type := "image/gif"; file_data := [] |}.

(** A file was loaded and the preview runs; then a file that does not decode
    was chosen, which leaves the strict engine without a document. *)
Definition strict_broken : @System strict_engine :=
  system_run
    [OnPage (FileChosen toy_file); OnPage (ReadSettled 0 true);
     OnPage (AnimationFrame 1 1000%Q);
     OnPage (FileChosen empty_file); OnPage (ReadSettled 0 true)]
    system_start.

(** A file is loaded on the strict engine's page and the caption is empty. *)
Definition strict_loaded : @System strict_engine :=
  system_run [OnPage (FileChosen toy_file); OnPage (ReadSettled 0 true)] system_start.

(** A caption was typed on the strict engine's page before any file was
    chosen. *)
Definition strict_captioned : @Main strict_engine :=
  page (system_run [OnPage (ControlEdited captionText_control "HI")] system_start).

Definition other_file : File :=
  {| file_name := "b.gif"; file_type := "image/gif"; file_data := [x07]%byte |}.

(** A file was chosen and is being read. *)
Definition toy_chosen : @System toy_engine :=
  system_run [OnPage (FileChosen toy_file)] system_start.

(** ** Vocabulary of the export, end to end *)

Section ExportVocabulary.
Context {E : Engine}.

(** The request the click listener posts for the file it read and the value
    [prepare_text_overlay] gave it. *)
Definition request_for (file : File) (t : TextData) : WorkerRequest :=
  {| req_type := "process_gif"; req_gifData := file_data file; req_textData := t |}.

(** The events by which a worker handles a message to its end once it was
    delivered: none with a processor, where the handler runs at once; without
    one, the promise of [init()] is fulfilled and the handler goes on. *)
Definition handling (w : Worker) : list WorkerEvent :=
  match w_gifProcessor w with
  | Some _ => []
  | None => [InitSettled (length (w_tasks w)) true; Resume (length (w_tasks w))]
  end.

(** The same for the worker of a page: it takes the oldest request and
    handles it to its end. *)
Definition export_events (w : Worker) : list SystemEvent :=
  match w_gifProcessor w with
  | Some _ => [ToWorker]
  | None => [ToWorker; InWorker_InitSettled (length (w_tasks w)) true;
             InWorker_Resume (length (w_tasks w))]
  end.

(** The calls by which a worker without a processor gets one. *)
Definition init_calls (w : Worker) : list Call :=
  match w_gifProcessor w with
  | Some _ => []
  | None => [CallInit; CallNew (length (heap (w_realm w)))]
  end.

(** The object a message is handled on, and its state before: the worker's
    processor, or the one [initWasm] is about to construct. *)
Definition export_object (w : Worker) : loc * Proc :=
  match w_gifProcessor w with
  | Some l => (l, default new_GifProcessor (heap (w_realm w) !! l))
  | None => (length (heap (w_realm w)), new_GifProcessor)
  end.

(** The page with [isProcessing] set to [b]. *)
Definition with_processing (b : bool) (p : Main) : Main :=
  set_vars (set_isProcessing b (vars p)) p.

(** A handler does the same whether or not a change [f] of the state was
    made before it: it completes alike, and leaves the state with the same
    change. *)
Definition unaffected_by {St A} (f : St -> St) (m : JS St A) : Prop :=
  forall s, m (f s) = (fst (m s), f (snd (m s))).

(** The worker may be sent a message: no handler of it is suspended, and its
    initialisation has not failed. *)
Definition ready_for_message (w : Worker) : bool :=
  match w_tasks w, w_gifProcessor w, calls (w_realm w) with
  | [], Some _, _ => true
  | [], None, [] => true
  | _, _, _ => false
  end.

(** The messages of an event sequence come one at a time: each is delivered
    when the worker is ready for it. *)
Fixpoint one_at_a_time (evs : list WorkerEvent) (w : Worker) : bool :=
  match evs with
  | [] => true
  | ev :: rest =>
      match ev with
      | Deliver _ => ready_for_message w
      | _ => true
      end && one_at_a_time rest (worker_step ev w)
  end.

(** *** The caption on its way

    The values of [textData] the page and its worker hold between the click
    and the engine call of the worker. *)

(** What a suspended listener of the page keeps for the request it will post. *)
Definition task_text (t : PageTask) : list TextData :=
  match t with
  | ClickReading _ textOverlay => [textOverlay]
  | HandleFileReading _ => []
  end.

(** Held by the page: by click listeners at their [await], then in the
    requests posted and not yet taken. *)
Definition page_carries (p : Main) : list TextData :=
  flat_map task_text (m_tasks p) ++ map req_textData (m_outbox p).

(** Held by the worker: in the messages of its suspended handlers. *)
Definition worker_carries (w : option Worker) : list TextData :=
  match w with
  | Some w => map (fun t => req_textData (request_of t)) (w_tasks w)
  | None => []
  end.

Definition carried (s : System) : list TextData :=
  page_carries (page s) ++ worker_carries (the_worker s).

(** The arguments of the calls of [process_all_frames_with_text_data] in a
    trace, in order. *)
Definition passed (cs : list Call) : list TextData :=
  flat_map (fun c => match c with
                     | CallProcessAll _ t => [t]
                     | _ => []
                     end) cs.

Definition worker_passed (s : System) : list TextData :=
  match the_worker s with
  | Some w => passed (calls (w_realm w))
  | None => []
  end.

(** What [prepare_text_overlay] returns to a click on the process button: a
    value when the listener gets as far as the call and the call succeeds. *)
Definition prepared_by_click (p : Main) : list TextData :=
  match currentFile (vars p), isProcessing (vars p), heap (m_realm p) !! gifProcessor with
  | Some _, false, Some q =>
      match snd (prepare_from_controls (doc p) q) with
      | inr t => [t]
      | inl _ => []
      end
  | _, _, _ => []
  end.

(** The values [prepare_text_overlay] returned in the course of a run. *)
Fixpoint prepared (evs : list SystemEvent) (s : System) : list TextData :=
  match evs with
  | [] => []
  | ev :: rest =>
      match ev with
      | OnPage ProcessClick => prepared_by_click (page s)
      | _ => []
      end ++ prepared rest (system_step ev s)
  end.

(** The inline [display: none] of the two canvases. *)
Definition inline_styles (p : Main) : bool * bool :=
  (style_display_none (preview (doc p)), style_display_none (processedPreview (doc p))).

End ExportVocabulary.

(** * Properties of the scripts *)

Section Stability.
Context {E : Engine} {St : Type}.

Lemma stable_ret (Q : St -> Prop) A (a : A) : stable Q (ret a).
Proof. intros s H. exact H. Qed.

Lemma stable_throw (Q : St -> Prop) A x : stable Q (@throw _ St A x).
Proof. intros s H. exact H. Qed.

Lemma stable_gets (Q : St -> Prop) A (f : St -> A) : stable Q (gets f).
Proof. intros s H. exact H. Qed.

Lemma stable_modify (Q : St -> Prop) (f : St -> St) :
  (forall s, Q s -> Q (f s)) -> stable Q (modify f).
Proof. intros Hf s H. apply Hf, H. Qed.

Lemma stable_bind (Q : St -> Prop) A B (m : JS St A) (k : A -> JS St B) :
  stable Q m -> (forall a, stable Q (k a)) -> stable Q (bind m k).
Proof.
  intros Hm Hk s H. unfold bind.
  specialize (Hm s H). destruct (m s) as [[a|x] s']; simpl in *.
  - apply Hk, Hm.
  - exact Hm.
Qed.

Lemma stable_try_catch (Q : St -> Prop) A (m : JS St A) (h : Exn -> JS St A) :
  stable Q m -> (forall x, stable Q (h x)) -> stable Q (try_catch m h).
Proof.
  intros Hm Hh s H. unfold try_catch.
  specialize (Hm s H). destruct (m s) as [[a|x] s']; simpl in *.
  - exact Hm.
  - apply Hh, Hm.
Qed.

Lemma stable_when (Q : St -> Prop) (c : bool) (m : JS St unit) :
  stable Q m -> stable Q (when c m).
Proof. intros Hm. destruct c; simpl; [exact Hm | apply stable_ret]. Qed.

End Stability.

Section PageStability.
Context {E : Engine}.

Lemma stable_requestAnimationFrame (Q : Main -> Prop) cb :
  (forall s, Q s ->
     Q (set_next_request (S (next_request s))
          (set_requests (requests s ++ [(next_request s, cb)]) s))) ->
  stable Q (requestAnimationFrame cb).
Proof. intros H s Hs. apply H, Hs. Qed.

Lemma stable_in_realm (Q : Main -> Prop) A (m : JS Realm A) :
  (forall s, Q s -> Q (set_m_realm (snd (m (m_realm s))) s)) ->
  stable Q (in_realm m).
Proof.
  intros H s Hs. unfold in_realm. specialize (H s Hs).
  destruct (m (m_realm s)) as [a r]. exact H.
Qed.

End PageStability.

Ltac unfold_page :=
  unfold var, assign, element, write, alert, console_error, worker_postMessage,
    cancelAnimationFrame, stopAnimation, startAnimation, updatePreview, animate,
    animateProcessed, handleFile, handleFile_read, initWorker, worker_onmessage,
    click_catch, processButton_click, processButton_click_read, reset_download,
    control_edited.

Ltac stable_step fin :=
  lazymatch goal with
  | |- stable _ (ret _) => apply stable_ret
  | |- stable _ (throw _) => apply stable_throw
  | |- stable _ (gets _) => apply stable_gets
  | |- stable _ (bind _ _) => apply stable_bind; [| intros ?]
  | |- stable _ (try_catch _ _) => apply stable_try_catch; [| intros ?]
  | |- stable _ (when _ _) => apply stable_when
  | |- stable _ (modify _) => apply stable_modify; fin
  | |- stable _ (requestAnimationFrame _) => apply stable_requestAnimationFrame; fin
  | |- stable _ (in_realm _) => apply stable_in_realm; fin
  | |- stable _ (match ?x with _ => _ end) => destruct x
  end.

Ltac stable_with fin := repeat (repeat progress unfold_page; stable_step fin).

Ltac frame_fin := intros ? ?; simpl; repeat (case_match; simpl); try assumption.


Section T.
Context {E : Engine}.

Lemma in_realm_invoke {A} name c (f : Proc -> Proc * (Error + A)) l (s : Main) p :
  heap (m_realm s) !! l = Some p ->
  in_realm (invoke name c f (Some l)) s =
    (of_result (snd (f p)),
     set_m_realm {| heap := <[l := fst (f p)]> (heap (m_realm s));
                    calls := calls (m_realm s) ++ [c l] |} s).
Proof.
  intros Hp. unfold in_realm, invoke. rewrite Hp. destruct (f p). reflexivity.
Qed.

Lemma in_realm_invoke_getter {A} name c (f : Proc -> Error + A) l (s : Main) p :
  heap (m_realm s) !! l = Some p ->
  in_realm (invoke_getter name c f (Some l)) s =
    (of_result (f p), set_m_realm (trace (c l) (m_realm s)) s).
Proof.
  intros Hp. unfold invoke_getter. rewrite (in_realm_invoke _ _ _ _ _ p Hp). simpl.
  rewrite list_insert_id by exact Hp. reflexivity.
Qed.

Lemma in_realm_invoke_missing {A} name c (f : Proc -> Proc * (Error + A)) l (s : Main) :
  heap (m_realm s) !! l = None ->
  in_realm (invoke name c f (Some l)) s =
    (Throw (TypeError ("null." ++ name)), set_m_realm (trace (CallOnNull name) (m_realm s)) s).
Proof. intros Hp. unfold in_realm, invoke. rewrite Hp. reflexivity. Qed.

Lemma startAnimation_normal (s : Main) : fst (startAnimation s) = Normal tt.
Proof.
  destruct s as [r [cf pd pu wk id pid lt lpt ip] d rq nx tk ob].
  unfold startAnimation, bind, var, gets. simpl.
  destruct ip; [reflexivity|].
  destruct id as [[|h]|], pid as [[|h']|]; reflexivity.
Qed.

Lemma startAnimation_run (s : Main) : startAnimation s = (Normal tt, exec startAnimation s).
Proof.
  unfold exec. rewrite <- (startAnimation_normal s). destruct (startAnimation s); reflexivity.
Qed.

End T.

Ltac js_unfold :=
  cbv beta iota zeta delta
    [fst snd negb andb bind ret throw try_catch gets modify when var assign element write
     alert console_error worker_postMessage cancelAnimationFrame requestAnimationFrame
     initWorker reset_download truthy of_result trace
     set_currentFile set_processedGifData set_processedGifUrl set_worker
     set_animationFrameId set_processedAnimationFrameId set_lastFrameTime
     set_lastProcessedFrameTime set_isProcessing
     set_controls set_preview set_processedPreview set_processButton
     set_downloadButton_disabled set_generatedGif_src set_generatedGif_hidden
     set_fileInfo set_alerts set_console
     set_m_realm set_vars set_doc set_requests set_next_request set_m_tasks set_m_outbox].

Ltac js_project :=
  cbn [currentFile processedGifData processedGifUrl worker animationFrameId
       processedAnimationFrameId lastFrameTime lastProcessedFrameTime isProcessing
       controls preview processedPreview processButton downloadButton_disabled
       generatedGif_src generatedGif_hidden fileInfo alerts console
       m_realm vars doc requests next_request m_tasks m_outbox heap calls].

Ltac js_eval := repeat progress (js_unfold; js_project).

Section U.
Context {E : Engine}.

Lemma startAnimation_effect (s : Main) :
  let s' := snd (startAnimation s) in
  m_realm s' = m_realm s /\ doc s' = doc s /\ m_tasks s' = m_tasks s /\
  m_outbox s' = m_outbox s /\ isProcessing (vars s') = isProcessing (vars s) /\
  currentFile (vars s') = currentFile (vars s) /\ worker (vars s') = worker (vars s).
Proof.
  assert (H : stable (fun s' : Main =>
            m_realm s' = m_realm s /\ doc s' = doc s /\ m_tasks s' = m_tasks s /\
            m_outbox s' = m_outbox s /\ isProcessing (vars s') = isProcessing (vars s) /\
            currentFile (vars s') = currentFile (vars s) /\ worker (vars s') = worker (vars s))
            startAnimation) by stable_with frame_fin.
  apply H. tauto.
Qed.

Lemma click_catch_effect x (s : Main) :
  let s' := snd (click_catch x s) in
  isProcessing (vars s') = false /\ m_tasks s' = m_tasks s /\
  m_outbox s' = m_outbox s /\ m_realm s' = m_realm s /\
  currentFile (vars s') = currentFile (vars s) /\ worker (vars s') = worker (vars s).
Proof.
  unfold click_catch. js_eval.
  match goal with
  | |- context [startAnimation ?X] =>
      destruct (startAnimation_effect X) as (H1 & H2 & H3 & H4 & H5 & H6 & H7);
      destruct (startAnimation X) as [c s']
  end.
  js_eval. simpl in *. rewrite H1, H3, H4, H5, H6, H7. tauto.
Qed.

Lemma processButton_click_effect (s : Main) :
  let s' := snd (processButton_click s) in
  m_outbox s' = m_outbox s /\ click_effect s s'.
Proof.
  unfold processButton_click. js_eval.
  destruct (currentFile (vars s)) as [file|] eqn:Hf.
  2:{ split; [reflexivity|]. apply click_ignored; auto. }
  destruct (isProcessing (vars s)) eqn:Hb.
  { split; [reflexivity|]. apply click_ignored; auto. }
  destruct (heap (m_realm s) !! gifProcessor) as [p|] eqn:Hp.
  - destruct (prepare_from_controls (doc s) p) as [p' [err|t]] eqn:Ht.
    + destruct (worker (vars s)) eqn:Hw; js_eval.
      all: erewrite in_realm_invoke by exact Hp.
      all: unfold prepare_from_controls in *; js_eval; rewrite Ht; js_eval.
      all: match goal with
           | |- context [click_catch ?x ?X] =>
               destruct (click_catch_effect x X) as (H1 & H2 & H3 & H4 & _);
               destruct (click_catch x X) as [c s']
           end.
      all: js_eval; simpl in *; rewrite H3; split; [reflexivity|].
      all: eapply click_failed_prepare; eauto; rewrite H4; reflexivity.
    + destruct (worker (vars s)) eqn:Hw; js_eval.
      all: erewrite in_realm_invoke by exact Hp.
      all: unfold prepare_from_controls in *; js_eval; rewrite Ht; js_eval.
      all: split; [reflexivity|].
      all: eapply click_suspended; eauto.
  - destruct (worker (vars s)) eqn:Hw; js_eval.
    all: rewrite in_realm_invoke_missing by exact Hp; js_eval.
    all: match goal with
         | |- context [click_catch ?x ?X] =>
             destruct (click_catch_effect x X) as (H1 & H2 & H3 & H4 & _);
             destruct (click_catch x X) as [c s']
         end.
    all: js_eval; simpl in *; rewrite H3; split; [reflexivity|].
    all: apply click_failed_null; auto; rewrite H4; reflexivity.
Qed.

Lemma processButton_click_read_effect read t (s : Main) :
  click_read_effect t s (snd (processButton_click_read read t s)).
Proof.
  unfold processButton_click_read. js_eval.
  destruct read as [gifData|x]; js_eval.
  - destruct (worker (vars s)) eqn:Hw; js_eval.
    + eapply click_posted. destruct s; reflexivity.
    + destruct (click_catch_effect (TypeError "null.postMessage") s) as (H1 & H2 & H3 & H4 & _).
      apply click_read_failed; assumption.
  - destruct (click_catch_effect x s) as (H1 & H2 & H3 & H4 & _).
    apply click_read_failed; assumption.
Qed.

Lemma processButton_click_read_posts gifData t (s : Main) :
  worker (vars s) = true ->
  processButton_click_read (Normal gifData) t s =
    (Normal tt,
     set_m_outbox (m_outbox s ++ [{| req_type := "process_gif"; req_gifData := gifData;
                                     req_textData := t |}]) s).
Proof.
  intros Hw. unfold processButton_click_read. js_eval. rewrite Hw. reflexivity.
Qed.
End U.

(** ** What each listener leaves alone *)

Section Frames.
Context {E : Engine}.

Lemma animate_keeps_export ts v :
  stable (fun s => export_vars s = v) (animate ts).
Proof. unfold export_vars. stable_with frame_fin. Qed.

Lemma animateProcessed_keeps_export ts v :
  stable (fun s => export_vars s = v) (animateProcessed ts).
Proof. unfold export_vars. stable_with frame_fin. Qed.

Lemma handleFile_read_keeps_export b v :
  stable (fun s => export_vars s = v) (handleFile_read b).
Proof. unfold export_vars. stable_with frame_fin. Qed.

Lemma control_edited_keeps_export which value v :
  stable (fun s => export_vars s = v) (control_edited which value).
Proof. unfold export_vars. stable_with frame_fin. Qed.

Lemma worker_onmessage_keeps_queues m v :
  stable (fun s => (m_tasks s, m_outbox s) = v) (worker_onmessage m).
Proof. stable_with frame_fin. Qed.

Lemma invoke_calls {A} name c (f : Proc -> Proc * (Error + A)) ref (r : Realm) :
  calls (snd (invoke name c f ref r)) =
  calls r ++ [match ref with
              | Some l => match heap r !! l with Some _ => c l | None => CallOnNull name end
              | None => CallOnNull name
              end].
Proof.
  unfold invoke. destruct ref as [l|]; [|reflexivity].
  destruct (heap r !! l) as [p|]; [|reflexivity].
  destruct (f p). reflexivity.
Qed.

Lemma invoke_heap_other {A} name c (f : Proc -> Proc * (Error + A)) l l0 (r : Realm) :
  l <> l0 ->
  heap (snd (invoke name c f (Some l) r)) !! l0 = heap r !! l0.
Proof.
  intros Hne. unfold invoke.
  destruct (heap r !! l) as [p|]; [|reflexivity].
  destruct (f p). simpl. apply list_lookup_insert_ne, Hne.
Qed.

Lemma invoke_getter_heap {A} name c (f : Proc -> Error + A) ref (r : Realm) :
  heap (snd (invoke_getter name c f ref r)) = heap r.
Proof.
  unfold invoke_getter, invoke. destruct ref as [l|]; [|reflexivity].
  destruct (heap r !! l) as [p|] eqn:Hp; [|reflexivity].
  simpl. apply list_insert_id, Hp.
Qed.

Lemma page_objects_distinct : gifProcessor <> processedGifProcessor.
Proof. discriminate. Qed.

End Frames.

Ltac calls_fin :=
  intros ? ?; cbv beta; cbn [m_realm set_m_realm];
  first
    [ unfold invoke_getter; rewrite invoke_calls; apply Forall_app; split;
      [ assumption | repeat constructor; repeat case_match; exact I ]
    | simpl; repeat (case_match; simpl); assumption ].

Ltac heap_fin :=
  intros ? ?; cbv beta; cbn [m_realm set_m_realm];
  first
    [ rewrite invoke_getter_heap; assumption
    | rewrite invoke_heap_other by (apply not_eq_sym, page_objects_distinct); assumption
    | simpl; repeat (case_match; simpl); assumption ].

Section PageCalls.
Context {E : Engine}.

Lemma animate_calls ts : stable page_calls_ok (animate ts).
Proof. unfold page_calls_ok. stable_with calls_fin. Qed.

Lemma animateProcessed_calls ts : stable page_calls_ok (animateProcessed ts).
Proof. unfold page_calls_ok. stable_with calls_fin. Qed.

Lemma handleFile_calls file : stable page_calls_ok (handleFile file).
Proof. unfold page_calls_ok. stable_with calls_fin. Qed.

Lemma handleFile_read_calls b : stable page_calls_ok (handleFile_read b).
Proof. unfold page_calls_ok. stable_with calls_fin. Qed.

Lemma control_edited_calls which value : stable page_calls_ok (control_edited which value).
Proof. unfold page_calls_ok. stable_with calls_fin. Qed.

Lemma processButton_click_calls : stable page_calls_ok processButton_click.
Proof. unfold page_calls_ok. stable_with calls_fin. Qed.

Lemma processButton_click_read_calls read t :
  stable page_calls_ok (processButton_click_read read t).
Proof. unfold page_calls_ok. stable_with calls_fin. Qed.

Lemma worker_onmessage_calls m : stable page_calls_ok (worker_onmessage m).
Proof. unfold page_calls_ok. stable_with calls_fin. Qed.

Lemma worker_onmessage_keeps_preview_engine m v :
  stable (fun s => heap (m_realm s) !! gifProcessor = v) (worker_onmessage m).
Proof. stable_with heap_fin. Qed.

End PageCalls.

(** ** The worker *)

Section WorkerFacts.
Context {E : Engine}.

Lemma onmessage_body_outcome (e : WorkerRequest) (w : Worker) l p :
  req_type e = "process_gif" ->
  w_gifProcessor w = Some l ->
  heap (w_realm w) !! l = Some p ->
  onmessage_body e w =
    (Normal tt,
     {| w_realm := {| heap := <[l := fst (fst (export_outcome l p e))]> (heap (w_realm w));
                      calls := calls (w_realm w) ++ snd (fst (export_outcome l p e)) |};
        w_gifProcessor := Some l;
        w_tasks := w_tasks w;
        w_outbox := w_outbox w ++ [snd (export_outcome l p e)] |}).
Proof.
  intros Ht Hl Hp. destruct w as [[h cs] g ts out]. simpl in *. subst g.
  unfold onmessage_body, export_outcome. rewrite Ht. simpl.
  unfold try_catch, bind, gets, w_in_realm, invoke, self_postMessage, modify. simpl.
  rewrite Hp.
  destruct (process_gif p (req_gifData e)) as [p1 [err|[]]]; simpl; [reflexivity|].
  rewrite list_lookup_insert_eq by (eapply lookup_lt_Some; eauto).
  destruct (process_all_frames_with_text_data p1 (req_textData e)) as [p2 [err|result]];
    simpl; rewrite list_insert_insert_eq, <- app_assoc; reflexivity.
Qed.

Lemma onmessage_body_other (e : WorkerRequest) (w : Worker) :
  req_type e <> "process_gif" -> onmessage_body e w = (Normal tt, w).
Proof.
  intros Ht. unfold onmessage_body.
  destruct (String.eqb (req_type e) "process_gif") eqn:Heq; [|reflexivity].
  apply String.eqb_eq in Heq. contradiction.
Qed.

Lemma export_outcome_calls l p e : Forall (export_call_on l) (snd (fst (export_outcome l p e))).
Proof.
  unfold export_outcome.
  destruct (process_gif p (req_gifData e)) as [p1 [err|[]]]; simpl.
  - repeat constructor.
  - destruct (process_all_frames_with_text_data p1 (req_textData e)) as [p2 [err|result]];
      simpl; repeat constructor.
Qed.

Lemma export_call_on_an_object l c : export_call_on l c -> on_an_object c.
Proof. destruct c; simpl; tauto. Qed.

Lemma worker_start_sound : worker_sound worker_start.
Proof. split; simpl; [discriminate | constructor | constructor]. Qed.

Lemma onmessage_body_sound e (w : Worker) l :
  w_gifProcessor w = Some l -> worker_sound w -> worker_sound (exec (onmessage_body e) w).
Proof.
  intros Hl Hw. destruct (ws_object w Hw l Hl) as [p Hp].
  destruct (string_dec (req_type e) "process_gif") as [Ht|Ht].
  - unfold exec. rewrite (onmessage_body_outcome e w l p Ht Hl Hp). split; simpl.
    + intros l' [= <-]. rewrite list_lookup_insert_eq by (eapply lookup_lt_Some; eauto).
      eauto.
    + discriminate.
    + apply Forall_app. split; [apply (ws_calls w Hw)|].
      eapply Forall_impl; [apply export_outcome_calls|]. apply export_call_on_an_object.
  - unfold exec. rewrite (onmessage_body_other e w Ht). exact Hw.
Qed.

Lemma Forall_delete {A} (P : A -> Prop) (l : list A) i : Forall P l -> Forall P (delete i l).
Proof.
  intros H. revert i. induction H; intros [|i]; simpl; auto.
Qed.

Lemma worker_step_sound ev (w : Worker) : worker_sound w -> worker_sound (worker_step ev w).
Proof.
  intros Hw. destruct ev as [e|i ok|i]; simpl.
  - unfold deliver. destruct (w_gifProcessor w) as [l|] eqn:Hl.
    + apply onmessage_body_sound with l; assumption.
    + split; simpl.
      * discriminate.
      * intros _. apply Forall_app. split; [apply (ws_tasks w Hw Hl)|repeat constructor].
      * apply Forall_app. split; [apply (ws_calls w Hw)|repeat constructor].
  - unfold init_settled. destruct (w_tasks w !! i) as [[e|e]|] eqn:Hi; try exact Hw.
    destruct ok; simpl.
    + split; simpl.
      * intros l [= <-]. rewrite lookup_app_r by lia. rewrite Nat.sub_diag. simpl. eauto.
      * discriminate.
      * apply Forall_app. split; [apply (ws_calls w Hw)|repeat constructor].
    + split; simpl.
      * apply (ws_object w Hw).
      * intros Hn. apply Forall_delete, (ws_tasks w Hw Hn).
      * apply (ws_calls w Hw).
  - unfold resume. destruct (w_tasks w !! i) as [[e|e]|] eqn:Hi; try exact Hw.
    destruct (w_gifProcessor w) as [l|] eqn:Hl.
    + apply onmessage_body_sound with l; [exact Hl|].
      split; simpl.
      * apply (ws_object w Hw).
      * rewrite Hl. discriminate.
      * apply (ws_calls w Hw).
    + pose proof (ws_tasks w Hw Hl) as Ht.
      rewrite Forall_lookup in Ht. specialize (Ht i _ Hi). discriminate.
Qed.

Lemma worker_run_sound evs (w : Worker) : worker_sound w -> worker_sound (worker_run evs w).
Proof.
  revert w. induction evs as [|ev evs IH]; intros w Hw; simpl; [exact Hw|].
  apply IH, worker_step_sound, Hw.
Qed.

End WorkerFacts.

(** ** The invariant of the page and its worker *)

Section InvariantProof.
Context {E : Engine}.

Lemma filter_delete_length {A} (f : A -> bool) (l : list A) i x :
  l !! i = Some x ->
  length (List.filter f (delete i l)) + (if f x then 1 else 0) = length (List.filter f l).
Proof.
  revert i. induction l as [|a l IH]; intros [|i] Hi; simpl in *; try discriminate.
  - injection Hi as ->. destruct (f x); simpl; lia.
  - specialize (IH i Hi). destruct (f a); simpl; lia.
Qed.

Lemma stable_export_vars_flight {A} (m : JS Main A) (s : Main) :
  (forall v, stable (fun s => export_vars s = v) m) ->
  flight_effect s (snd (m s)).
Proof.
  intros H. specialize (H (export_vars s) s eq_refl).
  unfold export_vars in H. injection H as H1 H2 H3.
  apply flight_same; [exact H1|]. unfold page_in_flight. rewrite H2, H3. reflexivity.
Qed.

Lemma flight_effect_pre (p0 p p' : Main) :
  isProcessing (vars p) = isProcessing (vars p0) ->
  page_in_flight p = page_in_flight p0 ->
  flight_effect p p' -> flight_effect p0 p'.
Proof.
  intros H1 H2 [Ha Hb|Ha Hb Hc|Ha Hb].
  - apply flight_same; congruence.
  - apply flight_started; congruence.
  - apply flight_dropped; congruence.
Qed.

Lemma handleFile_flight file (s : Main) : flight_effect s (snd (handleFile file s)).
Proof.
  unfold handleFile. js_eval. apply flight_same; [reflexivity|].
  unfold page_in_flight. simpl. rewrite List.filter_app, length_app. simpl. lia.
Qed.

Lemma page_step_flight pev (p : Main) : flight_effect p (page_step pev p).
Proof.
  destruct pev as [file| |i ok|h ts|which value| |]; simpl.
  - apply handleFile_flight.
  - destruct (currentFile (vars p)); [apply handleFile_flight|].
    apply flight_same; reflexivity.
  - destruct (m_tasks p !! i) as [[file|file t]|] eqn:Hi.
    + pose proof (filter_delete_length is_click_task _ _ _ Hi) as Hd. simpl in Hd.
      assert (Hs : flight_effect p (set_m_tasks (delete i (m_tasks p)) p)).
      { apply flight_same; [reflexivity|]. unfold page_in_flight. simpl. lia. }
      destruct ok; [|exact Hs].
      eapply flight_effect_pre;
        [| |apply stable_export_vars_flight; intros v; apply handleFile_read_keeps_export].
      * reflexivity.
      * unfold page_in_flight. simpl. lia.
    + pose proof (filter_delete_length is_click_task _ _ _ Hi) as Hd. simpl in Hd.
      set (p1 := set_m_tasks (delete i (m_tasks p)) p).
      set (read := if ok then _ else _).
      destruct (processButton_click_read_effect read t p1) as [gifData Hp|H1 H2 H3 H4].
      * unfold exec. rewrite Hp. apply flight_same; [reflexivity|].
        unfold page_in_flight, p1. simpl. rewrite length_app. simpl. lia.
      * apply flight_dropped; [exact H1|].
        unfold exec, page_in_flight. rewrite H2, H3. unfold p1. simpl. lia.
    + apply flight_same; reflexivity.
  - destruct (find_request h (requests p)) as [[|]|].
    + eapply flight_effect_pre;
        [| |apply stable_export_vars_flight; intros v; apply animate_keeps_export];
        reflexivity.
    + eapply flight_effect_pre;
        [| |apply stable_export_vars_flight; intros v; apply animateProcessed_keeps_export];
        reflexivity.
    + apply flight_same; reflexivity.
  - apply stable_export_vars_flight. intros v. apply control_edited_keeps_export.
  - destruct (processButton_click_effect p) as (Ho & Hc). unfold exec.
    destruct Hc as [_ ->|file q q' t _ Hb _ _ _ Hb' Ht _ _ _ _
                   |q q' err Hb _ _ _ Hb' Ht _|Hb _ _ Hb' Ht _].
    + apply flight_same; reflexivity.
    + apply flight_started; [exact Hb|exact Hb'|].
      unfold page_in_flight. rewrite Ht, Ho, List.filter_app, length_app. simpl. lia.
    + apply flight_same; [congruence|]. unfold page_in_flight. rewrite Ht, Ho. reflexivity.
    + apply flight_same; [congruence|]. unfold page_in_flight. rewrite Ht, Ho. reflexivity.
  - apply flight_same; reflexivity.
Qed.

Lemma page_step_calls pev (p : Main) : page_calls_ok p -> page_calls_ok (page_step pev p).
Proof.
  intros Hp. destruct pev as [file| |i ok|h ts|which value| |]; simpl.
  - apply handleFile_calls, Hp.
  - destruct (currentFile (vars p)); [apply handleFile_calls|]; exact Hp.
  - destruct (m_tasks p !! i) as [[file|file t]|]; [destruct ok| |]; try exact Hp.
    + apply handleFile_read_calls, Hp.
    + apply processButton_click_read_calls, Hp.
  - destruct (find_request h (requests p)) as [[|]|]; try exact Hp.
    + apply animate_calls, Hp.
    + apply animateProcessed_calls, Hp.
  - apply control_edited_calls, Hp.
  - apply processButton_click_calls, Hp.
  - exact Hp.
Qed.

End InvariantProof.

Section SystemInvariant.
Context {E : Engine}.

Lemma in_flight_split (s : System) :
  in_flight s =
  page_in_flight (page s)
  + match the_worker s with
    | Some w => length (w_tasks w) + length (w_outbox w)
    | None => 0
    end.
Proof. reflexivity. Qed.

Lemma system_start_invariant : system_invariant system_start.
Proof.
  split; simpl.
  - unfold in_flight. simpl. lia.
  - reflexivity.
  - discriminate.
  - unfold page_calls_ok. simpl. repeat constructor.
Qed.

Lemma worker_phase_flight (p p' : Main) (w : Worker) :
  flight_effect p p' -> worker_phase p w -> worker_phase p' w.
Proof.
  intros Hf [H1 H2 H3 H4 H5|e H1 H2 H3 H4 H5|H1 H2 H3 H4 H5 H6 H7|l rest H1 H2 H3 H4 H5].
  - apply phase_fresh; assumption.
  - eapply phase_initialising; eassumption.
  - destruct Hf as [Ha Hb|Ha Hb Hc|Ha Hb]; try congruence; try lia.
    apply phase_failed; congruence.
  - eapply phase_ready; eassumption.
Qed.

Lemma on_page_invariant pev (s : System) :
  system_invariant s -> system_invariant (system_step (OnPage pev) s).
Proof.
  intros [Hfl Hid Hph Hca].
  pose proof (page_step_flight pev (page s)) as Hf.
  rewrite in_flight_split in Hfl, Hid.
  assert (Hw : forall w',
    match the_worker s with
    | Some w => Some w
    | None => if worker (vars (page_step pev (page s))) then Some worker_start else None
    end = Some w' ->
    length (w_tasks w') + length (w_outbox w') =
      match the_worker s with
      | Some w => length (w_tasks w) + length (w_outbox w)
      | None => 0
      end /\ worker_phase (page_step pev (page s)) w').
  { intros w' Hw'. destruct (the_worker s) as [w|] eqn:Hs.
    - injection Hw' as <-. split; [reflexivity|].
      eapply worker_phase_flight; [exact Hf|]. apply Hph. reflexivity.
    - destruct (worker (vars (page_step pev (page s)))); [|discriminate].
      injection Hw' as <-. split; [reflexivity|]. apply phase_fresh; reflexivity. }
  assert (Hn : in_flight (system_step (OnPage pev) s) =
    page_in_flight (page_step pev (page s))
    + match the_worker s with
      | Some w => length (w_tasks w) + length (w_outbox w)
      | None => 0
      end).
  { rewrite in_flight_split. simpl. f_equal.
    destruct (the_worker s) as [w|]; [reflexivity|].
    destruct (worker (vars (page_step pev (page s)))); reflexivity. }
  split.
  - rewrite Hn. destruct Hf as [Ha Hb|Ha Hb Hc|Ha Hb]; try lia.
    specialize (Hid Ha). lia.
  - rewrite Hn. simpl. intros Hp'. destruct Hf as [Ha Hb|Ha Hb Hc|Ha Hb].
    + rewrite Ha in Hp'. specialize (Hid Hp'). lia.
    + congruence.
    + lia.
  - simpl. intros w' Hw'. apply Hw, Hw'.
  - simpl. apply page_step_calls, Hca.
Qed.

Lemma to_worker_invariant (s : System) :
  system_invariant s -> system_invariant (system_step ToWorker s).
Proof.
  intros Hs. pose proof Hs as [Hfl Hid Hph Hca]. simpl.
  destruct (the_worker s) as [w|] eqn:Hw; [|exact Hs].
  destruct (m_outbox (page s)) as [|e rest] eqn:Ho; [exact Hs|].
  specialize (Hph w eq_refl).
  rewrite in_flight_split in Hfl, Hid. rewrite Hw in Hfl, Hid.
  unfold page_in_flight in Hfl, Hid. rewrite Ho in Hfl, Hid. simpl in Hfl, Hid.
  assert (Hb : isProcessing (vars (page s)) = true).
  { destruct (isProcessing (vars (page s))); [reflexivity|]. specialize (Hid eq_refl). lia. }
  destruct Hph as [H1 H2 H3 H4 H5|e0 H1 H2 H3 H4 H5|H1 H2 H3 H4 H5 H6 H7|l cs H1 H2 H3 H4 H5].
  - (* the first request: init() is called *)
    unfold deliver. rewrite H3. split; simpl.
    + unfold in_flight, page_in_flight in *. simpl. rewrite H4, H5, length_app. simpl in *. lia.
    + simpl. congruence.
    + intros w' [= <-]. eapply phase_initialising; simpl; rewrite ?H1, ?H4; eauto.
    + exact Hca.
  - rewrite H4 in Hfl. simpl in Hfl. lia.
  - unfold page_in_flight in H7. rewrite Ho in H7. simpl in H7. lia.
  - unfold deliver. rewrite H3. destruct H4 as [p Hp].
    destruct (string_dec (req_type e) "process_gif") as [Ht|Ht].
    + unfold exec. rewrite (onmessage_body_outcome e w l p Ht H3 Hp). split; simpl.
      * unfold in_flight, page_in_flight. simpl. rewrite length_app. simpl. lia.
      * simpl. congruence.
      * intros w' [= <-]. eapply phase_ready; simpl.
        -- rewrite H1. reflexivity.
        -- apply Forall_app. split; [exact H2|apply export_outcome_calls].
        -- reflexivity.
        -- rewrite list_lookup_insert_eq by (eapply lookup_lt_Some; eauto). eauto.
        -- exact H5.
      * exact Hca.
    + unfold exec. rewrite (onmessage_body_other e w Ht). split; simpl.
      * unfold in_flight, page_in_flight. simpl. lia.
      * simpl. congruence.
      * intros w' [= <-]. eapply phase_ready; eauto.
      * exact Hca.
Qed.

Lemma init_settled_invariant i ok (s : System) :
  system_invariant s -> system_invariant (system_step (InWorker_InitSettled i ok) s).
Proof.
  intros Hs. pose proof Hs as [Hfl Hid Hph Hca]. simpl.
  destruct (the_worker s) as [w|] eqn:Hw; [|destruct s; simpl in *; subst; exact Hs].
  specialize (Hph w eq_refl). simpl.
  rewrite in_flight_split in Hfl, Hid. rewrite Hw in Hfl, Hid.
  assert (Hsame : init_settled i ok w = w -> system_invariant
            {| page := page s; the_worker := Some (init_settled i ok w) |}).
  { intros ->. destruct s; simpl in *; subst; exact Hs. }
  destruct Hph as [H1 H2 H3 H4 H5|e0 H1 H2 H3 H4 H5|H1 H2 H3 H4 H5 H6 H7|l cs H1 H2 H3 H4 H5].
  - apply Hsame. unfold init_settled. rewrite H4. reflexivity.
  - destruct i as [|i].
    2:{ apply Hsame. unfold init_settled. rewrite H4. reflexivity. }
    rewrite H4, H5 in Hfl, Hid. simpl in Hfl, Hid.
    assert (Hb : isProcessing (vars (page s)) = true).
    { destruct (isProcessing (vars (page s))); [reflexivity|]. specialize (Hid eq_refl). lia. }
    unfold init_settled. rewrite H4. simpl. destruct ok; simpl.
    + unfold new_object. rewrite H1, H2. simpl. split; simpl.
      * unfold in_flight, page_in_flight in *. simpl. rewrite H5. simpl. lia.
      * congruence.
      * intros w' [= <-]. eapply phase_ready; simpl; eauto.
      * exact Hca.
    + split; simpl.
      * unfold in_flight, page_in_flight in *. simpl. rewrite H5. simpl. lia.
      * congruence.
      * intros w' [= <-]. unfold w_set_tasks. simpl.
        apply phase_failed; simpl; auto. unfold page_in_flight in *. lia.
      * exact Hca.
  - apply Hsame. unfold init_settled. rewrite H4. reflexivity.
  - apply Hsame. unfold init_settled.
    destruct (w_tasks w !! i) as [[e|e]|] eqn:Hi; try reflexivity.
    rewrite Forall_lookup in H5. specialize (H5 i _ Hi). discriminate.
Qed.

Lemma resume_invariant i (s : System) :
  system_invariant s -> system_invariant (system_step (InWorker_Resume i) s).
Proof.
  intros Hs. pose proof Hs as [Hfl Hid Hph Hca]. simpl.
  destruct (the_worker s) as [w|] eqn:Hw; [|destruct s; simpl in *; subst; exact Hs].
  specialize (Hph w eq_refl). simpl.
  rewrite in_flight_split in Hfl, Hid. rewrite Hw in Hfl, Hid.
  assert (Hsame : resume i w = w -> system_invariant
            {| page := page s; the_worker := Some (resume i w) |}).
  { intros ->. destruct s; simpl in *; subst; exact Hs. }
  destruct Hph as [H1 H2 H3 H4 H5|e0 H1 H2 H3 H4 H5|H1 H2 H3 H4 H5 H6 H7|l cs H1 H2 H3 H4 H5].
  - apply Hsame. unfold resume. rewrite H4. reflexivity.
  - apply Hsame. unfold resume. rewrite H4. destruct i; reflexivity.
  - apply Hsame. unfold resume. rewrite H4. reflexivity.
  - unfold resume. destruct (w_tasks w !! i) as [[e|e]|] eqn:Hi;
      try (destruct s; simpl in *; subst; exact Hs).
    pose proof (length_delete (w_tasks w) i (mk_is_Some _ _ Hi)) as Hlen.
    pose proof (lookup_lt_Some _ _ _ Hi) as Hlt.
    destruct H4 as [p Hp].
    set (w1 := w_set_tasks (delete i (w_tasks w)) w).
    assert (Hb : isProcessing (vars (page s)) = true).
    { destruct (isProcessing (vars (page s))); [reflexivity|]. specialize (Hid eq_refl). lia. }
    destruct (string_dec (req_type e) "process_gif") as [Ht|Ht].
    + unfold exec. rewrite (onmessage_body_outcome e w1 l p Ht H3 Hp). split; simpl.
      * unfold in_flight, page_in_flight in *. simpl. rewrite length_app. simpl. lia.
      * congruence.
      * intros w' [= <-]. eapply phase_ready; simpl.
        -- rewrite H1. reflexivity.
        -- apply Forall_app. split; [exact H2|apply export_outcome_calls].
        -- reflexivity.
        -- rewrite list_lookup_insert_eq by (eapply lookup_lt_Some; eauto). eauto.
        -- apply Forall_delete, H5.
      * exact Hca.
    + unfold exec. rewrite (onmessage_body_other e w1 Ht). split; simpl.
      * unfold in_flight, page_in_flight in *. simpl. lia.
      * congruence.
      * intros w' [= <-]. eapply phase_ready; simpl; eauto. apply Forall_delete, H5.
      * exact Hca.
Qed.

Lemma to_page_invariant (s : System) :
  system_invariant s -> system_invariant (system_step ToPage s).
Proof.
  intros Hs. pose proof Hs as [Hfl Hid Hph Hca]. simpl.
  destruct (the_worker s) as [w|] eqn:Hw; [|exact Hs].
  destruct (w_outbox w) as [|m rest] eqn:Ho; [exact Hs|].
  specialize (Hph w eq_refl).
  rewrite in_flight_split in Hfl, Hid. rewrite Hw, Ho in Hfl, Hid. simpl in Hfl, Hid.
  pose proof (worker_onmessage_keeps_queues m _ (page s) eq_refl) as Hq.
  injection Hq as Hq1 Hq2.
  assert (Hpf : page_in_flight (exec (worker_onmessage m) (page s)) = page_in_flight (page s)).
  { unfold page_in_flight, exec. rewrite Hq1, Hq2. reflexivity. }
  destruct Hph as [H1 H2 H3 H4 H5|e0 H1 H2 H3 H4 H5|H1 H2 H3 H4 H5 H6 H7|l cs H1 H2 H3 H4 H5];
    try congruence.
  split; simpl.
  - rewrite in_flight_split. simpl. lia.
  - intros _. rewrite in_flight_split. simpl. lia.
  - intros w' [= <-]. eapply phase_ready; simpl; eauto.
  - apply worker_onmessage_calls, Hca.
Qed.

Lemma system_step_invariant ev (s : System) :
  system_invariant s -> system_invariant (system_step ev s).
Proof.
  destruct ev.
  - apply on_page_invariant.
  - apply to_worker_invariant.
  - apply init_settled_invariant.
  - apply resume_invariant.
  - apply to_page_invariant.
Qed.

Lemma system_run_invariant evs (s : System) :
  system_invariant s -> system_invariant (system_run evs s).
Proof.
  revert s. induction evs as [|ev evs IH]; intros s Hs; simpl; [exact Hs|].
  apply IH, system_step_invariant, Hs.
Qed.

Lemma reachable_invariant (s : System) : reachable s -> system_invariant s.
Proof. intros [evs ->]. apply system_run_invariant, system_start_invariant. Qed.

End SystemInvariant.

(** ** The claims about the export protocol *)

Section ExportProtocol.
Context {E : Engine}.

(** X1: once its engine exists, the worker answers a ['process_gif'] request with
    exactly one message, the outcome of the two engine calls. *)
Lemma initialised_worker_replies_once (e : WorkerRequest) (w : Worker) l p :
  req_type e = "process_gif" ->
  w_gifProcessor w = Some l ->
  heap (w_realm w) !! l = Some p ->
  fst (onmessage_body e w) = Normal tt /\
  w_outbox (exec (onmessage_body e) w) = w_outbox w ++ [snd (export_outcome l p e)] /\
  w_tasks (exec (onmessage_body e) w) = w_tasks w.
Proof.
  intros Ht Hl Hp. unfold exec. rewrite (onmessage_body_outcome e w l p Ht Hl Hp).
  repeat split.
Qed.

(** C1, at the input where the code parts from it: a ['process_gif'] request
    reaches a worker that has no engine yet, and the promise of [init()] is
    rejected.  The rejection leaves [self.onmessage] before its [try]: nothing
    is posted, neither ['gif_processed'] nor ['error'], and the request is
    forgotten. *)
Theorem init_rejection_leaves_request_unanswered (gifData : bytes) (textData : TextData) :
  let e := {| req_type := "process_gif"; req_gifData := gifData; req_textData := textData |} in
  let w := worker_run [Deliver e; InitSettled 0 false] worker_start in
  w_outbox w = [] /\ w_tasks w = [] /\ w_gifProcessor w = None /\
  calls (w_realm w) = [CallInit].
Proof. repeat split. Qed.

(** C2: the preview engine, the processed-preview engine and the worker's
    engine are three objects, the first two distinct references of the page's
    realm and the third in the worker's own realm; the steps of the worker
    leave the page's realm as it is; and, [prepare_text_overlay] being a method
    that leaves its object as it is, every step of an export leaves the object
    of the preview engine as it is. *)
Theorem export_leaves_preview_engine_untouched (s : System) (ev : SystemEvent) :
  (forall p text x y size font, fst (prepare_text_overlay p text x y size font) = p) ->
  gifProcessor <> processedGifProcessor /\
  (is_worker_event ev = true ->
   m_realm (page (system_step ev s)) = m_realm (page s)) /\
  (is_export_event s ev = true ->
   heap (m_realm (page (system_step ev s))) !! gifProcessor =
   heap (m_realm (page s)) !! gifProcessor).
Proof.
  intros Hpure. split; [apply page_objects_distinct|]. split.
  - destruct ev as [pev| | | |]; simpl; try discriminate; intros _; try reflexivity.
    destruct (the_worker s); [|reflexivity].
    destruct (m_outbox (page s)); reflexivity.
  - destruct ev as [pev| | | |]; cbn [is_export_event system_step page]; try reflexivity.
    + destruct pev as [file| |i ok|h ts|which value| |]; cbn [page_step]; try discriminate.
      * destruct (m_tasks (page s) !! i) as [[file|file t]|] eqn:Hi; try discriminate.
        intros _.
        match goal with
        | |- context [exec (processButton_click_read ?r t) ?p1] =>
            destruct (processButton_click_read_effect r t p1) as [gifData Hp|H1 H2 H3 H4]
        end.
        -- unfold exec. rewrite Hp. reflexivity.
        -- unfold exec. rewrite H4. reflexivity.
      * intros _. destruct (processButton_click_effect (page s)) as (_ & Hc).
        unfold exec.
        assert (Hsame : forall p p' r, heap (m_realm (page s)) !! gifProcessor = Some p ->
                  prepare_from_controls (doc (page s)) p = (p', r) ->
                  <[gifProcessor := p']> (heap (m_realm (page s))) !! gifProcessor = Some p).
        { intros p p' r Hp Hprep.
          rewrite list_lookup_insert_eq by (eapply lookup_lt_Some, Hp).
          f_equal. apply (f_equal fst) in Hprep. simpl in Hprep. rewrite <- Hprep.
          unfold prepare_from_controls. apply Hpure. }
        destruct Hc as [_ ->|file q q' t _ _ Hq Hp Hh _ _ _ _ _ _
                       |q q' err _ Hq Hp Hh _ _ _|_ _ Hh _ _ _].
        -- reflexivity.
        -- rewrite Hh, Hq. eapply Hsame; eauto.
        -- rewrite Hh, Hq. eapply Hsame; eauto.
        -- rewrite Hh. reflexivity.
    + intros _. destruct (the_worker s); [|reflexivity].
      destruct (m_outbox (page s)); reflexivity.
    + intros _. destruct (the_worker s) as [w|]; [|reflexivity].
      destruct (w_outbox w) as [|m rest]; [reflexivity|]. simpl.
      apply (worker_onmessage_keeps_preview_engine m _ (page s) eq_refl).
Qed.

Lemma app_singleton_neq {A} (l : list A) x : l <> l ++ [x].
Proof.
  intros H. apply (f_equal length) in H. rewrite length_app in H. simpl in H. lia.
Qed.

End ExportProtocol.

(** ** The claims about the preview loop and the page *)

Section PreviewLoop.
Context {E : Engine}.

Lemma calls_since_app (r r' : Realm) cs :
  calls r' = calls r ++ cs -> calls_since r r' = cs.
Proof. intros H. unfold calls_since. rewrite H. apply drop_app_length. Qed.





End PreviewLoop.

Section PageClaims.
Context {E : Engine}.


(** C7: on an ['error'] message of the worker the page shows the alert,
    enables the process button under its label 'Process GIF', clears
    [isProcessing] and restarts the animation: the two requests it held are
    cancelled and both callbacks are requested anew. *)
Theorem worker_error_resets_ui (s : Main) (err : string) :
  let s' := exec (worker_onmessage (error err)) s in
  alerts (doc s') = alerts (doc s) ++ ["Error processing GIF. Please try again."] /\
  processButton (doc s') = {| disabled := false; textContent := "Process GIF" |} /\
  isProcessing (vars s') = false /\
  animationFrameId (vars s') = Some (next_request s) /\
  processedAnimationFrameId (vars s') = Some (S (next_request s)) /\
  requests s' = restarted s.
Proof.
  destruct s as [r [cf pd pu wk id pid lt lpt ip] d rq nx tk ob].
  unfold restarted, exec, worker_onmessage, startAnimation. simpl.
  destruct id as [[|h]|], pid as [[|h']|]; simpl; rewrite <- ?app_assoc;
    repeat split; reflexivity.
Qed.

Lemma click_guard (s : Main) :
  currentFile (vars s) = None \/ isProcessing (vars s) = true ->
  processButton_click s = (Normal tt, s).
Proof.
  intros H. unfold processButton_click, bind, var, gets. simpl.
  destruct (currentFile (vars s)) as [f|]; [|reflexivity].
  destruct H as [H|H]; [discriminate|]. rewrite H. reflexivity.
Qed.

(** C8: in every state the page and its worker can reach, at most one export
    is in flight, and none when [isProcessing] is false; a click on the
    process button while [isProcessing] is true, or while no file is loaded,
    returns at once and leaves every variable, the document and the queue to
    the worker as they were. *)
Theorem at_most_one_export_in_flight (s : System) :
  reachable s ->
  in_flight s <= 1 /\
  (isProcessing (vars (page s)) = false -> in_flight s = 0) /\
  (currentFile (vars (page s)) = None \/ isProcessing (vars (page s)) = true ->
   processButton_click (page s) = (Normal tt, page s)).
Proof.
  intros Hr. apply reachable_invariant in Hr. destruct Hr as [Hfl Hid _ _].
  repeat split; [exact Hfl | exact Hid | apply click_guard].
Qed.

Lemma worker_phase_calls (p : Main) (w : Worker) :
  worker_phase p w -> Forall worker_call (calls (w_realm w)).
Proof.
  intros [H1 _ _ _ _|e H1 _ _ _ _|H1 _ _ _ _ _ _|l rest H1 H2 _ _ _]; rewrite H1.
  - constructor.
  - repeat constructor.
  - repeat constructor.
  - repeat constructor. eapply Forall_impl; [exact H2|].
    intros c. destruct c; simpl; tauto.
Qed.

Lemma worker_phase_once (p : Main) (w : Worker) : worker_phase p w -> initialised_once w.
Proof.
  intros [H1 _ H3 _ _|e H1 _ H3 _ _|H1 _ H3 _ _ _ _|l rest H1 H2 H3 _ _].
  - apply no_message_yet; assumption.
  - apply init_called; assumption.
  - apply init_called; assumption.
  - eapply init_done; eassumption.
Qed.

Lemma worker_phase_sound (p : Main) (w : Worker) : worker_phase p w -> worker_sound w.
Proof.
  intros Hp. split.
  - destruct Hp as [_ _ H3 _ _|e _ _ H3 _ _|_ _ H3 _ _ _ _|l rest _ _ H3 H4 _];
      intros l' Hl; congruence.
  - destruct Hp as [_ _ _ H4 _|e _ _ _ H4 _|_ _ _ H4 _ _ _|l rest _ _ H3 _ _];
      intros Hn; first [rewrite H4; repeat constructor | congruence].
  - eapply Forall_impl; [eapply worker_phase_calls, Hp|].
    intros c. destruct c; simpl; tauto.
Qed.

End PageClaims.

(** ** The worker's protocol against the single operation of the specification *)

Section Refinement.
Variables (Document CaptionSpec ProcessingError Number : Type).
Variable decode : bytes -> ProcessingError + Document.
Variable caption_and_encode : Document -> CaptionSpec -> ProcessingError + bytes.
Variable prepare_caption : string -> Number -> Number -> Number -> string -> CaptionSpec.
Variable dimensions : Document -> Dimensions.
Variable delays : Document -> list Z.
Variable no_document : ProcessingError.
Variable describe : ProcessingError -> string.
Variables (parse_int parse_float : string -> Number) (number_of_Z : Z -> Number).
Variables (divide multiply : Number -> Number -> Number).

Local Abbreviation SE :=
  (spec_engine Document CaptionSpec ProcessingError Number decode caption_and_encode
     prepare_caption dimensions delays no_document describe parse_int parse_float
     number_of_Z divide multiply).

(** C4: over the engine of the specification, whatever state the worker's
    shared processor is in, a ['process_gif'] request makes the worker post
    exactly the result of [export_with_caption] on the request's bytes and
    caption, as ['gif_processed'] with the bytes or as ['error'] with the
    error's text. *)
Theorem worker_protocol_is_export_with_caption
    (w : @Worker SE) (e : @WorkerRequest SE) (l : loc) :
  req_type e = "process_gif" ->
  w_gifProcessor w = Some l ->
  is_Some (heap (w_realm w) !! l) ->
  fst (onmessage_body e w) = Normal tt /\
  w_outbox (exec (onmessage_body e) w) =
    w_outbox w ++
    [reply_of ProcessingError describe
       (export_with_caption Document CaptionSpec ProcessingError decode caption_and_encode
          (req_gifData e) (req_textData e))] /\
  w_tasks (exec (onmessage_body e) w) = w_tasks w.
Proof.
  intros Ht Hl [p Hp]. unfold exec.
  rewrite (@onmessage_body_outcome SE e w l p Ht Hl Hp). simpl.
  repeat split. f_equal. f_equal.
  unfold export_outcome, export_with_caption. simpl. unfold load.
  destruct (decode (req_gifData e)) as [err|d]; simpl; [reflexivity|].
  destruct (caption_and_encode d (req_textData e)) as [err|r]; reflexivity.
Qed.

End Refinement.

(** ** The theorems at work on the small engine *)

Lemma worker_protocol_is_export_with_caption_witness :
  (req_type toy_request = "process_gif" /\
   w_gifProcessor toy_worker = Some 0 /\
   is_Some (heap (w_realm toy_worker) !! 0)) /\
  w_outbox (exec (onmessage_body toy_request) toy_worker) =
    [gif_processed [x05; x0a; x2a]%byte].
Proof.
  split.
  - repeat split. eexists. reflexivity.
  - apply (worker_protocol_is_export_with_caption bytes string string Z
             toy_decode toy_export (fun text _ _ _ _ => text)
             (fun d => {| width := 4; height := 4 |})
             (fun d => map (fun b => Z.of_N (Byte.to_N b)) d)
             "no document" (fun e => e)
             (fun _ => 0%Z) (fun _ => 0%Z) (fun z => z) Z.div Z.mul
             toy_worker toy_request 0).
    + reflexivity.
    + reflexivity.
    + eexists. reflexivity.
Defined.

Lemma toy_exporting_reachable : @reachable toy_engine toy_exporting.
Proof.
  exists [OnPage (FileChosen toy_file); OnPage (ReadSettled 0 true);
          OnPage (ControlEdited captionText_control "HELLO");
          OnPage ProcessClick; OnPage (ReadSettled 0 true)].
  vm_compute. reflexivity.
Defined.

Lemma toy_answered_reachable : @reachable toy_engine toy_answered.
Proof.
  exists [OnPage (FileChosen toy_file); OnPage (ReadSettled 0 true);
          OnPage (ControlEdited captionText_control "HELLO");
          OnPage ProcessClick; OnPage (ReadSettled 0 true);
          ToWorker; InWorker_InitSettled 0 true; InWorker_Resume 0].
  vm_compute. reflexivity.
Defined.

Lemma at_most_one_export_in_flight_witness :
  @reachable toy_engine toy_exporting /\
  (in_flight toy_exporting <= 1 /\
   (isProcessing (vars (page toy_exporting)) = false -> in_flight toy_exporting = 0) /\
   (currentFile (vars (page toy_exporting)) = None \/
    isProcessing (vars (page toy_exporting)) = true ->
    processButton_click (page toy_exporting) = (Normal tt, page toy_exporting))).
Proof.
  split; [exact toy_exporting_reachable|].
  exact (at_most_one_export_in_flight toy_exporting toy_exporting_reachable).
Defined.

Lemma export_leaves_preview_engine_untouched_witness :
  (forall p text x y size font,
     fst (@prepare_text_overlay toy_engine p text x y size font) = p) /\
  heap (m_realm (page (@system_step toy_engine (OnPage ProcessClick) toy_loaded)))
    !! @gifProcessor toy_engine =
  heap (m_realm (page toy_loaded)) !! @gifProcessor toy_engine.
Proof.
  assert (H : forall p text x y size font,
            fst (@prepare_text_overlay toy_engine p text x y size font) = p)
    by (intros; reflexivity).
  split; [exact H|].
  apply (export_leaves_preview_engine_untouched toy_loaded (OnPage ProcessClick) H).
  reflexivity.
Defined.

Lemma initialised_worker_replies_once_witness :
  (req_type toy_request = "process_gif" /\
   w_gifProcessor toy_worker = Some 0 /\
   heap (w_realm toy_worker) !! 0 = Some (Idle bytes : @Proc toy_engine)) /\
  w_outbox (exec (onmessage_body toy_request) toy_worker) =
    w_outbox toy_worker ++
    [snd (@export_outcome toy_engine 0 (Idle bytes) toy_request)].
Proof.
  assert (H : req_type toy_request = "process_gif" /\
              w_gifProcessor toy_worker = Some 0 /\
              heap (w_realm toy_worker) !! 0 = Some (Idle bytes : @Proc toy_engine))
    by (repeat split).
  split; [exact H|].
  apply (@initialised_worker_replies_once toy_engine toy_request toy_worker 0 (Idle bytes));
    apply H.
Defined.

(** The preview loop on the small engine: the first tick only records its
    time, a tick 40 ms later is too early for a delay of 5 centiseconds, a
    tick 51 ms later advances the cursor. *)
Example preview_loop_example :
  let s := page (system_run [OnPage (AnimationFrame 1 1000%Q);
                             OnPage (AnimationFrame 3 1040%Q)] toy_loaded) in
  let s' := page_step (AnimationFrame 4 1051%Q) s in
  heap (m_realm s) !! @gifProcessor toy_engine
    = Some (Ready bytes [x05; x0a]%byte 0 : @Proc toy_engine) /\
  heap (m_realm s') !! @gifProcessor toy_engine
    = Some (Ready bytes [x05; x0a]%byte 1 : @Proc toy_engine) /\
  lastFrameTime (vars s') = 1051%Q.
Proof. vm_compute. repeat split. Qed.

(** * The round-trip law of the LZW codec *)

Module LzwFacts.
Import Lzw.

(** ** Bits *)

Lemma length_to_bits width n : length (to_bits width n) = width.
Proof. revert n. induction width as [|w IH]; intros n; simpl; [|rewrite IH]; reflexivity. Qed.

Lemma of_bits_to_bits width n : n < 2 ^ width -> of_bits (to_bits width n) = n.
Proof.
  revert n. induction width as [|w IH]; intros n Hn; simpl in *.
  - lia.
  - pose proof (Nat.div2_odd n) as Hd.
    rewrite IH.
    + destruct (Nat.odd n); simpl in *; lia.
    + destruct (Nat.odd n); simpl in *; lia.
Qed.

Lemma take_to_bits width n tail : take width (to_bits width n ++ tail) = to_bits width n.
Proof. apply take_app_length'. symmetry. apply length_to_bits. Qed.

Lemma drop_to_bits width n tail : drop width (to_bits width n ++ tail) = tail.
Proof. apply drop_app_length'. symmetry. apply length_to_bits. Qed.

(** ** Widths *)

Lemma max_entries_pow : MAX_ENTRIES = 2 ^ MAX_WIDTH.
Proof. reflexivity. Qed.

Lemma le_pow_log2_up n : n <= 2 ^ Nat.log2_up n.
Proof.
  destruct (Nat.le_gt_cases n 1) as [H|H].
  - pose proof (Nat.pow_nonzero 2 (Nat.log2_up n)). lia.
  - apply Nat.log2_up_spec, H.
Qed.

Lemma le_pow_code_width depth size :
  size <= MAX_ENTRIES -> size <= 2 ^ code_width depth size.
Proof.
  intros Hs. unfold code_width.
  destruct (Nat.min_spec MAX_WIDTH (Nat.max (S depth) (Nat.log2_up size))) as [[_ ->]|[_ ->]].
  - rewrite <- max_entries_pow. exact Hs.
  - etransitivity; [apply le_pow_log2_up|].
    apply Nat.pow_le_mono_r; lia.
Qed.

Lemma code_width_ge depth size : depth < MAX_WIDTH -> S depth <= code_width depth size.
Proof. unfold code_width. lia. Qed.

Lemma eoi_lt_pow_code_width depth size :
  1 <= depth < MAX_WIDTH -> eoi_code depth < 2 ^ code_width depth size.
Proof.
  intros [H1 H2]. unfold eoi_code.
  assert (2 ^ S depth <= 2 ^ code_width depth size)
    by (apply Nat.pow_le_mono_r; [lia|apply code_width_ge, H2]).
  assert (2 ^ 1 <= 2 ^ depth) by (apply Nat.pow_le_mono_r; lia).
  simpl in *. lia.
Qed.

Lemma clear_lt_pow_code_width depth size :
  1 <= depth < MAX_WIDTH -> clear_code depth < 2 ^ code_width depth size.
Proof.
  intros H. pose proof (eoi_lt_pow_code_width depth size H). unfold eoi_code, clear_code in *. lia.
Qed.

(** ** The dictionary *)

Lemma index_of_Some w dict c : index_of w dict = Some c -> dict !! c = Some w.
Proof.
  revert c. induction dict as [|e dict IH]; intros c; simpl; [discriminate|].
  destruct (decide (e = w)) as [->|Hne].
  - intros [= <-]. reflexivity.
  - destruct (index_of w dict) as [i|]; simpl; [|discriminate].
    intros [= <-]. simpl. apply IH. reflexivity.
Qed.

Lemma index_of_app w dict more c :
  index_of w dict = Some c -> index_of w (dict ++ more) = Some c.
Proof.
  revert c. induction dict as [|e dict IH]; intros c; simpl; [discriminate|].
  destruct (decide (e = w)); [auto|].
  destruct (index_of w dict) as [i|]; simpl; [|discriminate].
  intros [= <-]. rewrite (IH i eq_refl). reflexivity.
Qed.

Lemma index_of_elem w dict : w ∈ dict -> is_Some (index_of w dict).
Proof.
  induction dict as [|e dict IH]; intros Hin; [inversion Hin|]. simpl.
  destruct (decide (e = w)); [eauto|].
  destruct IH as [i Hi]; [|rewrite Hi; simpl; eauto].
  inversion Hin; subst; [contradiction|assumption].
Qed.

Lemma length_initial_dictionary depth : length (initial_dictionary depth) = 2 ^ depth + 2.
Proof.
  unfold initial_dictionary. rewrite length_app, length_map, length_seq. reflexivity.
Qed.

Lemma initial_lookup_symbol depth x :
  x < 2 ^ depth -> initial_dictionary depth !! x = Some [x].
Proof.
  intros Hx. unfold initial_dictionary.
  rewrite lookup_app_l by (rewrite length_map, length_seq; exact Hx).
  rewrite list_lookup_fmap, lookup_seq_lt by exact Hx. reflexivity.
Qed.

Lemma initial_lookup_clear depth : initial_dictionary depth !! clear_code depth = Some [].
Proof.
  unfold initial_dictionary, clear_code.
  rewrite lookup_app_r by (rewrite length_map, length_seq; lia).
  rewrite length_map, length_seq, Nat.sub_diag. reflexivity.
Qed.

Lemma initial_lookup_eoi depth : initial_dictionary depth !! eoi_code depth = Some [].
Proof.
  unfold initial_dictionary, eoi_code.
  rewrite lookup_app_r by (rewrite length_map, length_seq; lia).
  rewrite length_map, length_seq.
  replace (S (2 ^ depth) - 2 ^ depth) with 1 by lia. reflexivity.
Qed.

Lemma initial_symbol_elem depth x : x < 2 ^ depth -> [x] ∈ initial_dictionary depth.
Proof. intros Hx. eapply list_elem_of_lookup_2, initial_lookup_symbol, Hx. Qed.


(** ** The decoder follows the encoder *)

Lemma in_sync_encoder_size depth dictE w dictD prev :
  in_sync depth dictE w dictD prev -> encoder_size dictD prev = length dictE.
Proof.
  intros [_ _ _ He]. unfold encoder_size. destruct prev as [p|].
  - destruct He as (s & c & _ & _ & -> & _). rewrite length_app. reflexivity.
  - subst. lia.
Qed.

Lemma in_sync_initial depth w :
  1 <= depth < MAX_WIDTH ->
  w = [] \/ (exists x, w = [x] /\ x < 2 ^ depth) ->
  in_sync depth (initial_dictionary depth) w (initial_dictionary depth) None.
Proof.
  intros [H1 H2] Hw. split.
  - exists []. rewrite app_nil_r. reflexivity.
  - rewrite length_initial_dictionary.
    assert (2 ^ depth <= 2 ^ 11) by (apply Nat.pow_le_mono_r; unfold MAX_WIDTH in *; lia).
    change (2 ^ 11) with 2048 in *. unfold MAX_ENTRIES. lia.
  - destruct Hw as [->|(x & -> & Hx)]; [left; reflexivity|right].
    apply index_of_elem, initial_symbol_elem, Hx.
  - reflexivity.
Qed.

Lemma in_sync_encoder_initial depth dictE w dictD prev :
  in_sync depth dictE w dictD prev -> exists more, dictE = initial_dictionary depth ++ more.
Proof.
  intros [[more ->] _ _ He]. destruct prev as [p|].
  - destruct He as (s & c & _ & _ & -> & _). eexists. rewrite <- app_assoc. reflexivity.
  - subst. eauto.
Qed.

(** The code the encoder writes for [w] is no reserved code, and the decoder
    reads it back as [w]. *)
Lemma in_sync_decode_code depth dictE w dictD prev c :
  in_sync depth dictE w dictD prev ->
  w <> [] ->
  index_of w dictE = Some c ->
  c < length dictE /\ c <> clear_code depth /\ c <> eoi_code depth /\
  exists dictD', decode_code dictD prev c = Some (w, dictD') /\
                 dictD' = dictE /\ dictD' !! c = Some w.
Proof.
  intros Hs Hw Hc. pose proof (index_of_Some _ _ _ Hc) as Hl.
  destruct (in_sync_encoder_initial _ _ _ _ _ Hs) as [more Hi].
  destruct Hs as [_ Hsize _ He].
  split; [eapply lookup_lt_Some, Hl|].
  split.
  { intros ->. rewrite Hi, lookup_app_l, initial_lookup_clear in Hl.
    - congruence.
    - rewrite length_initial_dictionary. unfold clear_code. lia. }
  split.
  { intros ->. rewrite Hi, lookup_app_l, initial_lookup_eoi in Hl.
    - congruence.
    - rewrite length_initial_dictionary. unfold eoi_code. lia. }
  destruct prev as [p|]; simpl.
  - destruct He as (s & x & Hp & Hne & HE & Hx). rewrite Hp. simpl.
    assert (Hlen : length dictE = S (length dictD)) by (rewrite HE, length_app; simpl; lia).
    assert (Hhd : hd 0 w = x) by (destruct w; simpl in *; congruence).
    destruct (decide (c < length dictD)) as [Hlt|Hge].
    + rewrite HE, lookup_app_l in Hl by exact Hlt. rewrite Hl. simpl.
      rewrite Hhd. rewrite decide_True by lia.
      eexists. split; [reflexivity|]. split; [symmetry; exact HE|].
      rewrite lookup_app_l by exact Hlt. exact Hl.
    + assert (Hceq : c = length dictD) by (apply lookup_lt_Some in Hl; lia).
      rewrite decide_True by exact Hceq. simpl.
      rewrite HE, Hceq, list_lookup_middle in Hl by reflexivity.
      injection Hl as Hw'.
      assert (Hs0 : hd 0 s = x).
      { rewrite <- Hw' in Hhd. destruct s; [contradiction|]. exact Hhd. }
      rewrite Hs0, Hw', Hhd. rewrite decide_True by lia.
      eexists. split; [reflexivity|]. split; [symmetry; exact HE|].
      rewrite Hceq, list_lookup_middle by reflexivity. congruence.
  - subst dictD. rewrite Hl. simpl. eauto.
Qed.


Lemma pack_cons width code codes tail :
  pack ((width, code) :: codes) ++ tail = to_bits width code ++ (pack codes ++ tail).
Proof. unfold pack. simpl. rewrite <- app_assoc. reflexivity. Qed.

Lemma decode_bits_step fuel depth dict prev width code tail :
  width = code_width depth (encoder_size dict prev) ->
  code < 2 ^ width ->
  decode_bits (S fuel) depth dict prev (to_bits width code ++ tail) =
    if decide (code = clear_code depth) then
      decode_bits fuel depth (initial_dictionary depth) None tail
    else if decide (code = eoi_code depth) then Some []
    else
      '(entry, dict') ← decode_code dict prev code;
      out ← decode_bits fuel depth dict' (Some code) tail;
      Some (entry ++ out).
Proof.
  intros -> Hc. cbn [decode_bits].
  rewrite decide_False by (rewrite length_app, length_to_bits; lia).
  rewrite take_to_bits, drop_to_bits, of_bits_to_bits by exact Hc. reflexivity.
Qed.

Lemma decode_bits_eoi fuel depth dict prev tail :
  1 <= depth < MAX_WIDTH ->
  decode_bits (S fuel) depth dict prev
    (to_bits (code_width depth (encoder_size dict prev)) (eoi_code depth) ++ tail) = Some [].
Proof.
  intros Hd. rewrite decode_bits_step by (auto using eoi_lt_pow_code_width).
  rewrite decide_False by (unfold eoi_code, clear_code; lia).
  rewrite decide_True by reflexivity. reflexivity.
Qed.

Lemma decode_bits_clear fuel depth dict prev tail :
  1 <= depth < MAX_WIDTH ->
  decode_bits (S fuel) depth dict prev
    (to_bits (code_width depth (encoder_size dict prev)) (clear_code depth) ++ tail) =
  decode_bits fuel depth (initial_dictionary depth) None tail.
Proof.
  intros Hd. rewrite decode_bits_step by (auto using clear_lt_pow_code_width).
  rewrite decide_True by reflexivity. reflexivity.
Qed.

(** Reading the code of [w]: the decoder yields [w] and holds the encoder's
    dictionary. *)
Lemma decode_bits_matched fuel depth dictE w dictD prev c tail :
  in_sync depth dictE w dictD prev ->
  w <> [] ->
  index_of w dictE = Some c ->
  dictE !! c = Some w /\
  decode_bits (S fuel) depth dictD prev
    (to_bits (code_width depth (length dictE)) c ++ tail) =
  out ← decode_bits fuel depth dictE (Some c) tail; Some (w ++ out).
Proof.
  intros Hs Hw Hc.
  destruct (in_sync_decode_code _ _ _ _ _ _ Hs Hw Hc)
    as (Hlt & Hnc & Hne & dictD' & Hdec & -> & Hl).
  split; [exact Hl|].
  rewrite decode_bits_step.
  - rewrite decide_False by exact Hnc. rewrite decide_False by exact Hne.
    rewrite Hdec. reflexivity.
  - rewrite (in_sync_encoder_size _ _ _ _ _ Hs). reflexivity.
  - pose proof (le_pow_code_width depth (length dictE)) as Hp.
    destruct Hs as [_ Hsize _ _]. lia.
Qed.

Ltac width_pos H :=
  simpl;
  match goal with
  | |- 0 < code_width ?d ?n => pose proof (H n); lia
  end.

Lemma decode_encode_from depth :
  1 <= depth < MAX_WIDTH ->
  forall pixels dictE w dictD prev,
    Forall (fun x => x < 2 ^ depth) pixels ->
    in_sync depth dictE w dictD prev ->
    exists codes,
      encode_from depth dictE w pixels = Some codes /\
      Forall (fun c => 0 < fst c) codes /\
      forall fuel tail,
        length codes <= fuel ->
        decode_bits fuel depth dictD prev (pack codes ++ tail) = Some (w ++ pixels).
Proof.
  intros Hd. pose proof (code_width_ge depth) as Hwidth.
  induction pixels as [|x rest IH]; intros dictE w dictD prev Hpx Hs.
  - (* the flush *)
    destruct w as [|y w'] eqn:Hw.
    + eexists. split; [reflexivity|]. split; [constructor; [width_pos Hwidth|constructor]|].
      intros [|fuel] tail Hf; simpl in Hf; [lia|].
      rewrite pack_cons, <- (in_sync_encoder_size _ _ _ _ _ Hs).
      apply decode_bits_eoi, Hd.
    + rewrite <- Hw in *. assert (Hne : w <> []) by (rewrite Hw; discriminate).
      destruct (sync_matched _ _ _ _ _ Hs) as [?|[c Hc]]; [contradiction|].
      exists [(code_width depth (length dictE), c);
              (code_width depth (S (length dictE)), eoi_code depth)].
      split; [rewrite Hw in *; simpl; rewrite Hc; reflexivity|].
      split; [constructor; [width_pos Hwidth|constructor; [width_pos Hwidth|constructor]]|].
      intros [|[|fuel]] tail Hf; simpl in Hf; try lia.
      rewrite pack_cons.
      destruct (decode_bits_matched (S fuel) _ _ _ _ _ _
                  (pack [(code_width depth (S (length dictE)), eoi_code depth)] ++ tail)
                  Hs Hne Hc) as [_ ->].
      rewrite pack_cons.
      replace (S (length dictE)) with (encoder_size dictE (Some c))
        by (unfold encoder_size; lia).
      rewrite decode_bits_eoi by exact Hd. simpl. rewrite app_nil_r. reflexivity.
  - apply Forall_cons in Hpx as [Hx Hrest].
    destruct (in_sync_encoder_initial _ _ _ _ _ Hs) as [moreE HE].
    assert (Hsym : is_Some (index_of [x] dictE)).
    { apply index_of_elem. rewrite HE. apply elem_of_app. left.
      apply initial_symbol_elem, Hx. }
    destruct w as [|y w'] eqn:Hw.
    + (* the first pixel after the start *)
      assert (Hs' : in_sync depth dictE [x] dictD prev).
      { destruct Hs as [H1 H2 H3 H4].
        split; [exact H1 | exact H2 | right; exact Hsym |].
        destruct prev as [p|]; [|exact H4].
        destruct H4 as (s & c & _ & _ & _ & Hhd). discriminate. }
      destruct (IH _ _ _ _ Hrest Hs') as (codes & Henc & Hw0 & Hdec).
      exists codes. split; [exact Henc|]. split; [exact Hw0|]. exact Hdec.
    + rewrite <- Hw in *. assert (Hne : w <> []) by (rewrite Hw; discriminate).
      assert (Henc0 : encode_from depth dictE w (x :: rest) =
        match index_of (w ++ [x]) dictE with
        | Some _ => encode_from depth dictE (w ++ [x]) rest
        | None =>
            c ← index_of w dictE;
            if decide (S (length dictE) = MAX_ENTRIES) then
              more ← encode_from depth (initial_dictionary depth) [x] rest;
              Some ((code_width depth (length dictE), c)
                    :: (code_width depth MAX_ENTRIES, clear_code depth) :: more)
            else
              more ← encode_from depth (dictE ++ [w ++ [x]]) [x] rest;
              Some ((code_width depth (length dictE), c) :: more)
        end) by (rewrite Hw; reflexivity).
      rewrite Henc0. clear Henc0.
      destruct (index_of (w ++ [x]) dictE) as [c'|] eqn:Hwx.
      * (* the match grows *)
        assert (Hs' : in_sync depth dictE (w ++ [x]) dictD prev).
        { destruct Hs as [H1 H2 H3 H4].
          split; [exact H1 | exact H2 | right; rewrite Hwx; eauto |].
          destruct prev as [p|]; [|exact H4].
          destruct H4 as (s & c & Hp & Hsne & Hdict & Hhd).
          exists s, c. repeat split; auto.
          destruct w; [contradiction|exact Hhd]. }
        destruct (IH _ _ _ _ Hrest Hs') as (codes & Henc & Hw0 & Hdec).
        exists codes. split; [exact Henc|]. split; [exact Hw0|].
        intros fuel tail Hf. rewrite (Hdec fuel tail Hf), <- app_assoc. reflexivity.
      * (* the match ends: its code is written, the entry added *)
        destruct (sync_matched _ _ _ _ _ Hs) as [?|[c Hc]]; [contradiction|].
        rewrite Hc. simpl.
        destruct (decide (S (length dictE) = MAX_ENTRIES)) as [Hfull|Hroom].
        -- (* the dictionary is full: Clear, and the encoder starts over *)
           assert (Hs' : in_sync depth (initial_dictionary depth) [x]
                           (initial_dictionary depth) None)
             by (apply in_sync_initial; eauto).
           destruct (IH _ _ _ _ Hrest Hs') as (codes & Henc & Hw0 & Hdec).
           rewrite Henc. simpl. eexists. split; [reflexivity|].
           split; [constructor; [width_pos Hwidth|constructor; [width_pos Hwidth|exact Hw0]]|].
           intros [|[|fuel]] tail Hf; simpl in Hf; try lia.
           rewrite pack_cons.
           destruct (decode_bits_matched (S fuel) _ _ _ _ _ _
                       (pack ((code_width depth MAX_ENTRIES, clear_code depth) :: codes)
                        ++ tail) Hs Hne Hc) as [_ ->].
           rewrite pack_cons.
           replace MAX_ENTRIES with (encoder_size dictE (Some c))
             by (unfold encoder_size; lia).
           rewrite decode_bits_clear by exact Hd.
           rewrite Hdec by lia. reflexivity.
        -- (* there is room: the encoder is one entry ahead *)
           destruct (decode_bits_matched 0 _ _ _ _ _ _ [] Hs Hne Hc) as [Hl _].
           assert (Hs' : in_sync depth (dictE ++ [w ++ [x]]) [x] dictE (Some c)).
           { split.
             - exists moreE. exact HE.
             - rewrite length_app. simpl. pose proof (sync_size _ _ _ _ _ Hs). lia.
             - right. destruct Hsym as [i Hi]. rewrite (index_of_app _ _ _ _ Hi). eauto.
             - exists w, x. repeat split; auto. }
           destruct (IH _ _ _ _ Hrest Hs') as (codes & Henc & Hw0 & Hdec).
           rewrite Henc. simpl. eexists. split; [reflexivity|].
           split; [constructor; [width_pos Hwidth|exact Hw0]|].
           intros [|fuel] tail Hf; simpl in Hf; [lia|].
           rewrite pack_cons.
           destruct (decode_bits_matched fuel _ _ _ _ _ _ (pack codes ++ tail) Hs Hne Hc)
             as [_ ->].
           rewrite Hdec by lia. reflexivity.
Qed.


(** ** Bytes and sub-blocks *)

Lemma bits_of_byte_of_bits bits :
  bits_of_byte (byte_of_bits bits) = take 8 bits ++ repeat false (8 - length bits).
Proof.
  unfold bits_of_byte, byte_of_bits. rewrite Byte.to_bits_of_bits.
  destruct bits as [|b0 [|b1 [|b2 [|b3 [|b4 [|b5 [|b6 [|b7 rest]]]]]]]]; reflexivity.
Qed.

Lemma bits_of_bytes_of_bits_n n bits :
  length bits <= 8 * n ->
  exists k, bits_of_bytes (bytes_of_bits_n n bits) = bits ++ repeat false k.
Proof.
  revert bits. induction n as [|n IH]; intros bits Hlen.
  - exists 0. destruct bits; [reflexivity|simpl in Hlen; lia].
  - destruct (IH (drop 8 bits)) as [k Hk]; [rewrite length_drop; lia|].
    cbn [bytes_of_bits_n]. unfold bits_of_bytes in *. cbn [flat_map].
    rewrite Hk, bits_of_byte_of_bits.
    destruct (Nat.le_gt_cases 8 (length bits)) as [Hge|Hlt].
    + exists k. replace (8 - length bits) with 0 by lia. simpl.
      rewrite app_nil_r, app_assoc, take_drop. reflexivity.
    + exists (8 - length bits + k).
      rewrite take_ge, drop_ge by lia. simpl.
      rewrite <- app_assoc, repeat_app. reflexivity.
Qed.

Lemma bits_of_bytes_of_bits bits :
  exists k, bits_of_bytes (bytes_of_bits bits) = bits ++ repeat false k.
Proof.
  apply bits_of_bytes_of_bits_n.
  pose proof (Nat.div_mod_eq (length bits + 7) 8).
  pose proof (Nat.mod_upper_bound (length bits + 7) 8). lia.
Qed.

Lemma to_nat_byte_of_nat n : n <= 255 -> Byte.to_nat (byte_of_nat n) = n.
Proof.
  intros Hn. unfold byte_of_nat.
  destruct (Byte.of_nat n) as [b|] eqn:Hb.
  - apply Byte.to_of_nat, Hb.
  - apply Byte.of_nat_None_iff in Hb. lia.
Qed.

Lemma unblock_chunk chunk rest :
  unblock (length chunk) (chunk ++ rest) = (chunk ++.) <$> unblock 0 rest.
Proof.
  induction chunk as [|b chunk IH]; simpl.
  - destruct (unblock 0 rest); reflexivity.
  - rewrite IH. destruct (unblock 0 rest); reflexivity.
Qed.

Lemma unblock_sub_blocks fuel data :
  length data < fuel -> unblock 0 (sub_blocks fuel data) = Some data.
Proof.
  revert data. induction fuel as [|fuel IH]; intros data Hlen; [lia|].
  destruct data as [|b data]; [reflexivity|].
  set (all := b :: data) in *.
  assert (Hn : 1 <= length (take 255 all) <= 255).
  { rewrite length_take. subst all. cbn [length]. lia. }
  change (sub_blocks (S fuel) all)
    with (byte_of_nat (length (take 255 all)) :: take 255 all ++ sub_blocks fuel (drop 255 all)).
  cbn [unblock]. rewrite to_nat_byte_of_nat by lia.
  destruct (length (take 255 all)) as [|len] eqn:Hl; [lia|].
  rewrite <- Hl, unblock_chunk, IH.
  - simpl. rewrite take_drop. reflexivity.
  - rewrite length_drop. subst all. cbn [length] in *. lia.
Qed.

Lemma length_pack codes :
  Forall (fun c => 0 < fst c) codes -> length codes <= length (pack codes).
Proof.
  induction 1 as [|[width code] codes Hc _ IH]; simpl; [lia|].
  unfold pack in *. cbn [flat_map]. rewrite length_app, length_to_bits. simpl in *. lia.
Qed.

(** ** The round trip *)

Lemma color_depth_range N : N <= 256 -> 1 <= color_depth N <= 8.
Proof.
  intros HN. unfold color_depth.
  pose proof (Nat.log2_up_le_mono N 256 HN) as H.
  change (Nat.log2_up 256) with 8 in H. lia.
Qed.

Lemma le_pow_color_depth N : N <= 2 ^ color_depth N.
Proof.
  etransitivity; [apply le_pow_log2_up|].
  apply Nat.pow_le_mono_r; [lia|]. unfold color_depth. lia.
Qed.

(** C5: for every pixel sequence over [N <= 256] symbols, the encoder has an
    output, and decoding that output gives the sequence back:
    [lzw_decode(lzw_encode(seq, N)) == seq]. *)
Theorem lzw_roundtrip (pixels : list nat) (N : nat) :
  N <= 256 ->
  Forall (fun x => x < N) pixels ->
  lzw_encode pixels N ≫= lzw_decode = Some pixels.
Proof.
  intros HN Hpx. pose proof (color_depth_range N HN) as Hd.
  set (depth := color_depth N) in *.
  assert (Hd' : 1 <= depth < MAX_WIDTH) by (unfold MAX_WIDTH; lia).
  assert (Hsym : Forall (fun x => x < 2 ^ depth) pixels).
  { eapply Forall_impl; [exact Hpx|]. intros x Hx. simpl in Hx.
    pose proof (le_pow_color_depth N). subst depth. lia. }
  destruct (decode_encode_from depth Hd' pixels _ [] _ None Hsym
              (in_sync_initial depth [] Hd' (or_introl eq_refl)))
    as (codes & Henc & Hwidths & Hdec).
  unfold lzw_encode, encode_codes. fold depth. rewrite Henc.
  cbn [mbind option_bind]. unfold lzw_decode.
  set (first := (code_width depth (length (initial_dictionary depth)), clear_code depth)).
  set (data := bytes_of_bits (pack (first :: codes))).
  rewrite to_nat_byte_of_nat by lia. rewrite decide_True by exact Hd'.
  rewrite unblock_sub_blocks by lia. cbn [mbind option_bind].
  destruct (bits_of_bytes_of_bits (pack (first :: codes))) as [k Hk]. fold data in Hk.
  rewrite Hk. unfold first. rewrite pack_cons.
  rewrite take_to_bits, of_bits_to_bits by (apply clear_lt_pow_code_width, Hd').
  rewrite decide_True by reflexivity.
  assert (Hfuel : S (length codes) <=
                  length (to_bits (code_width depth (length (initial_dictionary depth)))
                            (clear_code depth) ++ pack codes ++ repeat false k)).
  { rewrite length_app, length_to_bits, length_app.
    pose proof (length_pack codes Hwidths).
    pose proof (code_width_ge depth (length (initial_dictionary depth))). lia. }
  destruct (length (to_bits _ _ ++ pack codes ++ repeat false k)) as [|fuel]; [lia|].
  replace (length (initial_dictionary depth))
    with (encoder_size (initial_dictionary depth) None) by (unfold encoder_size; lia).
  rewrite decode_bits_clear by exact Hd'.
  rewrite Hdec by lia. reflexivity.
Qed.

(** The encoder on twelve pixels over four colours: depth 2, one sub-block
    of five bytes, the empty block. *)
Example lzw_encode_example :
  lzw_encode [1; 1; 1; 1; 1; 1; 0; 1; 0; 1; 0; 3] 4 =
  Some [x02; x05; x8c; x0f; x91; x30; x05; x00]%byte.
Proof. vm_compute. reflexivity. Qed.

Lemma lzw_roundtrip_witness :
  (4 <= 256 /\ Forall (fun x => x < 4) [1; 1; 1; 1; 1; 1; 0; 1; 0; 1; 0; 3]) /\
  lzw_encode [1; 1; 1; 1; 1; 1; 0; 1; 0; 1; 0; 3] 4 ≫= lzw_decode =
  Some [1; 1; 1; 1; 1; 1; 0; 1; 0; 1; 0; 3].
Proof.
  assert (H : 4 <= 256 /\ Forall (fun x => x < 4) [1; 1; 1; 1; 1; 1; 0; 1; 0; 1; 0; 3])
    by (split; [lia | repeat constructor]).
  split; [exact H|]. apply lzw_roundtrip; apply H.
Defined.

End LzwFacts.

(** * More properties of the worker *)

Section WorkerReplies.
Context {E : Engine}.

Lemma onmessage_body_posts (e : WorkerRequest) (w : Worker) :
  let w' := exec (onmessage_body e) w in
  length (w_outbox w') = length (w_outbox w) + (if is_process_gif e then 1 else 0) /\
  w_tasks w' = w_tasks w.
Proof.
  unfold exec, onmessage_body, is_process_gif.
  destruct (String.eqb (req_type e) "process_gif"); [|simpl; split; [lia|reflexivity]].
  unfold try_catch, bind, gets, w_in_realm, invoke, self_postMessage, modify. simpl.
  destruct (w_gifProcessor w) as [l|]; simpl.
  2:{ rewrite length_app. simpl. split; [lia|reflexivity]. }
  destruct (heap (w_realm w) !! l) as [p|] eqn:Hp; simpl.
  2:{ rewrite length_app. simpl. split; [lia|reflexivity]. }
  destruct (process_gif p (req_gifData e)) as [p1 [err|[]]]; simpl.
  { rewrite length_app. simpl. split; [lia|reflexivity]. }
  destruct (<[l:=p1]> (heap (w_realm w)) !! l) as [q|]; simpl.
  2:{ rewrite length_app. simpl. split; [lia|reflexivity]. }
  destruct (process_all_frames_with_text_data q (req_textData e)) as [p2 [err|res]]; simpl.
  all: rewrite length_app; simpl; split; [lia|reflexivity].
Qed.

End WorkerReplies.

Section WorkerReplies2.
Context {E : Engine}.

Lemma filter_insert_length {A} (f : A -> bool) (l : list A) i x y :
  l !! i = Some x -> f y = f x ->
  length (List.filter f (<[i := y]> l)) = length (List.filter f l).
Proof.
  revert i. induction l as [|a l IH]; intros [|i] Hi Hf; simpl in *; try discriminate.
  - injection Hi as ->. rewrite Hf. destruct (f x); reflexivity.
  - destruct (f a); simpl; rewrite (IH i Hi Hf); reflexivity.
Qed.

Lemma worker_step_answers ev (w : Worker) :
  answered_or_pending (worker_step ev w)
  <= answered_or_pending w + length (List.filter is_process_gif (delivered [ev])).
Proof.
  unfold answered_or_pending. destruct ev as [e|i ok|i]; simpl.
  - unfold deliver. destruct (w_gifProcessor w) as [l|].
    + destruct (onmessage_body_posts e w) as [H1 H2]. rewrite H1, H2.
      destruct (is_process_gif e); cbn [length]; lia.
    + cbn [w_outbox w_tasks]. rewrite List.filter_app, length_app.
      cbn [List.filter request_of]. destruct (is_process_gif e); cbn [length]; lia.
  - unfold init_settled. destruct (w_tasks w !! i) as [[e|e]|] eqn:Hi; try lia.
    destruct ok; simpl.
    + destruct (new_object (w_realm w)) as [l r]. simpl.
      rewrite (filter_insert_length _ _ _ _ _ Hi) by reflexivity. lia.
    + pose proof (filter_delete_length (fun t => is_process_gif (request_of t)) _ _ _ Hi) as H.
      cbn [request_of] in H. destruct (is_process_gif e); lia.
  - unfold resume. destruct (w_tasks w !! i) as [[e|e]|] eqn:Hi; try lia.
    destruct (onmessage_body_posts e (w_set_tasks (delete i (w_tasks w)) w)) as [H1 H2].
    rewrite H1, H2. cbn [w_set_tasks w_tasks w_outbox].
    pose proof (filter_delete_length (fun t => is_process_gif (request_of t)) _ _ _ Hi) as H.
    cbn [request_of] in H. destruct (is_process_gif e); cbn [length]; lia.
Qed.

Lemma worker_run_answers evs (w : Worker) :
  answered_or_pending (worker_run evs w)
  <= answered_or_pending w + length (List.filter is_process_gif (delivered evs)).
Proof.
  revert w. induction evs as [|ev evs IH]; intros w; [simpl; lia|].
  change (worker_run (ev :: evs) w) with (worker_run evs (worker_step ev w)).
  replace (delivered (ev :: evs)) with (delivered [ev] ++ delivered evs)
    by (unfold delivered; simpl; rewrite app_nil_r; reflexivity).
  rewrite List.filter_app, length_app.
  pose proof (IH (worker_step ev w)). pose proof (worker_step_answers ev w). lia.
Qed.

(** X2: whatever the worker receives and however its handlers interleave, the
    replies it has posted and the ['process_gif'] requests whose handler is
    still suspended never outnumber the ['process_gif'] requests delivered:
    no request is answered twice, and nothing is posted unasked. *)
Theorem worker_answers_at_most_once (evs : list WorkerEvent) :
  let w := worker_run evs worker_start in
  length (w_outbox w)
  + length (List.filter (fun t => is_process_gif (request_of t)) (w_tasks w))
  <= length (List.filter is_process_gif (delivered evs)).
Proof.
  pose proof (worker_run_answers evs worker_start) as H.
  unfold answered_or_pending in H. simpl in *. lia.
Qed.

Lemma delete_insert_last {A} (l : list A) x y :
  delete (length l) (<[length l := y]> (l ++ [x])) = l.
Proof. induction l as [|a l IH]; simpl; [reflexivity | f_equal; exact IH]. Qed.

(** X3: a message whose type is not ['process_gif'] is never answered.  A worker
    that has its processor handles it at once and stays as it is; a worker
    without one still calls [init()] and constructs its processor for it. *)
Theorem other_message_is_not_answered (e : WorkerRequest) (w : Worker) :
  req_type e <> "process_gif" ->
  (is_Some (w_gifProcessor w) -> deliver e w = w) /\
  (w_gifProcessor w = None ->
   let n := length (w_tasks w) in
   let w' := worker_run [Deliver e; InitSettled n true; Resume n] w in
   w_outbox w' = w_outbox w /\ w_tasks w' = w_tasks w /\
   w_gifProcessor w' = Some (length (heap (w_realm w))) /\
   calls (w_realm w') =
     calls (w_realm w) ++ [CallInit; CallNew (length (heap (w_realm w)))]).
Proof.
  intros Ht. split.
  - intros [l Hl]. unfold deliver. rewrite Hl. unfold exec.
    rewrite (onmessage_body_other e w Ht). reflexivity.
  - intros Hn. simpl. unfold deliver. rewrite Hn.
    unfold init_settled. cbn [w_tasks].
    rewrite lookup_app_r, Nat.sub_diag by lia. cbn [lookup list_lookup].
    unfold new_object, trace. cbn [heap calls w_realm w_tasks w_outbox w_gifProcessor].
    unfold resume. cbn [w_tasks].
    rewrite list_lookup_insert_eq by (rewrite length_app; simpl; lia).
    unfold exec. rewrite (onmessage_body_other _ _ Ht). cbn.
    repeat split.
    + apply delete_insert_last.
    + rewrite <- app_assoc. reflexivity.
Qed.

End WorkerReplies2.

Lemma other_message_is_not_answered_witness :
  (req_type toy_ping <> "process_gif" /\ w_gifProcessor (@worker_start toy_engine) = None) /\
  w_outbox (worker_run [Deliver toy_ping; InitSettled 0 true; Resume 0] worker_start) = [] /\
  w_gifProcessor (worker_run [Deliver toy_ping; InitSettled 0 true; Resume 0] worker_start)
    = Some 0.
Proof.
  assert (H : req_type toy_ping <> "process_gif") by discriminate.
  split; [split; [exact H | reflexivity]|].
  destruct (proj2 (other_message_is_not_answered toy_ping worker_start H) eq_refl)
    as (H1 & _ & H3 & _).
  split; [exact H1 | exact H3].
Defined.

(** * The name of the download *)

Module JsStringFacts.
Import JsString.

Lemma length_append (s t : string) :
  String.length (s ++ t)%string = String.length s + String.length t.
Proof. induction s as [|a s IH]; simpl; [reflexivity | rewrite IH; reflexivity]. Qed.

Lemma substring_prefix (s t : string) : String.substring 0 (String.length s) (s ++ t)%string = s.
Proof. induction s as [|a s IH]; simpl; [destruct t; reflexivity | rewrite IH; reflexivity]. Qed.

Lemma substring_suffix (s t : string) :
  String.substring (String.length s) (String.length t) (s ++ t)%string = t.
Proof.
  induction s as [|a s IH]; simpl; [|exact IH].
  induction t as [|b t IHt]; simpl; [reflexivity | rewrite IHt; reflexivity].
Qed.

Lemma lastIndexOf_from_absent c s i found :
  occurs c s = false -> lastIndexOf_from c s i found = found.
Proof.
  revert i found. induction s as [|a s IH]; intros i found H; simpl in *; [reflexivity|].
  apply orb_false_iff in H as [Ha Hs]. rewrite Ha. apply IH, Hs.
Qed.

Lemma lastIndexOf_from_last c pre post i found :
  occurs c post = false ->
  lastIndexOf_from c (pre ++ String c post)%string i found = (i + Z.of_nat (String.length pre))%Z.
Proof.
  intros Hpost. revert i found. induction pre as [|a pre IH]; intros i found; simpl.
  - rewrite Ascii.eqb_refl, (lastIndexOf_from_absent _ _ _ _ Hpost). lia.
  - rewrite IH. lia.
Qed.

Lemma occurs_split c s :
  occurs c s = true -> exists pre post, s = (pre ++ String c post)%string /\ occurs c post = false.
Proof.
  induction s as [|a s IH]; simpl; [discriminate|].
  destruct (occurs c s) eqn:Hs.
  - intros _. destruct (IH eq_refl) as (pre & post & -> & Hp).
    exists (String a pre), post. split; [reflexivity | exact Hp].
  - rewrite orb_false_r. intros Ha. apply Ascii.eqb_eq in Ha as ->.
    exists "", s. split; [reflexivity | exact Hs].
Qed.

Lemma clamp_nonpos len i : (i <= 0)%Z -> clamp len i = 0.
Proof. unfold clamp. lia. Qed.

Lemma clamp_index len k : k <= len -> clamp len (Z.of_nat k) = k.
Proof. unfold clamp. lia. Qed.

Lemma substring_all (s : string) : String.substring 0 (String.length s) s = s.
Proof. induction s as [|a s IH]; simpl; [reflexivity | rewrite IH; reflexivity]. Qed.

Lemma substring_none n (s : string) : String.substring n 0 s = "".
Proof. revert n. induction s as [|a s IH]; intros [|n]; simpl; auto. Qed.

End JsStringFacts.

Section DownloadName.
Context {E : Engine}.
Import JsString JsStringFacts.

Lemma name_without_full_stop (name : string) :
  occurs full_stop name = false -> baseName name = "" /\ extension name = name.
Proof.
  intros H. unfold baseName, extension, lastIndexOf.
  rewrite (lastIndexOf_from_absent _ _ _ _ H). unfold substring.
  rewrite !clamp_nonpos by lia.
  rewrite !Nat.min_0_l, !Nat.max_0_l, !Nat.sub_0_r.
  split; [apply substring_none | apply substring_all].
Qed.

Lemma name_with_full_stop (pre post : string) :
  occurs full_stop post = false ->
  baseName (pre ++ String full_stop post) = pre /\
  extension (pre ++ String full_stop post) = String full_stop post.
Proof.
  intros H. unfold baseName, extension, lastIndexOf.
  rewrite (lastIndexOf_from_last _ _ _ _ _ H). unfold substring.
  rewrite Z.add_0_l, length_append.
  rewrite clamp_nonpos by lia. rewrite clamp_index by lia.
  rewrite Nat.min_0_l, Nat.max_0_l, Nat.sub_0_r.
  split; [apply substring_prefix|].
  rewrite Nat.min_l, Nat.max_r by lia.
  replace (String.length pre + String.length (String full_stop post) - String.length pre)
    with (String.length (String full_stop post)) by lia.
  apply substring_suffix.
Qed.

(** X4: the name the download is offered under is the selected file's name with
    [-captioned] put in before its last full stop: the two parts make up the
    name again, and the second begins at the last full stop.  A name without a
    full stop is kept whole as the "extension", so the download is called
    [-captioned] followed by the name. *)
Theorem download_name_cuts_at_last_full_stop (name : string) :
  (baseName name ++ extension name)%string = name /\
  (occurs full_stop name = true ->
   exists rest, extension name = String full_stop rest /\ occurs full_stop rest = false) /\
  (occurs full_stop name = false -> baseName name = "" /\ extension name = name).
Proof.
  split; [|split].
  - destruct (occurs full_stop name) eqn:H.
    + destruct (occurs_split _ _ H) as (pre & post & -> & Hp).
      destruct (name_with_full_stop pre post Hp) as [-> ->]. reflexivity.
    + destruct (name_without_full_stop name H) as [-> ->]. reflexivity.
  - intros H. destruct (occurs_split _ _ H) as (pre & post & -> & Hp).
    exists post. split; [apply (name_with_full_stop pre post Hp) | exact Hp].
  - apply name_without_full_stop.
Qed.

Example download_name_examples :
  (baseName "cat.final.gif" ++ "-captioned" ++ extension "cat.final.gif")%string
    = "cat.final-captioned.gif" /\
  (baseName "cat" ++ "-captioned" ++ extension "cat")%string = "-captionedcat" /\
  (baseName ".gif" ++ "-captioned" ++ extension ".gif")%string = "-captioned.gif".
Proof. repeat split. Qed.

End DownloadName.

(** * The animation loops *)

Section Hoare.
Context {E : Engine} {St : Type}.

Lemma exec_bind_inv {A B} (I P : St -> Prop) (m : JS St A) (k : A -> JS St B) (s : St) :
  I s -> stable I m ->
  (forall s1, I s1 -> P s1) ->
  (forall a s1, I s1 -> P (snd (k a s1))) ->
  P (snd (bind m k s)).
Proof.
  intros Hs Hm Ht Hk. specialize (Hm s Hs). unfold bind.
  destruct (m s) as [[a|x] s1]; simpl in *; [apply Hk | apply Ht]; exact Hm.
Qed.

End Hoare.

Section Loops.
Context {E : Engine}.

Lemma NoDup_map_filter {A B} (g : A -> B) (f : A -> bool) (l : list A) :
  NoDup (map g l) -> NoDup (map g (List.filter f l)).
Proof.
  induction l as [|a l IH]; simpl; [auto|].
  intros H. apply NoDup_cons in H as [Ha Hl].
  destruct (f a); simpl; [|auto].
  apply NoDup_cons. split; [|auto].
  intros Hin. apply Ha. apply list_elem_of_In in Hin. apply list_elem_of_In.
  apply in_map_iff in Hin as (x & Hx & Hin). apply in_map_iff. exists x.
  split; [exact Hx|]. apply List.filter_In in Hin. tauto.
Qed.

Lemma Forall_filter' {A} (P : A -> Prop) (f : A -> bool) (l : list A) :
  Forall P l -> Forall P (List.filter f l).
Proof.
  induction 1 as [|a l Ha Hl IH]; simpl; [constructor|].
  destruct (f a); [constructor|]; assumption.
Qed.

Lemma loops_wf_cancel rs n id pid h :
  loops_wf (rs, n, id, pid) -> loops_wf (cancel_request h rs, n, id, pid).
Proof.
  intros [H1 H2 H3 H4 H5]. split; simpl in *; auto.
  - apply Forall_filter', H1.
  - apply NoDup_map_filter, H2.
Qed.

Lemma loops_wf_tail r rs n id pid :
  loops_wf (r :: rs, n, id, pid) -> loops_wf (rs, n, id, pid).
Proof.
  intros [H1 H2 H3 H4 H5]. split; simpl in *; auto.
  - inversion H1; assumption.
  - apply NoDup_cons in H2. tauto.
Qed.

Lemma cancel_truthy_filter id rs :
  cancel_truthy id rs =
  List.filter (fun r => match id with
                        | Some (S h) => negb (Nat.eqb (fst r) (S h))
                        | _ => true
                        end) rs.
Proof.
  destruct id as [[|h]|]; simpl; try reflexivity.
  all: induction rs as [|r rs IH]; simpl; [reflexivity | rewrite <- IH; reflexivity].
Qed.

Lemma all_cancelled rs n id pid :
  loops_wf (rs, n, id, pid) -> cancel_truthy pid (cancel_truthy id rs) = [].
Proof.
  rewrite !cancel_truthy_filter.
  induction rs as [|[k cb] rs IH]; intros H; [reflexivity|].
  pose proof (IH (loops_wf_tail _ _ _ _ _ H)) as IH'.
  destruct H as [H1 _ H3 H4 _]. simpl in *. inversion H1 as [|? ? Hk _]; subst.
  simpl in Hk. destruct cb.
  - subst id. destruct (H3 k eq_refl) as [Hpos _]. destruct k as [|k]; [lia|].
    rewrite Nat.eqb_refl. simpl. exact IH'.
  - subst pid. destruct (H4 k eq_refl) as [Hpos _]. destruct k as [|k]; [lia|].
    destruct (match id with Some (S h) => negb (Nat.eqb (S k) (S h)) | _ => true end);
      simpl; [rewrite Nat.eqb_refl; simpl|]; exact IH'.
Qed.

Lemma startAnimation_busy (s : Main) :
  isProcessing (vars s) = true -> startAnimation s = (Normal tt, s).
Proof. intros H. unfold startAnimation, bind, var, gets. simpl. rewrite H. reflexivity. Qed.

Lemma startAnimation_loop_vars (s : Main) :
  isProcessing (vars s) = false ->
  loop_vars (exec startAnimation s) =
    (restarted s, S (S (next_request s)), Some (next_request s), Some (S (next_request s))).
Proof.
  destruct s as [r [cf pd pu wk id pid lt lpt ip] d rq nx tk ob]. simpl. intros ->.
  unfold restarted, exec, startAnimation, loop_vars. simpl.
  destruct id as [[|h]|], pid as [[|h']|]; simpl; rewrite <- ?app_assoc; reflexivity.
Qed.

Lemma startAnimation_loops : stable loops_ok startAnimation.
Proof.
  intros s H. destruct (isProcessing (vars s)) eqn:Hb.
  - rewrite (startAnimation_busy s Hb). exact H.
  - unfold loops_ok. change (snd (startAnimation s)) with (exec startAnimation s).
    rewrite (startAnimation_loop_vars s Hb). unfold restarted.
    rewrite (all_cancelled _ _ _ _ H). destruct H as [_ _ _ _ Hn]. simpl in *.
    split; simpl.
    + repeat constructor.
    + repeat constructor; [|apply not_elem_of_nil..].
      intros Hin. apply list_elem_of_singleton in Hin. lia.
    + intros h [= <-]. lia.
    + intros h [= <-]. lia.
    + lia.
Qed.

End Loops.

Ltac unfold_handlers :=
  unfold var, assign, element, write, alert, console_error, worker_postMessage,
    updatePreview, handleFile, handleFile_read, initWorker, worker_onmessage,
    click_catch, processButton_click, processButton_click_read, reset_download,
    control_edited.

(** Like [stable_with], with [startAnimation] taken as one step. *)
Ltac stable_by atomic fin :=
  repeat (repeat progress unfold_handlers; first [atomic | stable_step fin]).

Ltac loops_fin := intros ? ?; unfold loops_ok, loop_vars in *; simpl in *; assumption.

Section Loops2.
Context {E : Engine}.

Lemma loop_vars_frame (s s1 : Main) : loop_vars s1 = loop_vars s -> loops_ok s -> loops_ok s1.
Proof. unfold loops_ok. intros ->. auto. Qed.

Lemma pending_nil_named rs n id pid k cb :
  loops_wf (rs, n, id, pid) ->
  List.filter (fun r => same_callback cb (snd r)) rs = [] ->
  n <= k ->
  loops_wf (rs ++ [(k, cb)], S k,
            match cb with animate_callback => Some k | _ => id end,
            match cb with animateProcessed_callback => Some k | _ => pid end).
Proof.
  intros [H1 H2 H3 H4 H5] Hp Hk. simpl in *.
  assert (Hlt : Forall (fun r => 0 < fst r < n) rs).
  { apply Forall_forall. intros [h c] Hin.
    rewrite Forall_forall in H1. specialize (H1 _ Hin). simpl in *.
    destruct c; [apply H3 | apply H4]; exact H1. }
  assert (Hno : Forall (fun r => same_callback cb (snd r) = false) rs).
  { apply Forall_forall. intros r Hin.
    destruct (same_callback cb (snd r)) eqn:Hc; [|reflexivity].
    assert (In r (List.filter (fun r => same_callback cb (snd r)) rs))
      by (apply List.filter_In; split; [apply list_elem_of_In, Hin | exact Hc]).
    rewrite Hp in H. destruct H. }
  split; simpl.
  - apply Forall_app. split.
    + rewrite Forall_forall in *. intros r Hin. specialize (H1 r Hin). specialize (Hno r Hin).
      destruct cb, (snd r); simpl in *; try discriminate; exact H1.
    + repeat constructor. destruct cb; reflexivity.
  - rewrite map_app. apply NoDup_app. split; [exact H2|]. split.
    + intros x Hx Hx'. simpl in Hx'. apply list_elem_of_singleton in Hx' as ->.
      apply list_elem_of_In, in_map_iff in Hx as (r & Hr & Hin).
      rewrite Forall_forall in Hlt. apply list_elem_of_In in Hin.
      specialize (Hlt r Hin). lia.
    + simpl. apply NoDup_singleton.
  - intros h Hh. destruct cb; [injection Hh as <-; lia|].
    specialize (H3 h Hh). lia.
  - intros h Hh. destruct cb; [|injection Hh as <-; lia].
    specialize (H4 h Hh). lia.
  - lia.
Qed.

Lemma animate_loops ts (s : Main) :
  loops_ok s -> pending animate_callback s = [] -> loops_ok (exec (animate ts) s).
Proof.
  intros Hok Hp. unfold exec, animate.
  set (I := fun x : Main => loop_vars x = loop_vars s).
  assert (Hthrow : forall s1, I s1 -> loops_ok s1)
    by (intros s1 H1; apply (loop_vars_frame s s1 H1 Hok)).
  apply (exec_bind_inv I); [reflexivity | stable_with frame_fin | exact Hthrow |].
  intros a s1 H1. apply (exec_bind_inv I); [exact H1 | stable_with frame_fin | exact Hthrow |].
  clear s1 H1. intros _ s1 H1.
  apply (exec_bind_inv I); [exact H1 | stable_with frame_fin | exact Hthrow |].
  clear s1 H1. intros last s1 H1.
  apply (exec_bind_inv I); [exact H1 | stable_with frame_fin | exact Hthrow |].
  clear s1 H1. intros delay s1 H1.
  apply (exec_bind_inv I); [exact H1 | stable_with frame_fin | exact Hthrow |].
  clear s1 H1. intros _ s1 H1.
  unfold I, loop_vars in H1. injection H1 as Hr Hn Hid Hpid.
  unfold loops_ok, loop_vars. js_eval. simpl. rewrite Hr, Hn, Hpid.
  apply (pending_nil_named _ _ _ _ _ animate_callback Hok Hp). lia.
Qed.

End Loops2.

Ltac skip_frame I Hthrow :=
  match goal with
  | H : I ?s1 |- _ =>
      apply (exec_bind_inv I) with (s := s1);
      [exact H | stable_with frame_fin | exact Hthrow | clear dependent s1; intros ? ? ?]
  end.

Section Loops3.
Context {E : Engine}.

Lemma animateProcessed_loops ts (s : Main) :
  loops_ok s -> pending animateProcessed_callback s = [] ->
  loops_ok (exec (animateProcessed ts) s).
Proof.
  intros Hok Hp. unfold exec, animateProcessed.
  set (I := fun x : Main => loop_vars x = loop_vars s).
  assert (Hthrow : forall s1, I s1 -> loops_ok s1)
    by (intros s1 H1; apply (loop_vars_frame s s1 H1 Hok)).
  assert (H0 : I s) by reflexivity.
  do 6 (apply (exec_bind_inv I);
        [eassumption | stable_with frame_fin | exact Hthrow | clear H0; intros ? ? H0]).
  unfold I, loop_vars in H0. injection H0 as Hr Hn Hid Hpid.
  unfold loops_ok, loop_vars. js_eval. simpl. rewrite Hr, Hn, Hid.
  apply (pending_nil_named _ _ _ _ _ animateProcessed_callback Hok Hp). lia.
Qed.

Lemma filter_cancel_nil (f : nat * FrameCallback -> bool) h rs :
  (forall r, In r rs -> f r = true -> fst r = h) ->
  List.filter f (cancel_request h rs) = [].
Proof.
  unfold cancel_request. induction rs as [|r rs IH]; intros H; [reflexivity|]. simpl.
  assert (IH' := IH (fun x Hx => H x (or_intror Hx))).
  destruct (Nat.eqb (fst r) h) eqn:Hk; simpl; [exact IH'|].
  destruct (f r) eqn:Hf; [|exact IH'].
  apply Nat.eqb_neq in Hk. destruct Hk. apply H; [left; reflexivity | exact Hf].
Qed.

Lemma find_request_cancel rs n id pid h cb :
  loops_wf (rs, n, id, pid) ->
  find_request h rs = Some cb ->
  List.filter (fun r => same_callback cb (snd r)) (cancel_request h rs) = [].
Proof.
  intros [H1 _ _ _ _] Hf. simpl in H1.
  unfold find_request in Hf. destruct (List.find _ rs) as [[k c]|] eqn:Hfind; [|discriminate].
  simpl in Hf. injection Hf as ->.
  apply List.find_some in Hfind as [Hin Hk]. simpl in Hk. apply Nat.eqb_eq in Hk as ->.
  rewrite Forall_forall in H1.
  pose proof (H1 _ (proj2 (list_elem_of_In _ _) Hin)) as Hh. simpl in Hh.
  apply filter_cancel_nil. intros [k c] Hr Hc.
  pose proof (H1 _ (proj2 (list_elem_of_In _ _) Hr)) as Hkc. simpl in *.
  destruct c, cb; simpl in Hc; try discriminate; congruence.
Qed.

End Loops3.

Section Loops4.
Context {E : Engine}.

Lemma handleFile_loops file : stable loops_ok (handleFile file).
Proof. stable_by ltac:(apply startAnimation_loops) loops_fin. Qed.

Lemma handleFile_read_loops b : stable loops_ok (handleFile_read b).
Proof. stable_by ltac:(apply startAnimation_loops) loops_fin. Qed.

Lemma control_edited_loops which value : stable loops_ok (control_edited which value).
Proof. stable_by ltac:(apply startAnimation_loops) loops_fin. Qed.

Lemma processButton_click_loops : stable loops_ok processButton_click.
Proof. stable_by ltac:(apply startAnimation_loops) loops_fin. Qed.

Lemma processButton_click_read_loops read t :
  stable loops_ok (processButton_click_read read t).
Proof. stable_by ltac:(apply startAnimation_loops) loops_fin. Qed.

Lemma worker_onmessage_loops m : stable loops_ok (worker_onmessage m).
Proof. stable_by ltac:(apply startAnimation_loops) loops_fin. Qed.

Lemma page_step_loops pev (p : Main) : loops_ok p -> loops_ok (page_step pev p).
Proof.
  intros Hp. destruct pev as [file| |i ok|h ts|which value| |]; simpl.
  - apply handleFile_loops, Hp.
  - destruct (currentFile (vars p)); [apply handleFile_loops|]; exact Hp.
  - destruct (m_tasks p !! i) as [[file|file t]|]; [destruct ok| |]; try exact Hp.
    + apply handleFile_read_loops, Hp.
    + apply processButton_click_read_loops, Hp.
  - destruct (find_request h (requests p)) as [cb|] eqn:Hf; [|exact Hp].
    assert (Hc : loops_ok (set_requests (cancel_request h (requests p)) p))
      by (apply loops_wf_cancel, Hp).
    pose proof (find_request_cancel _ _ _ _ _ _ Hp Hf) as Hnil.
    destruct cb; [apply animate_loops | apply animateProcessed_loops]; assumption.
  - apply control_edited_loops, Hp.
  - apply processButton_click_loops, Hp.
  - exact Hp.
Qed.

Lemma filter_nil {A} (f : A -> bool) (l : list A) :
  (forall x, In x l -> f x = false) -> List.filter f l = [].
Proof.
  induction l as [|a l IH]; intros H; [reflexivity|]. simpl.
  rewrite (H a (or_introl eq_refl)). apply IH. intros x Hx. apply H. right. exact Hx.
Qed.

Lemma loops_single cb (s : Main) : loops_ok s -> length (pending cb s) <= 1.
Proof.
  unfold loops_ok, loop_vars, pending. intros [H1 H2 _ _ _]. simpl in *.
  induction (requests s) as [|[k c] rs IH]; simpl; [lia|].
  inversion H1 as [|? ? Hk Hrs]; subst. simpl in H2. apply NoDup_cons in H2 as [Hnk Hnd].
  specialize (IH Hrs Hnd).
  destruct (same_callback cb c) eqn:Hc; [|exact IH]. simpl.
  rewrite filter_nil; [simpl; lia|].
  intros [k' c'] Hin. simpl.
  destruct (same_callback cb c') eqn:Hc'; [|reflexivity].
  exfalso. apply Hnk. rewrite Forall_forall in Hrs.
  pose proof (Hrs _ (proj2 (list_elem_of_In _ _) Hin)) as Hk'. simpl in *.
  assert (k' = k) as -> by (destruct cb, c, c'; simpl in *; try discriminate; congruence).
  apply list_elem_of_In, in_map_iff. exists (k, c'). split; [reflexivity | exact Hin].
Qed.

End Loops4.

(** * Invariants of the page *)

Section PageInvariants.
Context {E : Engine}.

Lemma invoke_length {A} name c (f : Proc -> Proc * (Error + A)) ref (r : Realm) :
  length (heap (snd (invoke name c f ref r))) = length (heap r).
Proof.
  unfold invoke. destruct ref as [l|]; [|reflexivity].
  destruct (heap r !! l) as [p|]; [|reflexivity].
  destruct (f p). simpl. apply length_insert.
Qed.
End PageInvariants.

Ltac unfold_rest := unfold reset_download, startAnimation, cancelAnimationFrame, animate, animateProcessed.

(** Like [stable_by], unfolding what [atomic] does not take. *)
Ltac stable_all atomic fin :=
  repeat first [ atomic | progress unfold_handlers | stable_step fin | progress unfold_rest ].

Ltac heap_len_fin :=
  intros ? ?; unfold heap_ok in *; cbv beta; cbn [m_realm set_m_realm];
  first
    [ rewrite invoke_getter_heap; assumption
    | rewrite invoke_length; assumption
    | simpl; repeat (case_match; simpl); assumption ].

Ltac some_fin :=
  intros ? ?; simpl in *; repeat (case_match; simpl in * );
  first [ assumption | reflexivity | eexists; reflexivity ].

Ltac file_fin :=
  intros ? ?; unfold file_ok in *; simpl in *; repeat (case_match; simpl in * );
  first [ assumption
        | intros _; eexists; reflexivity
        | intros [?|[? ?]]; [auto | discriminate] ].

Ltac busy_fin :=
  intros ? ?; unfold busy_ok in *; simpl in *; repeat (case_match; simpl in * );
  first [ assumption | discriminate | intros; discriminate ].


Section PageInvariants2.
Context {E : Engine}.

Lemma page_step_stable (Q : Main -> Prop) pev (p : Main) :
  (forall s ts, Q s -> Q (set_m_tasks ts s)) ->
  (forall s rs, Q s -> Q (set_requests rs s)) ->
  (forall file, stable Q (handleFile file)) ->
  (forall b, stable Q (handleFile_read b)) ->
  (forall ts, stable Q (animate ts)) ->
  (forall ts, stable Q (animateProcessed ts)) ->
  (forall which value, stable Q (control_edited which value)) ->
  stable Q processButton_click ->
  (forall read t, stable Q (processButton_click_read read t)) ->
  Q p -> Q (page_step pev p).
Proof.
  intros Ht Hr H1 H2 H3 H4 H5 H6 H7 Hp.
  destruct pev as [file| |i ok|h ts|which value| |]; simpl.
  - apply H1, Hp.
  - destruct (currentFile (vars p)); [apply H1|]; exact Hp.
  - destruct (m_tasks p !! i) as [[file|file t]|]; [destruct ok| |]; try exact Hp.
    + apply H2, Ht, Hp.
    + apply Ht, Hp.
    + apply H7, Ht, Hp.
  - destruct (find_request h (requests p)) as [[|]|]; try exact Hp.
    + apply H3, Hr, Hp.
    + apply H4, Hr, Hp.
  - apply H5, Hp.
  - apply H6, Hp.
  - exact Hp.
Qed.

Lemma page_step_heap pev (p : Main) : heap_ok p -> heap_ok (page_step pev p).
Proof.
  apply page_step_stable; try solve [intros; stable_all fail heap_len_fin].
  all: intros; assumption.
Qed.

Lemma worker_onmessage_heap m : stable heap_ok (worker_onmessage m).
Proof. stable_all fail heap_len_fin. Qed.

Lemma page_step_has_file pev (p : Main) :
  is_Some (currentFile (vars p)) -> is_Some (currentFile (vars (page_step pev p))).
Proof.
  apply (page_step_stable (fun s => is_Some (currentFile (vars s))));
    try solve [intros; stable_all fail some_fin].
  all: intros; assumption.
Qed.

Lemma worker_onmessage_has_file m :
  stable (fun s => is_Some (currentFile (vars s))) (worker_onmessage m).
Proof. stable_all fail some_fin. Qed.

Lemma page_step_has_worker pev (p : Main) :
  worker (vars p) = true -> worker (vars (page_step pev p)) = true.
Proof.
  apply (page_step_stable (fun s => worker (vars s) = true));
    try solve [intros; stable_all fail some_fin].
  all: intros; assumption.
Qed.

Lemma worker_onmessage_has_worker m :
  stable (fun s => worker (vars s) = true) (worker_onmessage m).
Proof. stable_all fail some_fin. Qed.

Lemma processButton_click_file : stable file_ok processButton_click.
Proof.
  intros s H. destruct (currentFile (vars s)) as [file|] eqn:Hf.
  - intros _.
    assert (Hs : stable (fun s => is_Some (currentFile (vars s))) processButton_click)
      by stable_all fail some_fin.
    apply Hs. rewrite Hf. eexists; reflexivity.
  - rewrite click_guard by (left; exact Hf). exact H.
Qed.

Lemma page_step_file pev (p : Main) : file_ok p -> file_ok (page_step pev p).
Proof.
  apply page_step_stable; try solve [intros; stable_all fail file_fin].
  - intros; assumption.
  - intros; assumption.
  - apply processButton_click_file.
Qed.

Lemma worker_onmessage_file m (s : Main) :
  worker (vars s) = true -> file_ok s -> file_ok (exec (worker_onmessage m) s).
Proof.
  intros Hw H _. apply worker_onmessage_has_file, H. left. exact Hw.
Qed.

End PageInvariants2.

Ltac download_fin := intros ? ?; simpl; repeat (case_match; simpl); assumption.

Section PageInvariants3.
Context {E : Engine}.

Lemma reset_download_download : stable download_ok reset_download.
Proof.
  intros s H. unfold download_ok, reset_download in *. js_eval.
  destruct (processedGifUrl (vars s)) eqn:Hu; simpl; rewrite ?Hu; auto.
Qed.

Lemma in_realm_run {A} (m : JS Realm A) (s : Main) :
  exists c r, in_realm m s = (c, set_m_realm r s).
Proof. unfold in_realm. destruct (m (m_realm s)) as [c r]. eauto. Qed.

Lemma gif_processed_run data (s : Main) :
  worker_onmessage (gif_processed data) s =
  match in_realm (invoke "process_gif" (fun l => CallProcessGif l data)
                    (fun p => process_gif p data) (Some processedGifProcessor))
          (set_vars (set_processedGifData (Some data) (vars s)) s) with
  | (Throw x, s2) => (Throw x, s2)
  | (Normal _, s2) =>
      startAnimation
        (exec (assign (set_processedGifUrl (Some data)) ;;;
               write (set_generatedGif_src (Some data)) ;;;
               write (set_generatedGif_hidden false) ;;;
               write (set_downloadButton_disabled false) ;;;
               write (set_processButton {| disabled := false; textContent := "Process GIF" |}) ;;;
               assign (set_isProcessing false)) s2)
  end.
Proof.
  unfold worker_onmessage, exec.
  cbv beta iota zeta delta [bind assign write modify snd].
  destruct (in_realm _ _) as [[a|x] s2]; reflexivity.
Qed.

Lemma startAnimation_frame (s : Main) :
  download_vars (snd (startAnimation s)) = download_vars s /\
  isProcessing (vars (snd (startAnimation s))) = isProcessing (vars s) /\
  doc (snd (startAnimation s)) = doc s.
Proof.
  destruct (startAnimation_effect s) as (_ & Hd & _ & _ & Hb & _).
  assert (H : stable (fun x => processedGifUrl (vars x) = processedGifUrl (vars s))
                startAnimation) by stable_with frame_fin.
  specialize (H s eq_refl). unfold exec, download_vars. simpl in *.
  rewrite Hd, H. auto.
Qed.

Lemma gif_processed_effect data (s : Main) :
  let s' := exec (worker_onmessage (gif_processed data)) s in
  (download_vars s' = download_vars s /\
   isProcessing (vars s') = isProcessing (vars s) /\
   processButton (doc s') = processButton (doc s)) \/
  (download_vars s' = (false, false, Some data, Some data) /\
   isProcessing (vars s') = false /\
   processButton (doc s') = {| disabled := false; textContent := "Process GIF" |}).
Proof.
  cbv zeta. unfold exec. rewrite gif_processed_run.
  destruct (in_realm_run (invoke "process_gif" (fun l => CallProcessGif l data)
                            (fun p => process_gif p data) (Some processedGifProcessor))
              (set_vars (set_processedGifData (Some data) (vars s)) s)) as (c & r & ->).
  destruct c as [a|x]; cbv beta iota; [right|left; repeat split].
  match goal with |- context [startAnimation ?X] =>
    destruct (startAnimation_frame X) as (H1 & H2 & H3); rewrite H1, H2, H3
  end.
  repeat split.
Qed.

Lemma download_frame (s s1 : Main) :
  download_vars s1 = download_vars s -> download_ok s -> download_ok s1.
Proof.
  unfold download_vars, download_ok. intros [= H1 H2 H3 H4]. rewrite H1, H2, H3, H4. auto.
Qed.

Lemma download_made (s : Main) data :
  download_vars s = (false, false, Some data, Some data) -> download_ok s.
Proof.
  unfold download_vars, download_ok. intros [= H1 H2 H3 H4]. rewrite H1, H2, H3, H4. auto.
Qed.

Lemma worker_onmessage_download m : stable download_ok (worker_onmessage m).
Proof.
  destruct m as [data|err];
    [|unfold worker_onmessage; cbv beta iota; stable_all fail download_fin].
  intros s H. destruct (gif_processed_effect data s) as [(H1 & _)|(H1 & _)].
  - apply (download_frame s _ H1 H).
  - apply (download_made _ data H1).
Qed.

Lemma page_step_download pev (p : Main) : download_ok p -> download_ok (page_step pev p).
Proof.
  apply page_step_stable;
    try solve [intros; stable_all ltac:(apply reset_download_download) download_fin].
  all: intros; assumption.
Qed.

Lemma worker_onmessage_error_idle err (s : Main) :
  isProcessing (vars (exec (worker_onmessage (error err)) s)) = false.
Proof.
  destruct s as [r [cf pd pu wk id pid lt lpt ip] d rq nx tk ob].
  unfold exec, worker_onmessage, startAnimation. simpl.
  destruct id as [[|h]|], pid as [[|h']|]; reflexivity.
Qed.

Lemma worker_onmessage_busy m : stable busy_ok (worker_onmessage m).
Proof.
  intros s H. destruct m as [data|err].
  - destruct (gif_processed_effect data s) as [(_ & H2 & H3)|(_ & H2 & _)];
      unfold busy_ok, exec in *.
    + rewrite H2, H3. exact H.
    + rewrite H2. discriminate.
  - unfold busy_ok. change (snd _) with (exec (worker_onmessage (error err)) s).
    rewrite worker_onmessage_error_idle. discriminate.
Qed.

Lemma bind_var {A B} (f : Vars -> A) (k : A -> JS Main B) (s : Main) :
  bind (var f) k s = k (f (vars s)) s.
Proof. reflexivity. Qed.

Lemma processButton_click_busy : stable busy_ok processButton_click.
Proof.
  intros s H. unfold processButton_click.
  rewrite bind_var. cbv beta. rewrite bind_var. cbv beta.
  destruct (currentFile (vars s)) as [file|]; [|exact H].
  destruct (isProcessing (vars s)) eqn:Hb; [exact H|].
  match goal with
  | |- busy_ok (snd (try_catch (bind (assign ?f) (fun _ => bind (write ?g) ?k)) ?h ?s0)) =>
      change (busy_ok (snd (try_catch (k tt) h
                (set_doc (g (doc (set_vars (f (vars s0)) s0))) (set_vars (f (vars s0)) s0)))))
  end.
  cbv beta.
  match goal with
  | |- busy_ok (snd (?m ?s0)) =>
      assert (Hs : stable busy_ok m) by stable_all fail busy_fin; apply Hs
  end.
  intros _. reflexivity.
Qed.

Lemma page_step_busy pev (p : Main) : busy_ok p -> busy_ok (page_step pev p).
Proof.
  apply page_step_stable; try solve [intros; stable_all fail busy_fin].
  - intros; assumption.
  - intros; assumption.
  - apply processButton_click_busy.
Qed.

End PageInvariants3.

(** * The page and its worker: what every reachable state keeps *)

Section SystemPage.
Context {E : Engine}.

Lemma page_step_ok pev (p : Main) : page_ok p -> page_ok (page_step pev p).
Proof.
  intros [H1 H2 H3 H4 H5]. split.
  - apply page_step_loops, H1.
  - apply page_step_download, H2.
  - apply page_step_busy, H3.
  - apply page_step_file, H4.
  - apply page_step_heap, H5.
Qed.

Lemma worker_onmessage_ok m (p : Main) :
  worker (vars p) = true -> page_ok p -> page_ok (exec (worker_onmessage m) p).
Proof.
  intros Hw [H1 H2 H3 H4 H5]. split.
  - apply worker_onmessage_loops, H1.
  - apply worker_onmessage_download, H2.
  - apply worker_onmessage_busy, H3.
  - apply worker_onmessage_file; assumption.
  - apply worker_onmessage_heap, H5.
Qed.

Lemma page_start_ok : page_ok page_start.
Proof.
  split.
  - split; simpl; try (intros h; discriminate); [constructor | constructor | lia].
  - split; reflexivity.
  - intros H. discriminate.
  - intros [H|[u H]]; discriminate.
  - reflexivity.
Qed.

Lemma system_step_ok ev (s : System) : system_ok s -> system_ok (system_step ev s).
Proof.
  intros [Hp Hw]. destruct ev as [pev| |i ok|i|]; simpl.
  - split; simpl; [apply page_step_ok, Hp|].
    destruct (the_worker s) as [w|].
    + intros _. apply page_step_has_worker, Hw. eexists; reflexivity.
    + destruct (worker (vars (page_step pev (page s)))); [reflexivity|].
      intros [w H]. discriminate.
  - destruct (the_worker s) as [w|] eqn:Hs; [|split; [exact Hp | rewrite Hs; exact Hw]].
    destruct (m_outbox (page s)) as [|e rest]; [split; [exact Hp | rewrite Hs; exact Hw]|].
    split; simpl.
    + destruct Hp as [H1 H2 H3 H4 H5]. split; assumption.
    + intros _. apply Hw. eexists; reflexivity.
  - split; simpl; [exact Hp|]. intros H. apply Hw.
    destruct (the_worker s); [eexists; reflexivity | destruct H; discriminate].
  - split; simpl; [exact Hp|]. intros H. apply Hw.
    destruct (the_worker s); [eexists; reflexivity | destruct H; discriminate].
  - destruct (the_worker s) as [w|] eqn:Hs; [|split; [exact Hp | rewrite Hs; exact Hw]].
    destruct (w_outbox w) as [|m rest]; [split; [exact Hp | rewrite Hs; exact Hw]|].
    assert (Hwk : worker (vars (page s)) = true) by (apply Hw; eexists; reflexivity).
    split; simpl.
    + apply worker_onmessage_ok; assumption.
    + intros _. apply worker_onmessage_has_worker, Hwk.
Qed.

Lemma reachable_ok (s : System) : reachable s -> system_ok s.
Proof.
  intros [evs ->]. unfold system_run.
  assert (H0 : system_ok system_start).
  { split; [apply page_start_ok|]. intros [w H]. discriminate. }
  revert H0. generalize (@system_start E). induction evs as [|ev evs IH]; intros s0 H0; simpl.
  - exact H0.
  - apply IH, system_step_ok, H0.
Qed.

End SystemPage.

Section SystemTheorems.
Context {E : Engine}.

(** X5: in every state the page and its worker can reach, each of the two
    animation callbacks has at most one request pending, and a pending request
    is the latest of its callback, the one whose handle the variable holds:
    [startAnimation] cancels what it re-requests, so reloading a file, a
    resize or the end of an export never leaves two preview loops running. *)
Theorem animation_loops_stay_single (s : System) (cb : FrameCallback) :
  reachable s ->
  length (pending cb (page s)) <= 1 /\
  (forall h, In (h, cb) (requests (page s)) -> handle_of cb (vars (page s)) = Some h).
Proof.
  intros Hr. destruct (reachable_ok s Hr) as [[Hl _ _ _ _] _]. split.
  - apply loops_single, Hl.
  - intros h Hin. destruct Hl as [Hn _ _ _ _]. simpl in Hn.
    rewrite Forall_forall in Hn.
    specialize (Hn _ (proj2 (list_elem_of_In _ _) Hin)). simpl in Hn.
    destruct cb; exact Hn.
Qed.

(** X6: in every state the page and its worker can reach, the download button is
    enabled exactly when there is an object URL, the generated image then
    shows that URL, and a click on the button never throws: without a URL it
    does nothing, with one it offers the bytes shown, under the selected
    file's name with [-captioned] before its extension. *)
Theorem download_offers_the_shown_export (s : System) :
  reachable s ->
  match processedGifUrl (vars (page s)) with
  | None =>
      downloadButton_disabled (doc (page s)) = true /\
      generatedGif_hidden (doc (page s)) = true /\
      downloadButton_click (page s) = (Normal None, page s)
  | Some u =>
      downloadButton_disabled (doc (page s)) = false /\
      generatedGif_hidden (doc (page s)) = false /\
      generatedGif_src (doc (page s)) = Some u /\
      exists file,
        currentFile (vars (page s)) = Some file /\
        downloadButton_click (page s) =
          (Normal (Some {| download := (baseName (file_name file) ++ "-captioned"
                                          ++ extension (file_name file))%string;
                           href := u |}),
           page s)
  end.
Proof.
  intros Hr. destruct (reachable_ok s Hr) as [[_ Hd _ Hf _] _].
  unfold download_ok, file_ok in *.
  unfold downloadButton_click. rewrite bind_var.
  destruct (processedGifUrl (vars (page s))) as [u|].
  - destruct Hd as (H1 & H2 & H3). repeat split; try assumption.
    destruct Hf as [file Hfile]; [right; eexists; reflexivity|].
    exists file. split; [exact Hfile|]. rewrite bind_var, Hfile. reflexivity.
  - destruct Hd as (H1 & H2). repeat split; assumption.
Qed.

(** X7: in every state the page and its worker can reach, while [isProcessing]
    is set the process button is disabled and labelled 'Processing...'. *)
Theorem process_button_is_disabled_while_processing (s : System) :
  reachable s ->
  isProcessing (vars (page s)) = true ->
  processButton (doc (page s)) = {| disabled := true; textContent := "Processing..." |}.
Proof. intros Hr. destruct (reachable_ok s Hr) as [[_ _ Hb _ _] _]. exact Hb. Qed.

Lemma stuck_step ev (s : System) :
  isProcessing (vars (page s)) = true -> in_flight s = 0 ->
  isProcessing (vars (page (system_step ev s))) = true /\ in_flight (system_step ev s) = 0.
Proof.
  intros Hb Hf. rewrite in_flight_split in Hf.
  destruct ev as [pev| |i ok|i|].
  - assert (Hp : isProcessing (vars (page_step pev (page s))) = true /\
                 page_in_flight (page_step pev (page s)) = 0).
    { destruct (page_step_flight pev (page s)) as [H1 H2|H1 H2 H3|H1 H2];
        [split; [congruence | lia] | congruence | lia]. }
    destruct Hp as [Hp1 Hp2]. split; [exact Hp1|].
    rewrite in_flight_split. cbn [system_step page the_worker]. rewrite Hp2.
    destruct (the_worker s) as [w|]; [lia|].
    destruct (worker (vars (page_step pev (page s)))); reflexivity.
  - cbn [system_step]. destruct (the_worker s) as [w|] eqn:Hw.
    + destruct (m_outbox (page s)) as [|e rest] eqn:Ho.
      * split; [exact Hb|]. rewrite in_flight_split, Hw. exact Hf.
      * unfold page_in_flight in Hf. rewrite Ho in Hf. simpl in Hf. lia.
    + split; [exact Hb|]. rewrite in_flight_split, Hw. exact Hf.
  - cbn [system_step page]. split; [exact Hb|]. rewrite in_flight_split.
    cbn [page the_worker]. destruct (the_worker s) as [w|]; [|exact Hf]. simpl.
    unfold init_settled. destruct (w_tasks w) as [|t ts] eqn:Ht; [|simpl in Hf; lia].
    rewrite lookup_nil, Ht. exact Hf.
  - cbn [system_step page]. split; [exact Hb|]. rewrite in_flight_split.
    cbn [page the_worker]. destruct (the_worker s) as [w|]; [|exact Hf]. simpl.
    unfold resume. destruct (w_tasks w) as [|t ts] eqn:Ht; [|simpl in Hf; lia].
    rewrite lookup_nil, Ht. exact Hf.
  - cbn [system_step]. destruct (the_worker s) as [w|] eqn:Hw.
    + destruct (w_outbox w) as [|m rest] eqn:Ho.
      * split; [exact Hb|]. rewrite in_flight_split, Hw, Ho. exact Hf.
      * simpl in Hf. lia.
    + split; [exact Hb|]. rewrite in_flight_split, Hw. exact Hf.
Qed.

(** X8: a page that is processing with no export in flight stays so for ever:
    whatever happens next, [isProcessing] remains set, nothing is in flight,
    and every click on the process button is ignored.  The state after a
    rejected [init()] of the worker is such a state. *)
Theorem processing_without_export_is_final (s : System) (evs : list SystemEvent) :
  isProcessing (vars (page s)) = true ->
  in_flight s = 0 ->
  isProcessing (vars (page (system_run evs s))) = true /\
  in_flight (system_run evs s) = 0 /\
  processButton_click (page (system_run evs s)) = (Normal tt, page (system_run evs s)).
Proof.
  intros Hb Hf.
  assert (H : isProcessing (vars (page (system_run evs s))) = true /\
              in_flight (system_run evs s) = 0).
  { revert s Hb Hf. induction evs as [|ev evs IH]; intros s Hb Hf; [split; assumption|].
    destruct (stuck_step ev s Hb Hf) as [Hb' Hf']. apply (IH _ Hb' Hf'). }
  destruct H as [H1 H2]. repeat split; try assumption.
  apply click_guard. right. exact H1.
Qed.

End SystemTheorems.

Lemma toy_loaded_reachable : @reachable toy_engine toy_loaded.
Proof.
  exists [OnPage (FileChosen toy_file); OnPage (ReadSettled 0 true);
          OnPage (ControlEdited captionText_control "HELLO")].
  vm_compute. reflexivity.
Defined.

Lemma toy_done_reachable : @reachable toy_engine toy_done.
Proof.
  exists [OnPage (FileChosen toy_file); OnPage (ReadSettled 0 true);
          OnPage (ControlEdited captionText_control "HELLO");
          OnPage ProcessClick; OnPage (ReadSettled 0 true);
          ToWorker; InWorker_InitSettled 0 true; InWorker_Resume 0; ToPage].
  vm_compute. reflexivity.
Defined.

Lemma toy_done_url :
  processedGifUrl (vars (page toy_done)) = Some [x05; x0a; x2a]%byte.
Proof. vm_compute. reflexivity. Qed.

Lemma animation_loops_stay_single_witness :
  @reachable toy_engine toy_loaded /\
  length (pending animate_callback (page toy_loaded)) <= 1.
Proof.
  split; [exact toy_loaded_reachable|].
  apply (animation_loops_stay_single toy_loaded animate_callback toy_loaded_reachable).
Defined.

Lemma download_offers_the_shown_export_witness :
  @reachable toy_engine toy_done /\
  exists file,
    currentFile (vars (page toy_done)) = Some file /\
    downloadButton_click (page toy_done) =
      (Normal (Some {| download := (baseName (file_name file) ++ "-captioned"
                                      ++ extension (file_name file))%string;
                       href := [x05; x0a; x2a]%byte |}),
       page toy_done).
Proof.
  split; [exact toy_done_reachable|].
  pose proof (download_offers_the_shown_export toy_done toy_done_reachable) as H.
  rewrite toy_done_url in H. destruct H as (_ & _ & _ & H). exact H.
Defined.

Lemma process_button_is_disabled_while_processing_witness :
  (@reachable toy_engine toy_exporting /\
   isProcessing (vars (page toy_exporting)) = true) /\
  processButton (doc (page toy_exporting)) =
    {| disabled := true; textContent := "Processing..." |}.
Proof.
  assert (H : isProcessing (vars (page toy_exporting)) = true) by (vm_compute; reflexivity).
  split; [split; [exact toy_exporting_reachable | exact H]|].
  apply (process_button_is_disabled_while_processing toy_exporting toy_exporting_reachable H).
Defined.

Lemma processing_without_export_is_final_witness :
  (isProcessing (vars (page toy_init_failed)) = true /\ in_flight toy_init_failed = 0) /\
  isProcessing (vars (page (system_run [OnPage ProcessClick; ToPage] toy_init_failed))) = true.
Proof.
  assert (H : isProcessing (vars (page toy_init_failed)) = true /\
              in_flight toy_init_failed = 0) by (vm_compute; split; reflexivity).
  split; [exact H|].
  apply (processing_without_export_is_final toy_init_failed [OnPage ProcessClick; ToPage]);
    apply H.
Defined.

(** * What the listeners of the page do *)

Section Handlers.
Context {E : Engine}.

Lemma animate_render_fails ts (s : Main) p p' err :
  heap (m_realm s) !! gifProcessor = Some p ->
  exceeds (ts - reference_time (lastFrameTime (vars s)) ts)%Q (get_frame_delay p) = true ->
  render_current_frame p = (p', inl err) ->
  fst (animate ts s) = Throw (EngineError err) /\
  requests (exec (animate ts) s) = requests s /\
  next_request (exec (animate ts) s) = next_request s /\
  calls (m_realm (exec (animate ts) s)) =
    calls (m_realm s) ++ [CallGetFrameDelay gifProcessor; CallRender gifProcessor].
Proof.
  intros Hp Hx Hr. unfold exec, animate, reference_time in *. js_eval.
  destruct (Qeq_bool (lastFrameTime (vars s)) 0) eqn:Hz; js_eval.
  all: erewrite in_realm_invoke_getter by exact Hp; js_eval.
  all: rewrite Hx; js_eval.
  all: erewrite in_realm_invoke by (simpl; exact Hp); rewrite Hr; js_eval.
  all: rewrite <- app_assoc; repeat split.
Qed.

End Handlers.

Section Handlers2.
Context {E : Engine}.

Lemma updatePreview_run (s : Main) p :
  heap (m_realm s) !! gifProcessor = Some p ->
  exists r cs, updatePreview s = (Normal tt, set_doc (set_console cs (doc s)) (set_m_realm r s)).
Proof.
  intros Hp. unfold updatePreview. js_eval.
  destruct (String.eqb (captionText (controls (doc s))) "").
  - exists (m_realm s), (console (doc s)). destruct s as [r v [] rq nx tk ob]. reflexivity.
  - erewrite in_realm_invoke_getter by exact Hp. js_eval.
    erewrite in_realm_invoke by (simpl; rewrite Hp; reflexivity).
    match goal with |- context [add_caption ?a ?b ?c ?d ?e ?f] =>
      destruct (add_caption a b c d e f) as [p1 [err|[]]] end; js_eval.
    + eexists _, _. destruct s as [r v [] rq nx tk ob]. reflexivity.
    + eexists _, (console (doc s)). destruct s as [r v [] rq nx tk ob]. reflexivity.
Qed.

(** X10: [updatePreview] never lets a failing [add_caption] out: the error is
    logged and the function returns; it writes no variable and requests no
    frame.  With an empty caption text it returns before any engine call. *)
Theorem caption_errors_are_logged (s : Main) (p : Proc) :
  heap (m_realm s) !! gifProcessor = Some p ->
  fst (updatePreview s) = Normal tt /\
  vars (exec updatePreview s) = vars s /\
  requests (exec updatePreview s) = requests s /\
  (captionText (controls (doc s)) = "" -> exec updatePreview s = s) /\
  (captionText (controls (doc s)) <> "" ->
   forall err,
     (forall text x y size font, snd (add_caption p text x y size font) = inl err) ->
     console (doc (exec updatePreview s)) =
       console (doc s) ++ [("Error updating preview: " ++ toString err)%string]).
Proof.
  intros Hp. destruct (updatePreview_run s p Hp) as (r & cs & Hrun).
  split; [rewrite Hrun; reflexivity|].
  split; [unfold exec; rewrite Hrun; reflexivity|].
  split; [unfold exec; rewrite Hrun; reflexivity|].
  clear Hrun. unfold exec, updatePreview. js_eval. split.
  - intros Ht. rewrite Ht. reflexivity.
  - intros Ht err Herr.
    destruct (String.eqb_spec (captionText (controls (doc s))) "") as [He|_]; [contradiction|].
    erewrite in_realm_invoke_getter by exact Hp. js_eval.
    erewrite in_realm_invoke by (simpl; rewrite Hp; reflexivity).
    match goal with |- context [add_caption ?a ?b ?c ?d ?e ?f] =>
      pose proof (Herr b c d e f) as Hc;
      destruct (add_caption a b c d e f) as [p1 res] end.
    simpl in Hc. subst res. js_eval. reflexivity.
Qed.

End Handlers2.

Section Handlers3.
Context {E : Engine}.

Lemma click_catch_run x (s : Main) :
  fst (click_catch x s) = Normal tt /\
  doc (exec (click_catch x) s) =
    set_alerts (alerts (doc s) ++ ["Error processing GIF. Please try again."])
      (set_console (console (doc s) ++ [("Error processing GIF: " ++ Exn_toString x)%string])
         (doc s)) /\
  isProcessing (vars (exec (click_catch x) s)) = false /\
  m_tasks (exec (click_catch x) s) = m_tasks s /\
  m_outbox (exec (click_catch x) s) = m_outbox s.
Proof.
  unfold exec, click_catch. js_eval.
  match goal with
  | |- context [startAnimation ?X] =>
      destruct (startAnimation_effect X) as (H1 & H2 & H3 & H4 & H5 & _);
      rewrite (startAnimation_run X); unfold exec
  end.
  simpl in *. rewrite H2, H3, H4, H5. repeat split.
Qed.

(** X11: the [catch] block of the click listener shows the alert and clears
    [isProcessing], but does not give the button back: after a click whose
    [prepare_text_overlay] throws, and after a click whose file cannot be
    read, the process button is still disabled and still says
    'Processing...', and nothing was posted to the worker. *)
Theorem failed_click_leaves_the_button_disabled :
  (forall (s : Main) file p p' err,
     currentFile (vars s) = Some file ->
     isProcessing (vars s) = false ->
     heap (m_realm s) !! gifProcessor = Some p ->
     prepare_from_controls (doc s) p = (p', inl err) ->
     fst (processButton_click s) = Normal tt /\
     processButton (doc (exec processButton_click s)) =
       {| disabled := true; textContent := "Processing..." |} /\
     isProcessing (vars (exec processButton_click s)) = false /\
     alerts (doc (exec processButton_click s)) =
       alerts (doc s) ++ ["Error processing GIF. Please try again."] /\
     m_tasks (exec processButton_click s) = m_tasks s /\
     m_outbox (exec processButton_click s) = m_outbox s) /\
  (forall (s : Main) x t,
     fst (processButton_click_read (Throw x) t s) = Normal tt /\
     processButton (doc (exec (processButton_click_read (Throw x) t) s)) =
       processButton (doc s) /\
     isProcessing (vars (exec (processButton_click_read (Throw x) t) s)) = false /\
     alerts (doc (exec (processButton_click_read (Throw x) t) s)) =
       alerts (doc s) ++ ["Error processing GIF. Please try again."] /\
     m_outbox (exec (processButton_click_read (Throw x) t) s) = m_outbox s).
Proof.
  split.
  - intros s file p p' err Hf Hb Hp Ht.
    unfold exec, processButton_click. js_eval. rewrite Hf, Hb.
    destruct (worker (vars s)) eqn:Hw; js_eval.
    all: erewrite in_realm_invoke by exact Hp.
    all: unfold prepare_from_controls in *; js_eval; rewrite Ht; js_eval.
    all: match goal with
         | |- context [click_catch ?x ?X] =>
             destruct (click_catch_run x X) as (H1 & H2 & H3 & H4 & H5);
             unfold exec in *; destruct (click_catch x X) as [c s']
         end.
    all: js_eval; simpl in *; subst c; rewrite H2, H3, H4, H5; repeat split.
  - intros s x t. unfold exec, processButton_click_read. js_eval.
    destruct (click_catch_run x s) as (H1 & H2 & H3 & H4 & H5).
    unfold exec in *. destruct (click_catch x s) as [c s'].
    simpl in *. subst c. rewrite H2, H3, H5. repeat split.
Qed.

End Handlers3.

Section Handlers4.
Context {E : Engine}.

(** X12: what the page makes of the exported bytes.  When they decode, the
    processed preview holds them, the generated image and the download show
    them, the process button is given back and the animation restarts.  When
    [processedGifProcessor.process_gif] throws, the listener is left at once:
    the bytes are stored, but the download stays as it was, and the button
    and [isProcessing] stay as the click left them. *)
Theorem export_result_is_shown_or_the_page_stays_busy (s : Main) (data : bytes) (p : Proc) :
  heap (m_realm s) !! processedGifProcessor = Some p ->
  let s' := exec (worker_onmessage (gif_processed data)) s in
  processedGifData (vars s') = Some data /\
  heap (m_realm s') !! processedGifProcessor = Some (fst (process_gif p data)) /\
  match snd (process_gif p data) with
  | inr _ =>
      fst (worker_onmessage (gif_processed data) s) = Normal tt /\
      download_vars s' = (false, false, Some data, Some data) /\
      processButton (doc s') = {| disabled := false; textContent := "Process GIF" |} /\
      isProcessing (vars s') = false /\
      loop_vars s' =
        (restarted s, S (S (next_request s)), Some (next_request s),
         Some (S (next_request s)))
  | inl err =>
      fst (worker_onmessage (gif_processed data) s) = Throw (EngineError err) /\
      download_vars s' = download_vars s /\
      processButton (doc s') = processButton (doc s) /\
      isProcessing (vars s') = isProcessing (vars s) /\
      loop_vars s' = loop_vars s
  end.
Proof.
  intros Hp. cbv zeta. unfold exec. rewrite gif_processed_run.
  erewrite in_realm_invoke by (simpl; exact Hp).
  assert (Hl : forall q, <[processedGifProcessor := q]> (heap (m_realm s))
                           !! processedGifProcessor = Some q)
    by (intros q; apply list_lookup_insert_eq; eapply lookup_lt_Some, Hp).
  destruct (process_gif p data) as [p1 [err|[]]]; cbn [of_result fst snd].
  - repeat split. simpl. apply Hl.
  - match goal with |- context [startAnimation ?X] =>
      pose proof (startAnimation_loop_vars X eq_refl) as Hv;
      destruct (startAnimation_effect X) as (H1 & H2 & _ & _ & H5 & _);
      destruct (startAnimation_frame X) as (H8 & _);
      assert (Hd : stable (fun x => processedGifData (vars x) = Some data) startAnimation)
        by stable_with frame_fin;
      specialize (Hd X eq_refl);
      pose proof (startAnimation_normal X) as Hn;
      change (exec startAnimation X) with (snd (startAnimation X)) in Hv;
      destruct (startAnimation X) as [c s']
    end.
    cbn [fst snd] in Hv, H1, H2, H5, H8, Hd, Hn |- *. subst c.
    rewrite Hd, H1, H2, H5, H8, Hv.
    repeat split. apply Hl.
Qed.

End Handlers4.

Section Handlers5.
Context {E : Engine}.

Lemma reset_download_run (s : Main) :
  reset_download s =
    (Normal tt,
     set_vars (set_processedGifUrl None (vars s))
       (set_doc (set_downloadButton_disabled true (set_generatedGif_hidden true (doc s))) s)).
Proof.
  destruct s as [r [cf pd pu wk id pid lt lpt ip] d rq nx tk ob].
  unfold reset_download. js_eval. destruct pu; reflexivity.
Qed.

(** X13: an edit of any of the five controls withdraws the download: the button
    is disabled, the generated image hidden and the object URL dropped, so a
    click on the download button does nothing.  The edit leaves the stored
    bytes, [isProcessing], the frame requests and an export under way as they
    are: the export is not cancelled. *)
Theorem editing_a_control_withdraws_the_download (s : Main) which value :
  is_Some (heap (m_realm s) !! gifProcessor) ->
  let s' := exec (control_edited which value) s in
  download_vars s' = (true, true, generatedGif_src (doc s), None) /\
  downloadButton_click s' = (Normal None, s') /\
  processedGifData (vars s') = processedGifData (vars s) /\
  isProcessing (vars s') = isProcessing (vars s) /\
  m_tasks s' = m_tasks s /\ m_outbox s' = m_outbox s /\ requests s' = requests s.
Proof.
  intros [p Hp]. cbv zeta.
  assert (Hu : processedGifUrl (vars (exec (control_edited which value) s)) = None /\
               download_vars (exec (control_edited which value) s) =
                 (true, true, generatedGif_src (doc s), None) /\
               processedGifData (vars (exec (control_edited which value) s)) =
                 processedGifData (vars s) /\
               isProcessing (vars (exec (control_edited which value) s)) =
                 isProcessing (vars s) /\
               m_tasks (exec (control_edited which value) s) = m_tasks s /\
               m_outbox (exec (control_edited which value) s) = m_outbox s /\
               requests (exec (control_edited which value) s) = requests s).
  { unfold exec, control_edited. cbv beta iota delta [bind write modify].
    destruct which.
    all: repeat first
           [ rewrite reset_download_run; cbv beta iota
           | match goal with
             | |- context [updatePreview ?X] =>
                 destruct (updatePreview_run X p Hp) as (r & cs & ->); cbv beta iota
             end ].
    all: simpl; repeat split. }
  destruct Hu as (Hu & H1 & H2 & H3 & H4 & H5 & H6).
  repeat split; try assumption.
  unfold downloadButton_click. rewrite bind_var, Hu. reflexivity.
Qed.

End Handlers5.

(** * Examples *)

Lemma strict_broken_reachable : @reachable strict_engine strict_broken.
Proof.
  exists [OnPage (FileChosen toy_file); OnPage (ReadSettled 0 true);
          OnPage (AnimationFrame 1 1000%Q);
          OnPage (FileChosen empty_file); OnPage (ReadSettled 0 true)].
  vm_compute. reflexivity.
Defined.

Lemma caption_errors_are_logged_witness :
  (heap (m_realm strict_captioned) !! @gifProcessor strict_engine
     = Some (None : @Proc strict_engine) /\
   captionText (controls (doc strict_captioned)) <> "") /\
  console (doc (exec updatePreview strict_captioned)) =
    console (doc strict_captioned)
    ++ [("Error updating preview: " ++ @toString strict_engine "no document")%string].
Proof.
  assert (Hp : heap (m_realm strict_captioned) !! @gifProcessor strict_engine
               = Some (None : @Proc strict_engine)) by (vm_compute; reflexivity).
  assert (Ht : captionText (controls (doc strict_captioned)) <> "")
    by (vm_compute; discriminate).
  split; [split; [exact Hp | exact Ht]|].
  apply (proj2 (proj2 (proj2 (proj2 (caption_errors_are_logged strict_captioned None Hp)))) Ht).
  intros text x y size font. reflexivity.
Defined.

Lemma failed_click_leaves_the_button_disabled_witness :
  (currentFile (vars (page strict_loaded)) = Some toy_file /\
   isProcessing (vars (page strict_loaded)) = false) /\
  processButton (doc (exec processButton_click (page strict_loaded))) =
    {| disabled := true; textContent := "Processing..." |} /\
  isProcessing (vars (exec processButton_click (page strict_loaded))) = false.
Proof.
  assert (Hf : currentFile (vars (page strict_loaded)) = Some toy_file)
    by (vm_compute; reflexivity).
  assert (Hb : isProcessing (vars (page strict_loaded)) = false) by (vm_compute; reflexivity).
  assert (Hp : heap (m_realm (page strict_loaded)) !! @gifProcessor strict_engine
               = Some (Some [x05; x0a]%byte : @Proc strict_engine))
    by (vm_compute; reflexivity).
  assert (Ht : prepare_from_controls (doc (page strict_loaded))
                 (Some [x05; x0a]%byte : @Proc strict_engine)
               = (Some [x05; x0a]%byte, inl "empty caption")) by (vm_compute; reflexivity).
  split; [split; [exact Hf | exact Hb]|].
  destruct (proj1 failed_click_leaves_the_button_disabled (page strict_loaded) toy_file
              _ _ _ Hf Hb Hp Ht) as (_ & H2 & H3 & _).
  split; [exact H2 | exact H3].
Defined.

Lemma toy_answered_processed :
  heap (m_realm (page toy_answered)) !! @processedGifProcessor toy_engine
    = Some (Idle bytes : @Proc toy_engine).
Proof. vm_compute. reflexivity. Qed.

Lemma export_result_is_shown_or_the_page_stays_busy_witness :
  heap (m_realm (page toy_answered)) !! @processedGifProcessor toy_engine
    = Some (Idle bytes : @Proc toy_engine) /\
  isProcessing (vars (exec (worker_onmessage (gif_processed [])) (page toy_answered))) =
    isProcessing (vars (page toy_answered)) /\
  processButton (doc (exec (worker_onmessage (gif_processed [])) (page toy_answered))) =
    processButton (doc (page toy_answered)).
Proof.
  split; [exact toy_answered_processed|].
  pose proof (@export_result_is_shown_or_the_page_stays_busy toy_engine (page toy_answered) []
                (Idle bytes : @Proc toy_engine) toy_answered_processed) as H.
  destruct H as (_ & _ & H).
  change (snd (@process_gif toy_engine (Idle bytes) [])) with
    (@inl (@Error toy_engine) unit "MalformedHeader") in H.
  destruct H as (_ & _ & H3 & H4 & _). split; [exact H4 | exact H3].
Defined.

Lemma toy_done_preview :
  is_Some (heap (m_realm (page toy_done)) !! @gifProcessor toy_engine).
Proof. vm_compute. eexists. reflexivity. Qed.

Lemma editing_a_control_withdraws_the_download_witness :
  is_Some (heap (m_realm (page toy_done)) !! @gifProcessor toy_engine) /\
  downloadButton_click (exec (control_edited positionX_control "10") (page toy_done)) =
    (Normal None, exec (control_edited positionX_control "10") (page toy_done)).
Proof.
  split; [exact toy_done_preview|].
  apply (editing_a_control_withdraws_the_download (page toy_done) positionX_control "10"
           toy_done_preview).
Defined.


(** * Two files chosen in a row *)

Section FileRace.
Context {E : Engine}.

Lemma handleFile_read_frame b v :
  stable (fun s => (currentFile (vars s), m_tasks s) = v) (handleFile_read b).
Proof. stable_with frame_fin. Qed.

Lemma handleFile_read_heap (s : Main) data p :
  heap (m_realm s) !! gifProcessor = Some p ->
  heap (m_realm (exec (handleFile_read data) s)) !! gifProcessor =
    Some (fst (process_gif p data)).
Proof.
  intros Hp.
  assert (Hl : <[gifProcessor := fst (process_gif p data)]> (heap (m_realm s))
                 !! gifProcessor = Some (fst (process_gif p data)))
    by (apply list_lookup_insert_eq; eapply lookup_lt_Some, Hp).
  assert (Hs : stable (fun x => heap (m_realm x) !! gifProcessor
                                = Some (fst (process_gif p data)))
                 (dimensions <- in_realm (invoke_getter "get_dimensions" CallGetDimensions
                                   (fun p => inr (get_dimensions p)) (Some gifProcessor)) ;;
                  write (fun d => set_preview
                                    (resized (width dimensions) (height dimensions) (preview d)) d) ;;;
                  write (fun d => set_processedPreview
                                    (resized (width dimensions) (height dimensions)
                                       (processedPreview d)) d) ;;;
                  startAnimation)) by stable_with heap_fin.
  assert (Hc : forall err, stable (fun x => heap (m_realm x) !! gifProcessor
                                = Some (fst (process_gif p data)))
                 (console_error ("Error processing GIF: " ++ Exn_toString err) ;;;
                  write (set_fileInfo FailedToProcess))) by (intros; stable_with heap_fin).
  unfold exec, handleFile_read, try_catch.
  unfold bind at 1. erewrite in_realm_invoke by exact Hp.
  destruct (process_gif p data) as [p1 [err|[]]]; cbn [of_result fst snd] in *.
  - apply (Hc (EngineError err)). exact Hl.
  - match goal with
    | |- context [match ?m ?X with _ => _ end] =>
        pose proof (Hs X Hl) as H1; pose proof (fun err => Hc err (snd (m X))) as H2;
        destruct (m X) as [[a|x] s1]
    end; cbn [fst snd] in *; [exact H1 | apply H2, H1].
Qed.

Lemma handleFile_run file (s : Main) :
  exec (handleFile file) s =
    set_m_tasks (m_tasks s ++ [HandleFileReading file])
      (set_doc (set_fileInfo (SelectedFile file) (doc s))
         (set_vars (set_currentFile (Some file) (vars s)) s)).
Proof. reflexivity. Qed.

Lemma page_step_read (s : Main) i file :
  m_tasks s !! i = Some (HandleFileReading file) ->
  page_step (ReadSettled i true) s =
    exec (handleFile_read (file_data file)) (set_m_tasks (delete i (m_tasks s)) s).
Proof. intros H. cbn [page_step]. rewrite H. reflexivity. Qed.

Lemma lookup_snoc2 {A} (l : list A) a b :
  (l ++ [a; b]) !! S (length l) = Some b /\ delete (S (length l)) (l ++ [a; b]) = l ++ [a] /\
  (l ++ [a]) !! length l = Some a /\ delete (length l) (l ++ [a]) = l.
Proof.
  induction l as [|x l (H1 & H2 & H3 & H4)]; simpl; [repeat split|].
  rewrite H2, H4. repeat split; assumption.
Qed.

(** X15: when two files are chosen one after the other and the first is read
    last, the page ends with the second as the selected file, the one an
    export would read, while the preview engine holds what the first decoded
    to: [handleFile] does not check, after its [await], that its file is
    still the selected one. *)
Theorem later_read_decides_the_preview (s : Main) (f1 f2 : File) (p : Proc) :
  heap (m_realm s) !! gifProcessor = Some p ->
  let n := length (m_tasks s) in
  let s' := page_step (ReadSettled n true)
              (page_step (ReadSettled (S n) true)
                 (page_step (FileChosen f2) (page_step (FileChosen f1) s))) in
  currentFile (vars s') = Some f2 /\
  m_tasks s' = m_tasks s /\
  heap (m_realm s') !! gifProcessor =
    Some (fst (process_gif (fst (process_gif p (file_data f2))) (file_data f1))).
Proof.
  intros Hp. cbv zeta.
  destruct (lookup_snoc2 (m_tasks s) (HandleFileReading f1) (HandleFileReading f2))
    as (L1 & L2 & L3 & L4).
  set (s2 := page_step (FileChosen f2) (page_step (FileChosen f1) s)).
  assert (T2 : m_tasks s2 = m_tasks s ++ [HandleFileReading f1; HandleFileReading f2])
    by (unfold s2; cbn [page_step]; rewrite !handleFile_run; simpl;
        rewrite <- app_assoc; reflexivity).
  assert (C2 : currentFile (vars s2) = Some f2) by reflexivity.
  assert (H2 : heap (m_realm s2) !! gifProcessor = Some p) by exact Hp.
  clearbody s2.
  rewrite (page_step_read s2 (S (length (m_tasks s))) f2) by (rewrite T2; exact L1).
  pose proof (handleFile_read_frame (file_data f2) _
                (set_m_tasks (delete (S (length (m_tasks s))) (m_tasks s2)) s2) eq_refl) as F3.
  pose proof (handleFile_read_heap
                (set_m_tasks (delete (S (length (m_tasks s))) (m_tasks s2)) s2)
                (file_data f2) p H2) as H3.
  change (snd (handleFile_read ?d ?X)) with (exec (handleFile_read d) X) in F3.
  set (s3 := exec (handleFile_read (file_data f2)) _) in *.
  cbn [currentFile vars m_tasks set_m_tasks] in F3. rewrite T2, L2, C2 in F3.
  injection F3 as C3 T3. clearbody s3.
  rewrite (page_step_read s3 (length (m_tasks s)) f1) by (rewrite T3; exact L3).
  pose proof (handleFile_read_frame (file_data f1) _
                (set_m_tasks (delete (length (m_tasks s)) (m_tasks s3)) s3) eq_refl) as F4.
  pose proof (handleFile_read_heap
                (set_m_tasks (delete (length (m_tasks s)) (m_tasks s3)) s3)
                (file_data f1) _ H3) as H4.
  change (snd (handleFile_read ?d ?X)) with (exec (handleFile_read d) X) in F4.
  set (s4 := exec (handleFile_read (file_data f1)) _) in *.
  cbn [currentFile vars m_tasks set_m_tasks] in F4. rewrite T3, L4, C3 in F4.
  injection F4 as C4 T4.
  repeat split; assumption.
Qed.

End FileRace.


Lemma later_read_decides_the_preview_witness :
  heap (m_realm (@page_start toy_engine)) !! @gifProcessor toy_engine
    = Some (Idle bytes : @Proc toy_engine) /\
  currentFile (vars (page_step (ReadSettled 0 true)
                       (page_step (ReadSettled 1 true)
                          (page_step (FileChosen other_file)
                             (page_step (FileChosen toy_file) (@page_start toy_engine))))))
    = Some other_file /\
  heap (m_realm (page_step (ReadSettled 0 true)
                   (page_step (ReadSettled 1 true)
                      (page_step (FileChosen other_file)
                         (page_step (FileChosen toy_file) (@page_start toy_engine))))))
    !! @gifProcessor toy_engine
    = Some (Ready bytes [x05; x0a]%byte 0 : @Proc toy_engine).
Proof.
  assert (Hp : heap (m_realm (@page_start toy_engine)) !! @gifProcessor toy_engine
               = Some (Idle bytes : @Proc toy_engine)) by reflexivity.
  split; [exact Hp|].
  destruct (@later_read_decides_the_preview toy_engine page_start toy_file other_file
              (Idle bytes : @Proc toy_engine) Hp) as (H1 & _ & H3).
  split; [exact H1 | exact H3].
Defined.

(** * The outcome of a tick *)

Section TickOutcome.
Context {E : Engine}.

Lemma run_bind_inv {St A B} (I : St -> Prop) (P : completion B * St -> Prop)
    (m : JS St A) (k : A -> JS St B) (s : St) :
  I s -> stable I m ->
  (forall x s1, I s1 -> P (Throw x, s1)) ->
  (forall a s1, I s1 -> P (k a s1)) ->
  P (bind m k s).
Proof.
  intros Hs Hm Ht Hk. specialize (Hm s Hs). unfold bind.
  destruct (m s) as [[a|x] s1]; simpl in *; [apply Hk | apply Ht]; exact Hm.
Qed.

Lemma animate_outcome ts (s : Main) :
  (fst (animate ts s) = Normal tt ->
   loop_vars (snd (animate ts s)) =
     (requests s ++ [(next_request s, animate_callback)], S (next_request s),
      Some (next_request s), processedAnimationFrameId (vars s))) /\
  (forall x, fst (animate ts s) = Throw x ->
   loop_vars (snd (animate ts s)) = loop_vars s).
Proof.
  set (I := fun x : Main => loop_vars x = loop_vars s).
  set (P := fun r : completion unit * Main =>
    (fst r = Normal tt ->
     loop_vars (snd r) =
       (requests s ++ [(next_request s, animate_callback)], S (next_request s),
        Some (next_request s), processedAnimationFrameId (vars s))) /\
    (forall x, fst r = Throw x -> loop_vars (snd r) = loop_vars s)).
  change (P (animate ts s)).
  assert (Hthrow : forall x s1, I s1 -> P (Throw x, s1))
    by (intros x s1 H1; split; [discriminate | intros _ _; exact H1]).
  assert (H0 : I s) by reflexivity.
  unfold animate.
  do 5 (apply (run_bind_inv I);
        [eassumption | stable_with frame_fin | exact Hthrow | clear H0; intros ? ? H0]).
  unfold I, loop_vars in H0. injection H0 as Hr Hn Hid Hpid.
  split; [intros _ | intros x Hx; discriminate].
  unfold loop_vars. js_eval. simpl. rewrite Hr, Hn, Hpid. reflexivity.
Qed.

Lemma animateProcessed_outcome ts (s : Main) :
  (fst (animateProcessed ts s) = Normal tt ->
   loop_vars (snd (animateProcessed ts s)) =
     (requests s ++ [(next_request s, animateProcessed_callback)], S (next_request s),
      animationFrameId (vars s), Some (next_request s))) /\
  (forall x, fst (animateProcessed ts s) = Throw x ->
   loop_vars (snd (animateProcessed ts s)) = loop_vars s).
Proof.
  set (I := fun x : Main => loop_vars x = loop_vars s).
  set (P := fun r : completion unit * Main =>
    (fst r = Normal tt ->
     loop_vars (snd r) =
       (requests s ++ [(next_request s, animateProcessed_callback)], S (next_request s),
        animationFrameId (vars s), Some (next_request s))) /\
    (forall x, fst r = Throw x -> loop_vars (snd r) = loop_vars s)).
  change (P (animateProcessed ts s)).
  assert (Hthrow : forall x s1, I s1 -> P (Throw x, s1))
    by (intros x s1 H1; split; [discriminate | intros _ _; exact H1]).
  assert (H0 : I s) by reflexivity.
  unfold animateProcessed.
  do 6 (apply (run_bind_inv I);
        [eassumption | stable_with frame_fin | exact Hthrow | clear H0; intros ? ? H0]).
  unfold I, loop_vars in H0. injection H0 as Hr Hn Hid Hpid.
  split; [intros _ | intros x Hx; discriminate].
  unfold loop_vars. js_eval. simpl. rewrite Hr, Hn, Hid. reflexivity.
Qed.

(** X16: a frame callback keeps its loop going exactly when it returns: in
    every state the page and its worker can reach, when the request [h] of a
    callback is served, a tick that returns leaves one request of that
    callback pending, the new one, with its handle in the callback's
    variable; a tick that throws, at whatever call, leaves none, and that
    loop is over until [startAnimation] runs again. *)
Theorem tick_rearms_unless_it_throws (s : System) (h : nat) (ts : Q) (cb : FrameCallback) :
  reachable s ->
  find_request h (requests (page s)) = Some cb ->
  let s0 := set_requests (cancel_request h (requests (page s))) (page s) in
  let r := match cb with
           | animate_callback => animate ts s0
           | animateProcessed_callback => animateProcessed ts s0
           end in
  page_step (AnimationFrame h ts) (page s) = snd r /\
  (fst r = Normal tt ->
   pending cb (snd r) = [(next_request (page s), cb)] /\
   handle_of cb (vars (snd r)) = Some (next_request (page s))) /\
  (forall x, fst r = Throw x -> pending cb (snd r) = []).
Proof.
  intros Hr Hf. cbv zeta.
  destruct (reachable_ok s Hr) as [[Hl _ _ _ _] _].
  pose proof (find_request_cancel _ _ _ _ _ _ Hl Hf) as Hnil.
  split; [cbn [page_step]; rewrite Hf; destruct cb; reflexivity|].
  set (s0 := set_requests (cancel_request h (requests (page s))) (page s)).
  assert (Hout :
    forall r : completion unit * Main,
      ((fst r = Normal tt ->
        loop_vars (snd r) =
          (requests s0 ++ [(next_request s0, cb)], S (next_request s0),
           match cb with animate_callback => Some (next_request s0)
                       | _ => animationFrameId (vars s0) end,
           match cb with animateProcessed_callback => Some (next_request s0)
                       | _ => processedAnimationFrameId (vars s0) end)) /\
       (forall x, fst r = Throw x -> loop_vars (snd r) = loop_vars s0)) ->
      (fst r = Normal tt ->
       pending cb (snd r) = [(next_request (page s), cb)] /\
       handle_of cb (vars (snd r)) = Some (next_request (page s))) /\
      (forall x, fst r = Throw x -> pending cb (snd r) = [])).
  { intros r [H1 H2]. split.
    - intros Hn. specialize (H1 Hn). unfold loop_vars in H1.
      injection H1 as Hrq Hnx Hid Hpid. unfold pending. rewrite Hrq.
      rewrite List.filter_app. simpl in Hnil |- *. rewrite Hnil.
      destruct cb; simpl; split; auto.
    - intros x Hx. specialize (H2 x Hx). unfold loop_vars in H2.
      injection H2 as Hrq _ _ _. unfold pending. rewrite Hrq. exact Hnil. }
  destruct cb; apply Hout; [apply animate_outcome | apply animateProcessed_outcome].
Qed.

End TickOutcome.

Lemma tick_rearms_unless_it_throws_witness :
  (@reachable toy_engine toy_loaded /\
   find_request 1 (requests (page toy_loaded)) = Some animate_callback /\
   fst (animate 1000%Q (set_requests (cancel_request 1 (requests (page toy_loaded)))
                          (page toy_loaded))) = Normal tt) /\
  pending animate_callback
    (snd (animate 1000%Q (set_requests (cancel_request 1 (requests (page toy_loaded)))
                            (page toy_loaded)))) =
    [(next_request (page toy_loaded), animate_callback)].
Proof.
  assert (Hf : find_request 1 (requests (page toy_loaded)) = Some animate_callback)
    by (vm_compute; reflexivity).
  assert (Hn : fst (animate 1000%Q
                      (set_requests (cancel_request 1 (requests (page toy_loaded)))
                         (page toy_loaded))) = Normal tt) by (vm_compute; reflexivity).
  split; [split; [exact toy_loaded_reachable | split; [exact Hf | exact Hn]]|].
  apply (proj1 (proj2 (tick_rearms_unless_it_throws toy_loaded 1 1000%Q animate_callback
                         toy_loaded_reachable Hf)) Hn).
Defined.

(** * The export from end to end, and the pages' canvases *)

Section ExportPipeline.
Context {E : Engine}.

Lemma worker_handles (w : Worker) (e : WorkerRequest) :
  req_type e = "process_gif" ->
  (forall l, w_gifProcessor w = Some l -> is_Some (heap (w_realm w) !! l)) ->
  let w' := worker_run (Deliver e :: handling w) w in
  let l := fst (export_object w) in
  let q := snd (export_object w) in
  calls (w_realm w') = calls (w_realm w) ++ init_calls w ++ snd (fst (export_outcome l q e)) /\
  w_outbox w' = w_outbox w ++ [snd (export_outcome l q e)] /\
  w_tasks w' = w_tasks w /\
  w_gifProcessor w' = Some l /\
  heap (w_realm w') !! l = Some (fst (fst (export_outcome l q e))).
Proof.
  intros Ht Hobj. unfold handling, export_object, init_calls.
  destruct (w_gifProcessor w) as [l|] eqn:Hl.
  - destruct (Hobj l eq_refl) as [q Hq]. rewrite Hq. cbn [default fst snd from_option].
    cbn [worker_run fold_left worker_step]. unfold deliver. rewrite Hl.
    unfold exec. rewrite (onmessage_body_outcome e w l q Ht Hl Hq). cbn.
    repeat split.
    apply list_lookup_insert_eq. eapply lookup_lt_Some, Hq.
  - cbn [fst snd worker_run fold_left worker_step]. unfold deliver. rewrite Hl.
    unfold init_settled. cbn [w_tasks].
    rewrite lookup_app_r, Nat.sub_diag by lia. cbn [lookup list_lookup].
    unfold new_object, trace. cbn [heap calls w_realm w_tasks w_outbox w_gifProcessor].
    unfold resume. cbn [w_tasks].
    rewrite list_lookup_insert_eq by (rewrite length_app; simpl; lia).
    unfold exec.
    erewrite onmessage_body_outcome;
      [ | exact Ht | reflexivity
        | cbn [w_realm heap w_set_tasks]; rewrite lookup_app_r, Nat.sub_diag by lia; reflexivity ].
    cbn [fst snd w_realm w_gifProcessor w_tasks w_outbox w_set_tasks heap calls].
    rewrite delete_insert_last.
    repeat split.
    + rewrite <- !app_assoc. reflexivity.
    + apply list_lookup_insert_eq. rewrite length_app. simpl. lia.
Qed.

End ExportPipeline.

Section ExportPipeline2.
Context {E : Engine}.

Lemma click_suspends (p : Main) file q q' t :
  currentFile (vars p) = Some file ->
  isProcessing (vars p) = false ->
  heap (m_realm p) !! gifProcessor = Some q ->
  prepare_from_controls (doc p) q = (q', inr t) ->
  m_tasks (exec processButton_click p) = m_tasks p ++ [ClickReading file t] /\
  m_outbox (exec processButton_click p) = m_outbox p /\
  worker (vars (exec processButton_click p)) = true /\
  requests (exec processButton_click p) = requests p /\
  calls (m_realm (exec processButton_click p)) =
    calls (m_realm p) ++ [CallPrepare gifProcessor].
Proof.
  intros Hf Hb Hq Ht. destruct (processButton_click_effect p) as (Ho & Hc).
  unfold exec.
  destruct Hc as [[H|H] _|file' p1 p1' t' Hf' _ Hq' Ht' _ _ Hm Hr _ Hw Hcs
                 |p1 p1' err _ Hq' Ht' _ _ _ _|_ Hq' _ _ _ _]; try congruence.
  assert (file' = file) as -> by congruence.
  assert (p1 = q) as -> by congruence.
  assert (t' = t) as -> by congruence.
  repeat split; assumption.
Qed.

Lemma click_read_posts gifData t (s : Main) :
  worker (vars s) = true ->
  exec (processButton_click_read (Normal gifData) t) s =
    set_m_outbox (m_outbox s ++ [{| req_type := "process_gif"; req_gifData := gifData;
                                    req_textData := t |}]) s.
Proof. intros Hw. unfold exec. rewrite processButton_click_read_posts by exact Hw. reflexivity. Qed.

Lemma system_export_events (s : System) (w : Worker) e rest :
  the_worker s = Some w ->
  m_outbox (page s) = e :: rest ->
  system_run (export_events w) s =
    {| page := set_m_outbox rest (page s);
       the_worker := Some (worker_run (Deliver e :: handling w) w) |}.
Proof.
  intros Hw Ho. unfold export_events, handling.
  destruct (w_gifProcessor w); cbn [system_run fold_left system_step]; rewrite Hw, Ho;
    reflexivity.
Qed.

Lemma export_outcome_decoded l q (e : WorkerRequest) q1 :
  process_gif q (req_gifData e) = (q1, inr tt) ->
  snd (fst (export_outcome l q e)) =
    [CallProcessGif l (req_gifData e); CallProcessAll l (req_textData e)].
Proof.
  intros H. unfold export_outcome. rewrite H.
  destruct (process_all_frames_with_text_data q1 (req_textData e)) as [q2 [err|r]]; reflexivity.
Qed.

Lemma idle_worker (s : System) (w : Worker) :
  reachable s -> isProcessing (vars (page s)) = false ->
  match the_worker s with
  | Some w0 => w = w0
  | None => w = worker_start
  end ->
  w_tasks w = [] /\ w_outbox w = [] /\
  (forall l, w_gifProcessor w = Some l -> is_Some (heap (w_realm w) !! l)) /\
  (w_gifProcessor w = None -> calls (w_realm w) = [] /\ heap (w_realm w) = []).
Proof.
  intros Hr Hb Hw. pose proof (reachable_invariant s Hr) as [_ Hidle Hph _].
  specialize (Hidle Hb). rewrite in_flight_split in Hidle.
  destruct (the_worker s) as [w0|] eqn:Hs.
  - subst w0. specialize (Hph w eq_refl).
    assert (Ht : w_tasks w = [] /\ w_outbox w = []).
    { destruct (w_tasks w), (w_outbox w); simpl in Hidle; try lia. auto. }
    destruct Ht as [Ht Ho]. split; [exact Ht|]. split; [exact Ho|].
    split; [apply (worker_phase_sound _ _ Hph)|].
    intros Hn.
    destruct Hph as [H1 H2 H3 H4 H5|e0 H1 H2 H3 H4 H5|H1 H2 H3 H4 H5 H6 H7|l cs H1 H2 H3 H4 H5];
      try congruence; auto.
  - subst w. repeat split; try reflexivity. intros l Hl. discriminate.
Qed.

Lemma export_pipeline (s : System) file q q' t :
  reachable s ->
  currentFile (vars (page s)) = Some file ->
  isProcessing (vars (page s)) = false ->
  heap (m_realm (page s)) !! gifProcessor = Some q ->
  prepare_from_controls (doc (page s)) q = (q', inr t) ->
  let s1 := system_step (OnPage ProcessClick) s in
  let s2 := system_step (OnPage (ReadSettled (length (m_tasks (page s))) true)) s1 in
  exists w,
    m_tasks (page s1) = m_tasks (page s) ++ [ClickReading file t] /\
    requests (page s1) = requests (page s) /\
    calls (m_realm (page s1)) = calls (m_realm (page s)) ++ [CallPrepare gifProcessor] /\
    page s2 = set_m_outbox [request_for file t] (set_m_tasks (m_tasks (page s)) (page s1)) /\
    the_worker s2 = Some w /\
    match the_worker s with
    | Some w0 => w = w0
    | None => w = worker_start
    end /\
    system_run (export_events w) s2 =
      {| page := set_m_outbox [] (page s2);
         the_worker := Some (worker_run (Deliver (request_for file t) :: handling w) w) |}.
Proof.
  intros Hr Hf Hb Hq Ht s1 s2.
  destruct (click_suspends (page s) file q q' t Hf Hb Hq Ht) as (H1 & H2 & H3 & H4 & H5).
  pose proof (reachable_invariant s Hr) as [_ Hidle _ _].
  specialize (Hidle Hb). rewrite in_flight_split in Hidle.
  assert (Ho : m_outbox (page s) = []).
  { unfold page_in_flight in Hidle. destruct (m_outbox (page s)); [reflexivity|].
    simpl in Hidle. lia. }
  set (w := match the_worker s with Some w0 => w0 | None => worker_start end).
  assert (Hw1 : the_worker s1 = Some w).
  { unfold s1, w. cbn [system_step the_worker page_step].
    destruct (the_worker s); [reflexivity|]. rewrite H3. reflexivity. }
  destruct (lookup_snoc2 (m_tasks (page s)) (ClickReading file t) (ClickReading file t))
    as (_ & _ & L3 & L4).
  assert (Hp1 : page s1 = exec processButton_click (page s)) by reflexivity.
  assert (Hp2 : page s2 =
                set_m_outbox [request_for file t]
                  (set_m_tasks (m_tasks (page s)) (page s1))).
  { unfold s2. cbn [system_step page page_step]. rewrite Hp1, H1, L3, L4.
    rewrite click_read_posts by exact H3.
    cbn [set_m_tasks m_outbox]. rewrite H2, Ho. reflexivity. }
  assert (Hw2 : the_worker s2 = Some w).
  { unfold s2. cbn [system_step the_worker]. rewrite Hw1. reflexivity. }
  exists w. split; [rewrite Hp1; exact H1|]. split; [rewrite Hp1; exact H4|].
  split; [rewrite Hp1; exact H5|].
  split; [exact Hp2|].
  split; [exact Hw2|].
  split; [unfold w; destruct (the_worker s); reflexivity|].
  apply system_export_events; [exact Hw2 | rewrite Hp2; reflexivity].
Qed.

End ExportPipeline2.

Section Unaffected.
Context {E : Engine} {St : Type}.

Lemma unaffected_ret (f : St -> St) A (a : A) : unaffected_by f (ret a).
Proof. intros s. reflexivity. Qed.

Lemma unaffected_throw (f : St -> St) A x : unaffected_by f (@throw _ St A x).
Proof. intros s. reflexivity. Qed.

Lemma unaffected_gets (f : St -> St) A (g : St -> A) :
  (forall s, g (f s) = g s) -> unaffected_by f (gets g).
Proof. intros H s. unfold gets. rewrite H. reflexivity. Qed.

Lemma unaffected_modify (f h : St -> St) :
  (forall s, h (f s) = f (h s)) -> unaffected_by f (modify h).
Proof. intros H s. unfold modify. rewrite H. reflexivity. Qed.

Lemma unaffected_bind (f : St -> St) A B (m : JS St A) (k : A -> JS St B) :
  unaffected_by f m -> (forall a, unaffected_by f (k a)) -> unaffected_by f (bind m k).
Proof.
  intros Hm Hk s. unfold bind. rewrite (Hm s).
  destruct (m s) as [[a|x] s1]; simpl; [apply Hk | reflexivity].
Qed.

Lemma unaffected_try_catch (f : St -> St) A (m : JS St A) (h : Exn -> JS St A) :
  unaffected_by f m -> (forall x, unaffected_by f (h x)) -> unaffected_by f (try_catch m h).
Proof.
  intros Hm Hh s. unfold try_catch. rewrite (Hm s).
  destruct (m s) as [[a|x] s1]; simpl; [reflexivity | apply Hh].
Qed.

Lemma unaffected_when (f : St -> St) (c : bool) (m : JS St unit) :
  unaffected_by f m -> unaffected_by f (when c m).
Proof. intros Hm. destruct c; simpl; [exact Hm | apply unaffected_ret]. Qed.

End Unaffected.

Section UnaffectedPage.
Context {E : Engine}.

Lemma unaffected_in_realm (f : Main -> Main) A (m : JS Realm A) :
  (forall s, m_realm (f s) = m_realm s) ->
  (forall r s, set_m_realm r (f s) = f (set_m_realm r s)) ->
  unaffected_by f (in_realm m).
Proof.
  intros H1 H2 s. unfold in_realm. rewrite H1.
  destruct (m (m_realm s)) as [a r]. simpl. rewrite H2. reflexivity.
Qed.

Lemma unaffected_requestAnimationFrame (b : bool) cb :
  unaffected_by (with_processing b) (requestAnimationFrame cb).
Proof. intros s. reflexivity. Qed.

End UnaffectedPage.

Ltac unaffected_step :=
  lazymatch goal with
  | |- unaffected_by _ (ret _) => apply unaffected_ret
  | |- unaffected_by _ (throw _) => apply unaffected_throw
  | |- unaffected_by _ (gets _) => apply unaffected_gets; intros; reflexivity
  | |- unaffected_by _ (bind _ _) => apply unaffected_bind; [| intros ?]
  | |- unaffected_by _ (try_catch _ _) => apply unaffected_try_catch; [| intros ?]
  | |- unaffected_by _ (when _ _) => apply unaffected_when
  | |- unaffected_by _ (modify _) => apply unaffected_modify; intros; reflexivity
  | |- unaffected_by _ (requestAnimationFrame _) => apply unaffected_requestAnimationFrame
  | |- unaffected_by _ (in_realm _) => apply unaffected_in_realm; intros; reflexivity
  | |- unaffected_by _ (match ?x with _ => _ end) => destruct x
  end.

Section Ticks.
Context {E : Engine}.

Lemma animate_unaffected ts b : unaffected_by (with_processing b) (animate ts).
Proof.
  unfold animate, updatePreview, console_error, var, assign, element, write.
  repeat unaffected_step.
Qed.

Lemma animateProcessed_unaffected ts b :
  unaffected_by (with_processing b) (animateProcessed ts).
Proof.
  unfold animateProcessed, var, assign, element, write.
  repeat unaffected_step.
Qed.

End Ticks.

Section ExportEndToEnd.
Context {E : Engine}.

(** The export, from the click to the worker's reply, with nothing else in
    between: the states it goes through and what each holds. *)
Lemma export_end_to_end (s : System) file q q' t :
  reachable s ->
  currentFile (vars (page s)) = Some file ->
  isProcessing (vars (page s)) = false ->
  heap (m_realm (page s)) !! gifProcessor = Some q ->
  prepare_from_controls (doc (page s)) q = (q', inr t) ->
  let s1 := system_step (OnPage ProcessClick) s in
  let s2 := system_step (OnPage (ReadSettled (length (m_tasks (page s))) true)) s1 in
  exists w w',
    let s3 := system_run (export_events w) s2 in
    let l := fst (export_object w) in
    let p := snd (export_object w) in
    the_worker s2 = Some w /\
    the_worker s3 = Some w' /\
    m_tasks (page s1) = m_tasks (page s) ++ [ClickReading file t] /\
    m_outbox (page s2) = [request_for file t] /\
    m_outbox (page s3) = [] /\
    requests (page s3) = requests (page s) /\
    calls (m_realm (page s3)) = calls (m_realm (page s)) ++ [CallPrepare gifProcessor] /\
    calls (w_realm w') =
      calls (w_realm w) ++ init_calls w ++ snd (fst (export_outcome l p (request_for file t))) /\
    w_outbox w' = [snd (export_outcome l p (request_for file t))] /\
    Forall worker_call (calls (w_realm w')).
Proof.
  intros Hr Hf Hb Hq Ht s1 s2.
  destruct (export_pipeline s file q q' t Hr Hf Hb Hq Ht)
    as (w & H1 & H2 & H3 & H4 & H6 & H7 & H8).
  fold s1 s2 in H1, H2, H3, H4, H6, H8.
  destruct (idle_worker s w Hr Hb H7) as (I1 & I2 & I3 & I4).
  destruct (worker_handles w (request_for file t) eq_refl I3) as (W1 & W2 & W3 & W4 & W5).
  exists w, (worker_run (Deliver (request_for file t) :: handling w) w).
  cbv zeta. rewrite H8, H4.
  cbn [page the_worker set_m_outbox set_m_tasks m_outbox requests m_realm].
  rewrite H3, H2, W1, W2, I2.
  repeat split; try assumption; try reflexivity.
  assert (Hpast : Forall worker_call (calls (w_realm w))).
  { destruct (the_worker s) as [w0|] eqn:Hs.
    - subst w0. pose proof (reachable_invariant s Hr) as [_ _ Hph _].
      apply worker_phase_calls with (p := page s). apply Hph, Hs.
    - subst w. constructor. }
  apply Forall_app. split; [exact Hpast|]. apply Forall_app. split.
  - unfold init_calls. destruct (w_gifProcessor w); repeat constructor.
  - unfold export_outcome.
    destruct (process_gif _ _) as [p1 [err|[]]]; [repeat constructor|].
    destruct (process_all_frames_with_text_data _ _) as [p2 [err|r]]; repeat constructor.
Qed.

End ExportEndToEnd.

Section WorkerAlone.
Context {E : Engine}.

(** The phases of the worker are kept by every event of a worker that is sent
    its messages one at a time, whatever page there is. *)
Lemma worker_step_phase (p : Main) ev (w : Worker) :
  isProcessing (vars p) = true -> page_in_flight p = 0 ->
  match ev with
  | Deliver _ => ready_for_message w = true
  | _ => True
  end ->
  worker_phase p w -> worker_phase p (worker_step ev w).
Proof.
  intros Hb Hp Hev Hph.
  destruct ev as [e|i ok|i]; cbn [worker_step].
  - unfold ready_for_message in Hev.
    destruct Hph as [H1 H2 H3 H4 H5|e0 H1 H2 H3 H4 H5|H1 H2 H3 H4 H5 H6 H7|l cs H1 H2 H3 H4 H5].
    + unfold deliver. rewrite H3.
      eapply phase_initialising; simpl; rewrite ?H1, ?H4; eauto.
    + rewrite H4 in Hev. discriminate.
    + rewrite H4, H3, H1 in Hev. discriminate.
    + unfold deliver. rewrite H3. destruct H4 as [q Hq].
      destruct (string_dec (req_type e) "process_gif") as [Ht|Ht].
      * unfold exec. rewrite (onmessage_body_outcome e w l q Ht H3 Hq).
        eapply phase_ready; simpl.
        -- rewrite H1. reflexivity.
        -- apply Forall_app. split; [exact H2|apply export_outcome_calls].
        -- reflexivity.
        -- rewrite list_lookup_insert_eq by (eapply lookup_lt_Some; eauto). eauto.
        -- exact H5.
      * unfold exec. rewrite (onmessage_body_other e w Ht). eapply phase_ready; eauto.
  - assert (Hsame : init_settled i ok w = w -> worker_phase p (init_settled i ok w))
      by (intros ->; exact Hph).
    destruct Hph as [H1 H2 H3 H4 H5|e0 H1 H2 H3 H4 H5|H1 H2 H3 H4 H5 H6 H7|l cs H1 H2 H3 H4 H5].
    + apply Hsame. unfold init_settled. rewrite H4. reflexivity.
    + destruct i as [|i].
      2:{ apply Hsame. unfold init_settled. rewrite H4. reflexivity. }
      unfold init_settled. rewrite H4. simpl. destruct ok; simpl.
      * unfold new_object. rewrite H1, H2. simpl. eapply phase_ready; simpl; eauto.
      * unfold w_set_tasks. simpl. apply phase_failed; simpl; auto.
    + apply Hsame. unfold init_settled. rewrite H4. reflexivity.
    + apply Hsame. unfold init_settled.
      destruct (w_tasks w !! i) as [[e|e]|] eqn:Hi; try reflexivity.
      rewrite Forall_lookup in H5. specialize (H5 i _ Hi). discriminate.
  - assert (Hsame : resume i w = w -> worker_phase p (resume i w))
      by (intros ->; exact Hph).
    destruct Hph as [H1 H2 H3 H4 H5|e0 H1 H2 H3 H4 H5|H1 H2 H3 H4 H5 H6 H7|l cs H1 H2 H3 H4 H5].
    + apply Hsame. unfold resume. rewrite H4. reflexivity.
    + apply Hsame. unfold resume. rewrite H4. destruct i; reflexivity.
    + apply Hsame. unfold resume. rewrite H4. reflexivity.
    + unfold resume. destruct (w_tasks w !! i) as [[e|e]|] eqn:Hi;
        try (eapply phase_ready; eauto; fail).
      destruct H4 as [q Hq].
      set (w1 := w_set_tasks (delete i (w_tasks w)) w).
      destruct (string_dec (req_type e) "process_gif") as [Ht|Ht].
      * unfold exec. rewrite (onmessage_body_outcome e w1 l q Ht H3 Hq).
        eapply phase_ready; simpl.
        -- rewrite H1. reflexivity.
        -- apply Forall_app. split; [exact H2|apply export_outcome_calls].
        -- reflexivity.
        -- rewrite list_lookup_insert_eq by (eapply lookup_lt_Some; eauto). eauto.
        -- apply Forall_delete, H5.
      * unfold exec. rewrite (onmessage_body_other e w1 Ht).
        eapply phase_ready; simpl; eauto. apply Forall_delete, H5.
Qed.

Lemma worker_run_phase (p : Main) evs (w : Worker) :
  isProcessing (vars p) = true -> page_in_flight p = 0 ->
  one_at_a_time evs w = true ->
  worker_phase p w -> worker_phase p (worker_run evs w).
Proof.
  intros Hb Hp. revert w. induction evs as [|ev evs IH]; intros w Ho Hph; [exact Hph|].
  cbn [one_at_a_time] in Ho. apply andb_true_iff in Ho as [Ho1 Ho2].
  change (worker_run (ev :: evs) w) with (worker_run evs (worker_step ev w)).
  apply IH; [exact Ho2|]. apply worker_step_phase; try assumption.
  destruct ev; [exact Ho1 | exact I | exact I].
Qed.

Lemma worker_alone_once evs :
  one_at_a_time evs worker_start = true -> initialised_once (worker_run evs worker_start).
Proof.
  intros Ho. apply worker_phase_once with (p := with_processing true page_start).
  apply worker_run_phase; [reflexivity | reflexivity | exact Ho |].
  apply phase_fresh; reflexivity.
Qed.

(** A message that finds [gifProcessor] null: [init()] is called and the
    handler waits; when the promise is fulfilled one [GifProcessor] is
    constructed and assigned; the handler then goes on with that message. *)
Lemma first_message (w : Worker) (e : WorkerRequest) :
  w_gifProcessor w = None ->
  let n := length (w_tasks w) in
  let l := length (heap (w_realm w)) in
  let w1 := deliver e w in
  let w2 := init_settled n true w1 in
  (calls (w_realm w1) = calls (w_realm w) ++ [CallInit] /\
   heap (w_realm w1) = heap (w_realm w) /\
   w_gifProcessor w1 = None /\
   w_tasks w1 = w_tasks w ++ [AwaitInit e] /\
   w_outbox w1 = w_outbox w) /\
  (calls (w_realm w2) = calls (w_realm w) ++ [CallInit; CallNew l] /\
   heap (w_realm w2) = heap (w_realm w) ++ [new_GifProcessor] /\
   w_gifProcessor w2 = Some l /\
   w_tasks w2 = w_tasks w ++ [AwaitInitWasm e] /\
   w_outbox w2 = w_outbox w) /\
  init_settled n false w1 = w_set_tasks (w_tasks w) w1 /\
  resume n w2 = exec (onmessage_body e) (w_set_tasks (w_tasks w) w2).
Proof.
  intros Hn n l w1 w2.
  assert (H1 : w1 = {| w_realm := trace CallInit (w_realm w); w_gifProcessor := None;
                       w_tasks := w_tasks w ++ [AwaitInit e]; w_outbox := w_outbox w |}).
  { unfold w1, deliver. rewrite Hn. reflexivity. }
  destruct (lookup_snoc2 (w_tasks w) (AwaitInit e) (AwaitInitWasm e)) as (L1 & L2 & L3 & L4).
  assert (H2 : w2 = {| w_realm := {| heap := heap (w_realm w) ++ [new_GifProcessor];
                                     calls := calls (w_realm w) ++ [CallInit; CallNew l] |};
                       w_gifProcessor := Some l;
                       w_tasks := w_tasks w ++ [AwaitInitWasm e];
                       w_outbox := w_outbox w |}).
  { unfold w2, init_settled, n. rewrite H1. cbn [w_tasks]. rewrite L3.
    unfold new_object, trace. cbn [heap calls w_realm w_outbox].
    rewrite <- app_assoc. f_equal.
    rewrite insert_app_r_alt, Nat.sub_diag by lia. reflexivity. }
  split; [rewrite H1; repeat split|].
  split; [rewrite H2; repeat split|].
  split.
  - unfold init_settled, n. rewrite H1. cbn [w_tasks]. rewrite L3.
    unfold w_set_tasks. cbn. f_equal. apply L4.
  - unfold resume, n. rewrite H2. cbn [w_tasks].
    destruct (lookup_snoc2 (w_tasks w) (AwaitInitWasm e) (AwaitInitWasm e)) as (_ & _ & L5 & L6).
    rewrite L5, L6. reflexivity.
Qed.

(** A message that finds a processor is handled at once, on that processor:
    neither [init()] nor the constructor is called. *)
Lemma later_message (w : Worker) (e : WorkerRequest) l :
  w_gifProcessor w = Some l ->
  is_Some (heap (w_realm w) !! l) ->
  deliver e w = exec (onmessage_body e) w /\
  w_gifProcessor (deliver e w) = Some l /\
  length (heap (w_realm (deliver e w))) = length (heap (w_realm w)) /\
  exists cs, calls (w_realm (deliver e w)) = calls (w_realm w) ++ cs /\
             Forall (export_call_on l) cs.
Proof.
  intros Hl [q Hq]. unfold deliver. rewrite Hl. split; [reflexivity|].
  destruct (string_dec (req_type e) "process_gif") as [Ht|Ht].
  - unfold exec. rewrite (onmessage_body_outcome e w l q Ht Hl Hq). cbn.
    split; [reflexivity|]. split; [apply length_insert|].
    eexists. split; [reflexivity|]. apply export_outcome_calls.
  - unfold exec. rewrite (onmessage_body_other e w Ht). cbn.
    split; [exact Hl|]. split; [reflexivity|].
    exists []. split; [rewrite app_nil_r; reflexivity | constructor].
Qed.

End WorkerAlone.

Section CaptionTrail.
Context {E : Engine}.

Lemma passed_app (a b : list Call) : passed (a ++ b) = passed a ++ passed b.
Proof. unfold passed. apply flat_map_app. Qed.

Lemma onmessage_body_passes (e : WorkerRequest) (w : Worker) :
  let w' := exec (onmessage_body e) w in
  exists pn,
    passed (calls (w_realm w')) = passed (calls (w_realm w)) ++ pn /\
    (pn = [] \/ (pn = [req_textData e] /\ w_outbox w' <> [])) /\
    w_tasks w' = w_tasks w.
Proof.
  unfold exec, onmessage_body.
  destruct (String.eqb (req_type e) "process_gif");
    [|exists []; simpl; rewrite app_nil_r; auto].
  unfold try_catch, bind, gets, w_in_realm, invoke, self_postMessage, modify. simpl.
  destruct (w_gifProcessor w) as [l|]; simpl.
  2:{ exists []. rewrite passed_app. simpl. auto. }
  destruct (heap (w_realm w) !! l) as [p|] eqn:Hp; simpl.
  2:{ exists []. rewrite passed_app. simpl. auto. }
  destruct (process_gif p (req_gifData e)) as [p1 [err|[]]]; simpl.
  { exists []. rewrite passed_app. simpl. auto. }
  destruct (<[l:=p1]> (heap (w_realm w)) !! l) as [q|]; simpl.
  2:{ exists []. rewrite !passed_app. simpl. rewrite !app_nil_r. auto. }
  destruct (process_all_frames_with_text_data q (req_textData e)) as [p2 [err|res]]; simpl.
  all: exists [req_textData e]; rewrite !passed_app; simpl; rewrite app_nil_r.
  all: split; [reflexivity|]; split; [|reflexivity]; right; split; [reflexivity|].
  all: intros H; apply app_eq_nil in H as [_ H]; discriminate.
Qed.

Lemma task_text_length (ts : list PageTask) :
  length (flat_map task_text ts) = length (List.filter is_click_task ts).
Proof.
  induction ts as [|[f|f t] ts IH]; simpl; [reflexivity | exact IH | f_equal; exact IH].
Qed.

Lemma carried_length (s : System) :
  length (carried s)
  + match the_worker s with
    | Some w => length (w_outbox w)
    | None => 0
    end = in_flight s.
Proof.
  unfold carried, page_carries, worker_carries, in_flight.
  rewrite !length_app, task_text_length, length_map.
  destruct (the_worker s) as [w|]; [rewrite length_map|simpl]; lia.
Qed.

Lemma In_delete {A} (l : list A) i x : In x (delete i l) -> In x l.
Proof.
  revert i. induction l as [|a l IH]; intros [|i]; simpl; auto.
  intros [H|H]; [left; exact H | right; apply (IH i H)].
Qed.

Lemma In_flat_map_delete {A B} (f : A -> list B) (l : list A) i x :
  In x (flat_map f (delete i l)) -> In x (flat_map f l).
Proof.
  rewrite !in_flat_map. intros (a & Ha & Hx). exists a. split; [|exact Hx].
  apply (In_delete _ _ _ Ha).
Qed.

Lemma In_map_delete {A B} (f : A -> B) (l : list A) i x :
  In x (map f (delete i l)) -> In x (map f l).
Proof.
  rewrite !in_map_iff. intros (a & Ha & Hx). exists a. split; [exact Ha|].
  apply (In_delete _ _ _ Hx).
Qed.

Lemma In_task_text (ts : list PageTask) i file t :
  ts !! i = Some (ClickReading file t) -> In t (flat_map task_text ts).
Proof.
  intros Hi. apply in_flat_map. exists (ClickReading file t). split; [|left; reflexivity].
  apply list_elem_of_In. eapply list_elem_of_lookup_2, Hi.
Qed.

Lemma small_sublist {A} (l k : list A) :
  length l <= 1 -> (forall x, In x l -> In x k) -> sublist l k.
Proof.
  destruct l as [|x [|y l]]; simpl; intros Hlen Hin; [apply sublist_nil_l | | lia].
  destruct (in_split x k (Hin x (or_introl eq_refl))) as (k1 & k2 & ->).
  apply sublist_inserts_l. apply sublist_skip, sublist_nil_l.
Qed.

(** What an event of the page does to the values it carries: it keeps or
    drops them, and a click adds what [prepare_text_overlay] returned. *)
Lemma page_step_carries pev (p : Main) x :
  In x (page_carries (page_step pev p)) ->
  In x (page_carries p
        ++ match pev with
           | ProcessClick => prepared_by_click p
           | _ => []
           end).
Proof.
  assert (Hkeep : forall (m : JS Main unit) (p0 : Main),
            (forall v, stable (fun s => export_vars s = v) m) ->
            page_carries (exec m p0) = page_carries p0).
  { intros m p0 H. specialize (H (export_vars p0) p0 eq_refl).
    unfold export_vars in H. injection H as _ H2 H3.
    unfold page_carries, exec. rewrite H2, H3. reflexivity. }
  assert (Hfile : forall file, page_carries (exec (handleFile file) p) = page_carries p).
  { intros file. rewrite handleFile_run. unfold page_carries. cbn [m_tasks m_outbox set_m_tasks set_doc set_vars].
    rewrite flat_map_app. simpl. rewrite app_nil_r. reflexivity. }
  destruct pev as [file| |i ok|h ts|which value| |]; cbn [page_step]; rewrite ?app_nil_r.
  - rewrite Hfile. auto.
  - destruct (currentFile (vars p)); [rewrite Hfile|]; auto.
  - destruct (m_tasks p !! i) as [[file|file t]|] eqn:Hi; [| |auto].
    + assert (Hd : In x (page_carries (set_m_tasks (delete i (m_tasks p)) p)) ->
                   In x (page_carries p)).
      { unfold page_carries. cbn [m_tasks m_outbox set_m_tasks]. rewrite !in_app_iff.
        intros [H|H]; [left; apply (In_flat_map_delete _ _ _ _ H) | right; exact H]. }
      destruct ok; [|exact Hd].
      rewrite Hkeep by (intros v; apply handleFile_read_keeps_export). exact Hd.
    + set (p1 := set_m_tasks (delete i (m_tasks p)) p).
      set (read := if ok then _ else _).
      pose proof (In_task_text _ _ _ _ Hi) as Ht.
      destruct (processButton_click_read_effect read t p1) as [gifData Hp|H1 H2 H3 H4].
      * unfold exec. rewrite Hp. unfold page_carries, p1.
        cbn [m_tasks m_outbox set_m_tasks set_m_outbox].
        rewrite map_app, !in_app_iff. simpl.
        intros [H|[H|[H|[]]]].
        -- left. apply (In_flat_map_delete _ _ _ _ H).
        -- right. exact H.
        -- left. subst x. exact Ht.
      * unfold exec, page_carries. rewrite H2, H3. unfold p1.
        cbn [m_tasks m_outbox set_m_tasks]. rewrite !in_app_iff.
        intros [H|H]; [left; apply (In_flat_map_delete _ _ _ _ H) | right; exact H].
  - destruct (find_request h (requests p)) as [[|]|]; [| |auto].
    + rewrite Hkeep by (intros v; apply animate_keeps_export). auto.
    + rewrite Hkeep by (intros v; apply animateProcessed_keeps_export). auto.
  - rewrite Hkeep by (intros v; apply control_edited_keeps_export). auto.
  - destruct (processButton_click_effect p) as (Ho & Hc). unfold exec.
    unfold page_carries at 1. rewrite Ho.
    destruct Hc as [_ ->|file q q' t Hf Hb Hq Hp _ _ Ht _ _ _ _
                   |q q' err _ _ _ _ _ Ht _|_ _ _ _ Ht _].
    + intros H. apply in_app_iff. left. exact H.
    + rewrite Ht, flat_map_app. simpl. rewrite !in_app_iff. simpl.
      intros [[H|[H|[]]]|H].
      * left. unfold page_carries. apply in_app_iff. left. exact H.
      * right. unfold prepared_by_click. rewrite Hf, Hb, Hq, Hp. left. exact H.
      * left. unfold page_carries. apply in_app_iff. right. exact H.
    + rewrite Ht. intros H. apply in_app_iff. left. exact H.
    + rewrite Ht. intros H. apply in_app_iff. left. exact H.
  - auto.
Qed.

End CaptionTrail.

Section CaptionTrail2.
Context {E : Engine}.

Lemma map_insert_same {A B} (f : A -> B) (l : list A) i a b :
  l !! i = Some a -> f b = f a -> map f (<[i := b]> l) = map f l.
Proof.
  revert i. induction l as [|c l IH]; intros [|i] Hi Hf; simpl in *; try discriminate.
  - injection Hi as ->. rewrite Hf. reflexivity.
  - rewrite (IH i Hi Hf). reflexivity.
Qed.

(** One event: the worker passes nothing but what was carried, and nothing
    is carried but what was carried before or what a click just had
    prepared. *)
Lemma system_step_carries ev (s : System) :
  system_invariant s ->
  exists pn,
    worker_passed (system_step ev s) = worker_passed s ++ pn /\
    length (pn ++ carried (system_step ev s)) <= 1 /\
    forall x, In x (pn ++ carried (system_step ev s)) ->
              In x (carried s ++ match ev with
                                 | OnPage ProcessClick => prepared_by_click (page s)
                                 | _ => []
                                 end).
Proof.
  intros Hs. pose proof (system_step_invariant ev s Hs) as [Hfl' _ _ _].
  pose proof (carried_length (system_step ev s)) as Hlen.
  assert (Hnone : worker_passed (system_step ev s) = worker_passed s ->
                  (forall x, In x (carried (system_step ev s)) ->
                             In x (carried s ++ match ev with
                                                | OnPage ProcessClick => prepared_by_click (page s)
                                                | _ => []
                                                end)) ->
                  exists pn,
                    worker_passed (system_step ev s) = worker_passed s ++ pn /\
                    length (pn ++ carried (system_step ev s)) <= 1 /\
                    forall x, In x (pn ++ carried (system_step ev s)) ->
                              In x (carried s ++ match ev with
                                                 | OnPage ProcessClick => prepared_by_click (page s)
                                                 | _ => []
                                                 end)).
  { intros H1 H2. exists []. rewrite app_nil_r. split; [exact H1|].
    split; [simpl; lia | exact H2]. }
  assert (Hbody : forall e (w1 : Worker) p1,
            system_step ev s = {| page := p1; the_worker := Some (exec (onmessage_body e) w1) |} ->
            worker_passed s = passed (calls (w_realm w1)) ->
            (forall x, In x (page_carries p1 ++ worker_carries (Some w1)) -> In x (carried s)) ->
            In (req_textData e) (carried s) ->
            match ev with OnPage ProcessClick => False | _ => True end ->
            exists pn,
              worker_passed (system_step ev s) = worker_passed s ++ pn /\
              length (pn ++ carried (system_step ev s)) <= 1 /\
              forall x, In x (pn ++ carried (system_step ev s)) ->
                        In x (carried s ++ match ev with
                                           | OnPage ProcessClick => prepared_by_click (page s)
                                           | _ => []
                                           end)).
  { intros e w1 p1 Hstep Hpass Hsub He Hev.
    destruct (onmessage_body_passes e w1) as (pn & H1 & H2 & H3).
    rewrite Hstep in Hlen, Hfl' |- *.
    assert (Hc : carried {| page := p1; the_worker := Some (exec (onmessage_body e) w1) |} =
                 page_carries p1 ++ worker_carries (Some w1)).
    { unfold carried, worker_carries. cbn [page the_worker]. rewrite H3. reflexivity. }
    exists pn. split; [unfold worker_passed at 1; cbn [the_worker]; rewrite H1, Hpass; reflexivity|].
    split.
    - cbn [the_worker] in Hlen. rewrite length_app.
      destruct H2 as [->|[-> Hout]]; [simpl; lia|].
      destruct (w_outbox (exec (onmessage_body e) w1)); [contradiction|].
      simpl in *. lia.
    - intros x Hx. replace (match ev with OnPage ProcessClick => _ | _ => [] end)
        with (@nil TextData) by (destruct ev as [[]| | | |]; try reflexivity; contradiction).
      rewrite app_nil_r. rewrite Hc in Hx. apply in_app_iff in Hx as [Hx|Hx].
      + destruct H2 as [->|[-> _]]; [destruct Hx|].
        destruct Hx as [<-|[]]. exact He.
      + apply Hsub, Hx. }
  destruct ev as [pev| |i ok|i|]; cbn [system_step] in *.
  - apply Hnone.
    + unfold worker_passed. cbn [the_worker].
      destruct (the_worker s) as [w|]; [reflexivity|].
      destruct (worker (vars (page_step pev (page s)))); reflexivity.
    + intros x. unfold carried. cbn [page the_worker].
      replace (worker_carries (match the_worker s with
                               | Some w => Some w
                               | None => if worker (vars (page_step pev (page s)))
                                         then Some worker_start else None
                               end)) with (worker_carries (the_worker s))
        by (destruct (the_worker s); [reflexivity|];
            destruct (worker (vars (page_step pev (page s)))); reflexivity).
      rewrite !in_app_iff. intros [H|H]; [|left; right; exact H].
      apply page_step_carries, in_app_iff in H as [H|H]; [left; left; exact H|].
      right. destruct pev; try destruct H. exact H.
  - destruct (the_worker s) as [w|] eqn:Hw; [|apply Hnone; [reflexivity | intros x H; rewrite app_nil_r; exact H]].
    destruct (m_outbox (page s)) as [|e rest] eqn:Ho;
      [apply Hnone; [reflexivity | intros x H; rewrite app_nil_r; exact H]|].
    assert (Hold : carried s = (flat_map task_text (m_tasks (page s))
                                ++ req_textData e :: map req_textData rest)
                               ++ worker_carries (Some w)).
    { unfold carried, page_carries. rewrite Hw, Ho. reflexivity. }
    unfold deliver in *. destruct (w_gifProcessor w) as [l|] eqn:Hl.
    + apply (Hbody e w (set_m_outbox rest (page s))); [reflexivity | | | | exact I].
      * unfold worker_passed. rewrite Hw. reflexivity.
      * intros x. rewrite Hold. unfold page_carries. cbn [m_tasks m_outbox set_m_outbox].
        rewrite !in_app_iff. simpl. tauto.
      * rewrite Hold, !in_app_iff. simpl. tauto.
    + apply Hnone.
      * unfold worker_passed. rewrite Hw. cbn [the_worker w_realm trace calls].
        rewrite passed_app. simpl. rewrite app_nil_r. reflexivity.
      * intros x. rewrite app_nil_r, Hold. unfold carried, page_carries, worker_carries.
        cbn [page the_worker m_tasks m_outbox set_m_outbox w_tasks].
        rewrite map_app, !in_app_iff. simpl. tauto.
  - destruct (the_worker s) as [w|] eqn:Hw; cbn [fmap option_fmap option_map] in *;
      [|apply Hnone; [unfold worker_passed; rewrite Hw; reflexivity
                     | intros x H; rewrite app_nil_r; unfold carried in *;
                       cbn [page the_worker] in H; rewrite Hw; exact H]].
    match goal with
    | |- ?G => assert (Hsame : init_settled i ok w = w -> G)
    end.
    { intros Heq. rewrite Heq in *.
      apply Hnone; [unfold worker_passed; rewrite Hw; reflexivity|].
      intros x H. rewrite app_nil_r. unfold carried in *.
      cbn [page the_worker] in H. rewrite Hw. exact H. }
    unfold init_settled in *.
    destruct (w_tasks w !! i) as [[e|e]|] eqn:Hi; try (apply Hsame; reflexivity).
    destruct ok.
    + apply Hnone.
      * unfold worker_passed. rewrite Hw. cbn [the_worker new_object w_realm trace calls].
        rewrite passed_app. simpl. rewrite app_nil_r. reflexivity.
      * intros x. rewrite app_nil_r. unfold carried, worker_carries.
        cbn [page the_worker new_object w_tasks]. rewrite Hw.
        rewrite (map_insert_same _ _ _ _ _ Hi) by reflexivity. auto.
    + apply Hnone.
      * unfold worker_passed. rewrite Hw. reflexivity.
      * intros x. rewrite app_nil_r. unfold carried, worker_carries.
        cbn [page the_worker w_set_tasks w_tasks]. rewrite Hw, !in_app_iff.
        intros [H|H]; [left; exact H | right; apply (In_map_delete _ _ _ _ H)].
  - destruct (the_worker s) as [w|] eqn:Hw; cbn [fmap option_fmap option_map] in *;
      [|apply Hnone; [unfold worker_passed; rewrite Hw; reflexivity
                     | intros x H; rewrite app_nil_r; unfold carried in *;
                       cbn [page the_worker] in H; rewrite Hw; exact H]].
    unfold resume in *. destruct (w_tasks w !! i) as [[e|e]|] eqn:Hi.
    1,3: apply Hnone; [unfold worker_passed; rewrite Hw; reflexivity
                      | intros x H; rewrite app_nil_r; unfold carried in *; rewrite Hw; exact H].
    apply (Hbody e (w_set_tasks (delete i (w_tasks w)) w) (page s)); [reflexivity | | | | exact I].
    + unfold worker_passed. rewrite Hw. reflexivity.
    + intros x. unfold carried, worker_carries. rewrite Hw. cbn [w_set_tasks w_tasks].
      rewrite !in_app_iff.
      intros [H|H]; [left; exact H | right; apply (In_map_delete _ _ _ _ H)].
    + unfold carried, worker_carries. rewrite Hw. apply in_app_iff. right.
      apply in_map_iff. exists (AwaitInitWasm e). split; [reflexivity|].
      apply list_elem_of_In. eapply list_elem_of_lookup_2, Hi.
  - destruct (the_worker s) as [w|] eqn:Hw; [|apply Hnone; [reflexivity | intros x H; rewrite app_nil_r; exact H]].
    destruct (w_outbox w) as [|m rest] eqn:Ho;
      [apply Hnone; [reflexivity | intros x H; rewrite app_nil_r; exact H]|].
    pose proof (worker_onmessage_keeps_queues m _ (page s) eq_refl) as Hq.
    injection Hq as Hq1 Hq2.
    apply Hnone.
    + unfold worker_passed. rewrite Hw. reflexivity.
    + intros x. rewrite app_nil_r. unfold carried, page_carries, worker_carries, exec.
      cbn [page the_worker w_tasks]. rewrite Hq1, Hq2, Hw. auto.
Qed.

Lemma system_run_carries evs (s : System) (log : list TextData) :
  system_invariant s ->
  sublist (worker_passed s ++ carried s) log ->
  sublist (worker_passed (system_run evs s) ++ carried (system_run evs s))
          (log ++ prepared evs s).
Proof.
  revert s log. induction evs as [|ev evs IH]; intros s log Hs Hsub.
  - simpl. rewrite app_nil_r. exact Hsub.
  - change (system_run (ev :: evs) s) with (system_run evs (system_step ev s)).
    cbn [prepared]. rewrite app_assoc.
    apply IH; [apply system_step_invariant, Hs|].
    destruct (system_step_carries ev s Hs) as (pn & H1 & H2 & H3).
    rewrite H1, <- app_assoc.
    transitivity (worker_passed s ++ carried s
                                   ++ match ev with
                                      | OnPage ProcessClick => prepared_by_click (page s)
                                      | _ => []
                                      end).
    + apply sublist_app; [reflexivity|]. apply small_sublist; assumption.
    + rewrite app_assoc. apply sublist_app; [exact Hsub | reflexivity].
Qed.

End CaptionTrail2.

Section ExportClaims.
Context {E : Engine}.

(** C3: the value [prepare_text_overlay] returns to the click listener is the
    one the worker passes to [process_all_frames_with_text_data].  From the
    click to the worker's call, with nothing else in between: the listener
    keeps the value across its [await], posts it in its request, the worker
    takes that request and, once it has a processor, calls [process_gif] on
    the request's bytes and, when they decode, the batch pipeline on that
    very value.  The worker by itself, in whatever state: the message
    delivered is the one its handler goes on with, also after it has waited
    for [init()] among other handlers.  And in every run of the page and its
    worker, whatever the events and their order: the values the worker has
    passed to the batch pipeline, followed by those still under way, are, in
    this order, among the values [prepare_text_overlay] returned to the
    clicks; none is changed or made up on the way, some are dropped (when
    the read, the initialisation or the decoding fails). *)
Theorem textData_crosses_untouched :
  (forall (s : System) file q q' t,
     reachable s ->
     currentFile (vars (page s)) = Some file ->
     isProcessing (vars (page s)) = false ->
     heap (m_realm (page s)) !! gifProcessor = Some q ->
     prepare_from_controls (doc (page s)) q = (q', inr t) ->
     let s1 := system_step (OnPage ProcessClick) s in
     let s2 := system_step (OnPage (ReadSettled (length (m_tasks (page s))) true)) s1 in
     exists w w',
       let s3 := system_run (export_events w) s2 in
       let l := fst (export_object w) in
       let p := snd (export_object w) in
       the_worker s2 = Some w /\
       the_worker s3 = Some w' /\
       m_tasks (page s1) = m_tasks (page s) ++ [ClickReading file t] /\
       m_outbox (page s2) = [request_for file t] /\
       m_outbox (page s3) = [] /\
       calls (w_realm w') =
         calls (w_realm w) ++ init_calls w
         ++ snd (fst (export_outcome l p (request_for file t))) /\
       (forall p1, process_gif p (file_data file) = (p1, inr tt) ->
          calls (w_realm w') =
            calls (w_realm w) ++ init_calls w
            ++ [CallProcessGif l (file_data file); CallProcessAll l t])) /\
  (forall (w : Worker) (e : WorkerRequest),
     req_type e = "process_gif" ->
     (forall l, w_gifProcessor w = Some l -> is_Some (heap (w_realm w) !! l)) ->
     let w' := worker_run (Deliver e :: handling w) w in
     let l := fst (export_object w) in
     let p := snd (export_object w) in
     calls (w_realm w') =
       calls (w_realm w) ++ init_calls w ++ snd (fst (export_outcome l p e)) /\
     (forall p1, process_gif p (req_gifData e) = (p1, inr tt) ->
        calls (w_realm w') =
          calls (w_realm w) ++ init_calls w
          ++ [CallProcessGif l (req_gifData e); CallProcessAll l (req_textData e)])) /\
  (forall evs,
     let s := system_run evs system_start in
     sublist (worker_passed s ++ carried s) (prepared evs system_start)).
Proof.
  split; [|split].
  - intros s file q q' t Hr Hf Hb Hq Ht s1 s2.
    destruct (export_end_to_end s file q q' t Hr Hf Hb Hq Ht)
      as (w & w' & H1 & H2 & H3 & H4 & H5 & _ & _ & H8 & _).
    exists w, w'. cbv zeta. do 6 (split; [assumption|]).
    intros p1 Hp1. fold s1 s2 in H8. rewrite H8.
    rewrite (export_outcome_decoded _ _ (request_for file t) p1 Hp1). reflexivity.
  - intros w e Ht Hobj. cbv zeta.
    destruct (worker_handles w e Ht Hobj) as (W1 & _). split; [exact W1|].
    intros p1 Hp1. rewrite W1, (export_outcome_decoded _ _ e p1 Hp1). reflexivity.
  - intros evs. cbv zeta.
    apply (system_run_carries evs system_start []); [apply system_start_invariant|].
    apply sublist_nil_l.
Qed.

(** C9: the batch pipeline runs in the worker, and only there, while the
    preview loop goes on in the page.  In every state the page and its worker
    can reach, the page has made no call of the batch pipeline, and the
    worker has made none but those of its initialisation and of the export.
    An export started there goes to the worker: the click makes one engine
    call in the page, [prepare_text_overlay], and the listener posts one
    request; the worker takes it, calls [process_gif] and, when the bytes
    decode, [process_all_frames_with_text_data] for that request, and posts
    its reply; the page's engine is not called meanwhile, and the frames it
    has requested stay requested.  The frame callbacks do not read
    [isProcessing]: a tick does the same during an export as without one, and
    a tick that returns has requested the next frame. *)
Theorem batch_pipeline_runs_in_worker (s : System) :
  reachable s ->
  Forall page_call (calls (m_realm (page s))) /\
  (forall w, the_worker s = Some w -> Forall worker_call (calls (w_realm w))) /\
  (forall file q q' t,
     currentFile (vars (page s)) = Some file ->
     isProcessing (vars (page s)) = false ->
     heap (m_realm (page s)) !! gifProcessor = Some q ->
     prepare_from_controls (doc (page s)) q = (q', inr t) ->
     let s1 := system_step (OnPage ProcessClick) s in
     let s2 := system_step (OnPage (ReadSettled (length (m_tasks (page s))) true)) s1 in
     exists w w',
       let s3 := system_run (export_events w) s2 in
       let l := fst (export_object w) in
       let p := snd (export_object w) in
       the_worker s2 = Some w /\
       the_worker s3 = Some w' /\
       m_outbox (page s2) = [request_for file t] /\
       calls (m_realm (page s3)) = calls (m_realm (page s)) ++ [CallPrepare gifProcessor] /\
       requests (page s3) = requests (page s) /\
       calls (w_realm w') =
         calls (w_realm w) ++ init_calls w
         ++ snd (fst (export_outcome l p (request_for file t))) /\
       (forall p1, process_gif p (file_data file) = (p1, inr tt) ->
          calls (w_realm w') =
            calls (w_realm w) ++ init_calls w
            ++ [CallProcessGif l (file_data file); CallProcessAll l t]) /\
       w_outbox w' = [snd (export_outcome l p (request_for file t))] /\
       Forall worker_call (calls (w_realm w'))) /\
  (forall ts b,
     unaffected_by (with_processing b) (animate ts) /\
     unaffected_by (with_processing b) (animateProcessed ts)) /\
  (forall ts,
     (fst (animate ts (page s)) = Normal tt ->
      requests (exec (animate ts) (page s)) =
        requests (page s) ++ [(next_request (page s), animate_callback)]) /\
     (fst (animateProcessed ts (page s)) = Normal tt ->
      requests (exec (animateProcessed ts) (page s)) =
        requests (page s) ++ [(next_request (page s), animateProcessed_callback)])).
Proof.
  intros Hr. pose proof (reachable_invariant s Hr) as [_ _ Hph Hca].
  split; [exact Hca|]. split; [intros w Hw; eapply worker_phase_calls, Hph, Hw|].
  split; [|split].
  - intros file q q' t Hf Hb Hq Ht s1 s2.
    destruct (export_end_to_end s file q q' t Hr Hf Hb Hq Ht)
      as (w & w' & H1 & H2 & H3 & H4 & H5 & H6 & H7 & H8 & H9 & H10).
    exists w, w'. cbv zeta. do 6 (split; [assumption|]).
    split; [|split; assumption].
    intros p1 Hp1. fold s1 s2 in H8. rewrite H8.
    rewrite (export_outcome_decoded _ _ (request_for file t) p1 Hp1). reflexivity.
  - intros ts b. split; [apply animate_unaffected | apply animateProcessed_unaffected].
  - intros ts. split; intros Hn.
    + destruct (animate_outcome ts (page s)) as [H _]. specialize (H Hn).
      unfold loop_vars in H. injection H as H _ _ _. exact H.
    + destruct (animateProcessed_outcome ts (page s)) as [H _]. specialize (H Hn).
      unfold loop_vars in H. injection H as H _ _ _. exact H.
Qed.

(** C10: the worker initialises its engine lazily, and a message is handled
    only on a processor.  A message that finds [gifProcessor] null calls
    [init()] and waits; when that promise is fulfilled, one [GifProcessor] is
    constructed and assigned, and the handler goes on with its message on it;
    when it is rejected, the handler is over and nothing was constructed.  A
    message that finds a processor is handled at once on that processor, and
    neither [init()] nor the constructor is called.  Whatever the worker
    receives and however its handlers interleave, it never calls a method on
    [null], and its processor names an object whenever it is set.  In every
    state the page and its worker can reach, the worker's trace is empty, or
    [init()] alone, or [init()], one [new GifProcessor()], and then only
    calls of the export on that one object.  The same holds of the worker by
    itself when its messages come one at a time, each after the one before
    was handled and no initialisation has failed. *)
Theorem worker_initialises_lazily :
  (forall (w : Worker) (e : WorkerRequest),
     w_gifProcessor w = None ->
     let n := length (w_tasks w) in
     let l := length (heap (w_realm w)) in
     let w1 := deliver e w in
     let w2 := init_settled n true w1 in
     (calls (w_realm w1) = calls (w_realm w) ++ [CallInit] /\
      heap (w_realm w1) = heap (w_realm w) /\
      w_gifProcessor w1 = None /\
      w_tasks w1 = w_tasks w ++ [AwaitInit e] /\
      w_outbox w1 = w_outbox w) /\
     (calls (w_realm w2) = calls (w_realm w) ++ [CallInit; CallNew l] /\
      heap (w_realm w2) = heap (w_realm w) ++ [new_GifProcessor] /\
      w_gifProcessor w2 = Some l /\
      w_tasks w2 = w_tasks w ++ [AwaitInitWasm e] /\
      w_outbox w2 = w_outbox w) /\
     init_settled n false w1 = w_set_tasks (w_tasks w) w1 /\
     resume n w2 = exec (onmessage_body e) (w_set_tasks (w_tasks w) w2)) /\
  (forall (w : Worker) (e : WorkerRequest) l,
     w_gifProcessor w = Some l ->
     is_Some (heap (w_realm w) !! l) ->
     deliver e w = exec (onmessage_body e) w /\
     w_gifProcessor (deliver e w) = Some l /\
     length (heap (w_realm (deliver e w))) = length (heap (w_realm w)) /\
     exists cs, calls (w_realm (deliver e w)) = calls (w_realm w) ++ cs /\
                Forall (export_call_on l) cs) /\
  (forall evs, worker_sound (worker_run evs worker_start)) /\
  (forall (s : System) (w : Worker),
     reachable s -> the_worker s = Some w -> initialised_once w) /\
  (forall evs,
     one_at_a_time evs worker_start = true ->
     initialised_once (worker_run evs worker_start)).
Proof.
  split; [exact first_message|]. split; [exact later_message|].
  split; [|split].
  - intros evs. apply worker_run_sound, worker_start_sound.
  - intros s w Hr Hw. apply reachable_invariant in Hr. destruct Hr as [_ _ Hph _].
    eapply worker_phase_once, Hph, Hw.
  - exact worker_alone_once.
Qed.

End ExportClaims.

(** The worker by itself can be made to initialise twice: two messages that
    arrive before the first [init()] has settled both find [gifProcessor]
    null.  The page never sends them so, for it has one export in flight at a
    time. *)
Lemma worker_alone_initialises_twice :
  let w := @worker_run toy_engine
             [Deliver toy_request; Deliver toy_request;
              InitSettled 0 true; Resume 0; InitSettled 0 true; Resume 0]
             worker_start in
  one_at_a_time [Deliver toy_request; Deliver toy_request] (@worker_start toy_engine) = false /\
  calls (w_realm w) =
    [CallInit; CallInit;
     CallNew 0; CallProcessGif 0 (req_gifData toy_request);
     CallProcessAll 0 (req_textData toy_request);
     CallNew 1; CallProcessGif 1 (req_gifData toy_request);
     CallProcessAll 1 (req_textData toy_request)] /\
  length (heap (w_realm w)) = 2 /\
  w_gifProcessor w = Some 1.
Proof. vm_compute. repeat split. Qed.

Section RenderFailure.
Context {E : Engine}.

Lemma animate_not_due ts (s : Main) p :
  heap (m_realm s) !! gifProcessor = Some p ->
  exceeds (ts - reference_time (lastFrameTime (vars s)) ts)%Q (get_frame_delay p) = false ->
  fst (animate ts s) = Normal tt /\
  requests (exec (animate ts) s) = requests s ++ [(next_request s, animate_callback)] /\
  calls (m_realm (exec (animate ts) s)) = calls (m_realm s) ++ [CallGetFrameDelay gifProcessor].
Proof.
  intros Hp Hx. unfold exec, animate, reference_time in *. js_eval.
  destruct (Qeq_bool (lastFrameTime (vars s)) 0) eqn:Hz; js_eval.
  all: erewrite in_realm_invoke_getter by exact Hp; js_eval.
  all: rewrite Hx; js_eval.
  all: repeat split.
Qed.

End RenderFailure.

Section RenderFailure2.
Context {E : Engine}.

(** X9: a tick of the preview whose [render_current_frame] throws ends the
    preview loop.  On a processor whose rendering fails, the tick that calls
    [render_current_frame] throws that error on the spot: [animate] has no
    [try], so [next_frame] is not called and no new frame is requested, and
    nothing of [animate] is pending afterwards, until [startAnimation] runs
    again.  The tick that does not call it, the frame not being due, returns
    and leaves its one new request. *)
Theorem render_failure_stops_the_preview (s : System) h ts p p' err :
  reachable s ->
  find_request h (requests (page s)) = Some animate_callback ->
  heap (m_realm (page s)) !! gifProcessor = Some p ->
  render_current_frame p = (p', inl err) ->
  let s0 := set_requests (cancel_request h (requests (page s))) (page s) in
  let s' := page_step (AnimationFrame h ts) (page s) in
  let made := calls_since (m_realm (page s)) (m_realm s') in
  s' = exec (animate ts) s0 /\
  (In (CallRender gifProcessor) made ->
   fst (animate ts s0) = Throw (EngineError err) /\
   made = [CallGetFrameDelay gifProcessor; CallRender gifProcessor] /\
   pending animate_callback s' = []) /\
  (~ In (CallRender gifProcessor) made ->
   fst (animate ts s0) = Normal tt /\
   made = [CallGetFrameDelay gifProcessor] /\
   pending animate_callback s' = [(next_request (page s), animate_callback)]).
Proof.
  intros Hr Hf Hp Hren. cbv zeta. cbn [page_step]. rewrite Hf.
  destruct (reachable_ok s Hr) as [[Hl _ _ _ _] _].
  pose proof (find_request_cancel _ _ _ _ _ _ Hl Hf) as Hnil.
  set (s0 := set_requests (cancel_request h (requests (page s))) (page s)).
  assert (Hp0 : heap (m_realm s0) !! gifProcessor = Some p) by exact Hp.
  split; [reflexivity|].
  destruct (exceeds (ts - reference_time (lastFrameTime (vars s0)) ts)%Q (get_frame_delay p))
    eqn:Hx.
  - destruct (animate_render_fails ts s0 p p' err Hp0 Hx Hren) as (H1 & H2 & _ & H4).
    assert (Hm : calls_since (m_realm (page s)) (m_realm (exec (animate ts) s0)) =
                 [CallGetFrameDelay gifProcessor; CallRender gifProcessor])
      by (apply calls_since_app; exact H4).
    rewrite Hm. split.
    + intros _. split; [exact H1|]. split; [reflexivity|].
      unfold pending. rewrite H2. exact Hnil.
    + intros Hn. exfalso. apply Hn. right. left. reflexivity.
  - destruct (animate_not_due ts s0 p Hp0 Hx) as (H1 & H2 & H4).
    assert (Hm : calls_since (m_realm (page s)) (m_realm (exec (animate ts) s0)) =
                 [CallGetFrameDelay gifProcessor])
      by (apply calls_since_app; exact H4).
    rewrite Hm. split.
    + intros [Hin|[]]. discriminate.
    + intros _. split; [exact H1|]. split; [reflexivity|].
      unfold pending. rewrite H2, List.filter_app.
      change (requests s0) with (cancel_request h (requests (page s))).
      rewrite Hnil. reflexivity.
Qed.

End RenderFailure2.

Ltac style_fin :=
  intros ? ?; unfold inline_styles in *; simpl in *; repeat (case_match; simpl in * );
  assumption.

Section FileShown.
Context {E : Engine}.

Lemma page_step_styles pev (p : Main) v : inline_styles p = v -> inline_styles (page_step pev p) = v.
Proof.
  apply (page_step_stable (fun s => inline_styles s = v));
    try solve [intros; stable_all fail style_fin].
  all: intros; assumption.
Qed.

Lemma worker_onmessage_styles m v : stable (fun s => inline_styles s = v) (worker_onmessage m).
Proof. stable_all fail style_fin. Qed.

Lemma reachable_styles (s : System) : reachable s -> inline_styles (page s) = (false, true).
Proof.
  intros [evs ->]. unfold system_run.
  assert (H0 : inline_styles (page system_start) = (false, true)) by reflexivity.
  revert H0. generalize (@system_start E).
  induction evs as [|ev evs IH]; intros s0 H0; simpl; [exact H0|].
  apply IH. destruct ev as [pev| |i ok|i|]; simpl.
  - apply page_step_styles, H0.
  - destruct (the_worker s0) as [w|]; [|exact H0].
    destruct (m_outbox (page s0)) as [|e rest]; exact H0.
  - exact H0.
  - exact H0.
  - destruct (the_worker s0) as [w|]; [|exact H0].
    destruct (w_outbox w) as [|m rest]; [exact H0|].
    apply worker_onmessage_styles, H0.
Qed.

Lemma handleFile_read_outcome (s : Main) (data : bytes) (p : Proc) :
  heap (m_realm s) !! gifProcessor = Some p ->
  let s' := exec (handleFile_read data) s in
  fst (handleFile_read data s) = Normal tt /\
  heap (m_realm s') !! gifProcessor = Some (fst (process_gif p data)) /\
  match snd (process_gif p data) with
  | inr _ =>
      let d := get_dimensions (fst (process_gif p data)) in
      preview (doc s') = resized (width d) (height d) (preview (doc s)) /\
      processedPreview (doc s') = resized (width d) (height d) (processedPreview (doc s)) /\
      fileInfo (doc s') = fileInfo (doc s) /\
      loop_vars s' =
        (if isProcessing (vars s) then loop_vars s
         else (restarted s, S (S (next_request s)), Some (next_request s),
               Some (S (next_request s))))
  | inl err =>
      fileInfo (doc s') = FailedToProcess /\
      console (doc s') = console (doc s) ++ [("Error processing GIF: " ++ toString err)%string] /\
      preview (doc s') = preview (doc s) /\
      processedPreview (doc s') = processedPreview (doc s) /\
      vars s' = vars s /\
      loop_vars s' = loop_vars s
  end.
Proof.
  intros Hp. cbv zeta. unfold exec, handleFile_read. js_eval.
  erewrite in_realm_invoke by exact Hp.
  assert (Hl : forall q, <[gifProcessor := q]> (heap (m_realm s)) !! gifProcessor = Some q)
    by (intros q; apply list_lookup_insert_eq; eapply lookup_lt_Some, Hp).
  destruct (process_gif p data) as [p1 [err|[]]]; js_eval; cbn [of_result fst snd].
  - js_eval. repeat split; try apply Hl.
  - erewrite in_realm_invoke_getter by (simpl; apply Hl). js_eval.
    match goal with |- context [startAnimation ?X] =>
      destruct (startAnimation_effect X) as (H1 & H2 & _);
      pose proof (startAnimation_loop_vars X) as Hv;
      pose proof (startAnimation_busy X) as Hbusy;
      pose proof (startAnimation_normal X) as Hn;
      unfold exec in *; destruct (startAnimation X) as [c s']
    end.
    cbn [fst snd] in *. subst c. rewrite H1, H2. simpl in Hv, Hbusy.
    repeat split; try apply Hl.
    destruct (isProcessing (vars s)) eqn:Hb.
    + specialize (Hbusy eq_refl). injection Hbusy as ->. reflexivity.
    + rewrite Hv by reflexivity. reflexivity.
Qed.

(** X14: what a file that was read does to the page.  When it decodes, both
    canvases take its dimensions and lose the class [hidden]; the preview is
    then displayed, the processed preview is not, for its inline
    [display: none] stays; and the animation is restarted unless an export is
    under way.  When the file does not decode, the error is logged and shown
    in place of the file's name, and nothing else changes: the canvases, the
    running animation and every variable stay, so the file that failed is
    still the selected one. *)
Theorem file_is_shown_or_the_failure_reported (s : System) (i : nat) (file : File) (p : Proc) :
  reachable s ->
  m_tasks (page s) !! i = Some (HandleFileReading file) ->
  heap (m_realm (page s)) !! gifProcessor = Some p ->
  let s' := page_step (ReadSettled i true) (page s) in
  let data := file_data file in
  heap (m_realm s') !! gifProcessor = Some (fst (process_gif p data)) /\
  m_tasks s' = delete i (m_tasks (page s)) /\
  style_display_none (processedPreview (doc s')) = true /\
  match snd (process_gif p data) with
  | inr _ =>
      let d := get_dimensions (fst (process_gif p data)) in
      preview (doc s') = resized (width d) (height d) (preview (doc (page s))) /\
      processedPreview (doc s') =
        resized (width d) (height d) (processedPreview (doc (page s))) /\
      displayed (preview (doc s')) = true /\
      class_hidden (processedPreview (doc s')) = false /\
      displayed (processedPreview (doc s')) = false /\
      fileInfo (doc s') = fileInfo (doc (page s)) /\
      loop_vars s' =
        (if isProcessing (vars (page s)) then loop_vars (page s)
         else (restarted (page s), S (S (next_request (page s))),
               Some (next_request (page s)), Some (S (next_request (page s)))))
  | inl err =>
      fileInfo (doc s') = FailedToProcess /\
      console (doc s') =
        console (doc (page s)) ++ [("Error processing GIF: " ++ toString err)%string] /\
      preview (doc s') = preview (doc (page s)) /\
      processedPreview (doc s') = processedPreview (doc (page s)) /\
      vars s' = vars (page s) /\
      loop_vars s' = loop_vars (page s)
  end.
Proof.
  intros Hr Hi Hp. cbv zeta.
  pose proof (reachable_styles s Hr) as Hst. unfold inline_styles in Hst.
  injection Hst as Hs1 Hs2.
  rewrite (page_step_read _ _ _ Hi).
  set (s0 := set_m_tasks (delete i (m_tasks (page s))) (page s)).
  assert (Hp0 : heap (m_realm s0) !! gifProcessor = Some p) by exact Hp.
  destruct (handleFile_read_outcome s0 (file_data file) p Hp0) as (_ & H2 & H3).
  pose proof (handleFile_read_frame (file_data file) (currentFile (vars s0), m_tasks s0) s0 eq_refl)
    as Hfr.
  injection Hfr as _ Hts.
  split; [exact H2|]. split; [exact Hts|].
  destruct (snd (process_gif p (file_data file))) as [err|[]].
  - destruct H3 as (F1 & F2 & F3 & F4 & F5 & F6).
    split; [rewrite F4; exact Hs2|]. repeat split; assumption.
  - cbv zeta in H3. destruct H3 as (F1 & F2 & F3 & F4).
    split; [rewrite F2; exact Hs2|].
    split; [exact F1|]. split; [exact F2|].
    split; [rewrite F1; unfold displayed, resized; cbn; rewrite Hs1; reflexivity|].
    split; [rewrite F2; reflexivity|].
    split; [rewrite F2; unfold displayed, resized; cbn; rewrite Hs2; reflexivity|].
    split; [exact F3 | exact F4].
Qed.

End FileShown.

(** ** The examples *)

Lemma toy_loaded_prepares :
  currentFile (vars (page toy_loaded)) = Some toy_file /\
  isProcessing (vars (page toy_loaded)) = false /\
  heap (m_realm (page toy_loaded)) !! @gifProcessor toy_engine
    = Some (Ready bytes (file_data toy_file) 0 : @Proc toy_engine) /\
  @prepare_from_controls toy_engine (doc (page toy_loaded)) (Ready bytes (file_data toy_file) 0)
    = (Ready bytes (file_data toy_file) 0, inr (req_textData toy_request)).
Proof. vm_compute. repeat split. Qed.

Lemma toy_loaded_exports :
  the_worker (system_step (OnPage (ReadSettled (length (m_tasks (page toy_loaded))) true))
                (system_step (OnPage ProcessClick) toy_loaded))
    = Some (@worker_start toy_engine) /\
  system_run (export_events (@worker_start toy_engine))
    (system_step (OnPage (ReadSettled (length (m_tasks (page toy_loaded))) true))
       (system_step (OnPage ProcessClick) toy_loaded))
    = toy_answered.
Proof. vm_compute. repeat split. Qed.

Lemma textData_crosses_untouched_witness :
  (@reachable toy_engine toy_loaded /\
   currentFile (vars (page toy_loaded)) = Some toy_file /\
   isProcessing (vars (page toy_loaded)) = false) /\
  exists w', the_worker toy_answered = Some w' /\
             passed (calls (w_realm w')) = [req_textData toy_request].
Proof.
  destruct toy_loaded_prepares as (Hf & Hb & Hq & Hp).
  destruct toy_loaded_exports as (Hw & Hs3).
  split; [split; [exact toy_loaded_reachable | split; [exact Hf | exact Hb]]|].
  destruct (proj1 textData_crosses_untouched toy_loaded toy_file _ _ _
              toy_loaded_reachable Hf Hb Hq Hp) as (w & w' & H1 & H2 & _ & _ & _ & _ & H7).
  rewrite Hw in H1. injection H1 as <-. rewrite Hs3 in H2.
  exists w'. split; [exact H2|].
  rewrite (H7 _ eq_refl). reflexivity.
Defined.

Lemma batch_pipeline_runs_in_worker_witness :
  @reachable toy_engine toy_loaded /\
  exists w', the_worker toy_answered = Some w' /\
             calls (w_realm w') =
               [CallInit; CallNew 0; CallProcessGif 0 (file_data toy_file);
                CallProcessAll 0 (req_textData toy_request)] /\
             Forall page_call (calls (m_realm (page toy_loaded))).
Proof.
  destruct toy_loaded_prepares as (Hf & Hb & Hq & Hp).
  destruct toy_loaded_exports as (Hw & Hs3).
  split; [exact toy_loaded_reachable|].
  destruct (batch_pipeline_runs_in_worker toy_loaded toy_loaded_reachable)
    as (Hpage & _ & Hexp & _).
  destruct (Hexp toy_file _ _ _ Hf Hb Hq Hp) as (w & w' & H1 & H2 & _ & _ & _ & _ & H7 & _).
  rewrite Hw in H1. injection H1 as <-. rewrite Hs3 in H2.
  exists w'. split; [exact H2|]. split; [|exact Hpage].
  rewrite (H7 _ eq_refl). reflexivity.
Defined.

Lemma worker_initialises_lazily_witness :
  one_at_a_time [Deliver toy_request; InitSettled 0 true; Resume 0; Deliver toy_request]
    (@worker_start toy_engine) = true /\
  initialised_once
    (@worker_run toy_engine
       [Deliver toy_request; InitSettled 0 true; Resume 0; Deliver toy_request] worker_start).
Proof.
  assert (H : one_at_a_time [Deliver toy_request; InitSettled 0 true; Resume 0;
                             Deliver toy_request] (@worker_start toy_engine) = true)
    by (vm_compute; reflexivity).
  split; [exact H|].
  apply (proj2 (proj2 (proj2 (proj2 worker_initialises_lazily))) _ H).
Defined.

Lemma strict_broken_tick :
  find_request 3 (requests (page strict_broken)) = Some animate_callback /\
  heap (m_realm (page strict_broken)) !! @gifProcessor strict_engine
    = Some (None : @Proc strict_engine) /\
  calls_since (m_realm (page strict_broken))
    (m_realm (page_step (AnimationFrame 3 1100%Q) (page strict_broken)))
    = [@CallGetFrameDelay strict_engine (@gifProcessor strict_engine);
       CallRender (@gifProcessor strict_engine)].
Proof. vm_compute. repeat split. Qed.

Lemma render_failure_stops_the_preview_witness :
  (@reachable strict_engine strict_broken /\
   find_request 3 (requests (page strict_broken)) = Some animate_callback /\
   heap (m_realm (page strict_broken)) !! @gifProcessor strict_engine
     = Some (None : @Proc strict_engine) /\
   @render_current_frame strict_engine None = (None, inl "no document")) /\
  pending animate_callback (page_step (AnimationFrame 3 1100%Q) (page strict_broken)) = [].
Proof.
  destruct strict_broken_tick as (Hf & Hp & Hm).
  split; [split; [exact strict_broken_reachable | split; [exact Hf | split; [exact Hp | reflexivity]]]|].
  destruct (render_failure_stops_the_preview strict_broken 3 1100%Q None None
              "no document" strict_broken_reachable Hf Hp eq_refl) as (_ & H1 & _).
  apply H1. rewrite Hm. right. left. reflexivity.
Defined.

Lemma toy_chosen_reachable : @reachable toy_engine toy_chosen.
Proof. exists [OnPage (FileChosen toy_file)]. reflexivity. Defined.

Lemma toy_file_decodes :
  snd (@process_gif toy_engine (Idle bytes) (file_data toy_file)) = inr tt.
Proof. reflexivity. Qed.

Lemma file_is_shown_or_the_failure_reported_witness :
  (@reachable toy_engine toy_chosen /\
   m_tasks (page toy_chosen) !! 0 = Some (HandleFileReading toy_file) /\
   heap (m_realm (page toy_chosen)) !! @gifProcessor toy_engine
     = Some (Idle bytes : @Proc toy_engine)) /\
  displayed (preview (doc (page_step (ReadSettled 0 true) (page toy_chosen)))) = true /\
  displayed (processedPreview (doc (page_step (ReadSettled 0 true) (page toy_chosen)))) = false.
Proof.
  assert (Hi : m_tasks (page toy_chosen) !! 0 = Some (HandleFileReading toy_file))
    by (vm_compute; reflexivity).
  assert (Hp : heap (m_realm (page toy_chosen)) !! @gifProcessor toy_engine
               = Some (Idle bytes : @Proc toy_engine)) by (vm_compute; reflexivity).
  split; [split; [exact toy_chosen_reachable | split; [exact Hi | exact Hp]]|].
  destruct (file_is_shown_or_the_failure_reported toy_chosen 0 toy_file (Idle bytes)
              toy_chosen_reachable Hi Hp) as (_ & _ & _ & H).
  rewrite toy_file_decodes in H.
  destruct H as (_ & _ & H1 & _ & H2 & _). split; [exact H1 | exact H2].
Defined.
